(** * hello3dmcp-frontend: coordinate engine, light rig, camera rig,
    hover machine and command router

  A shallow embedding of the JavaScript sources.  JavaScript numbers are
  modelled by the real numbers (no rounding, no infinities; NaN only where
  the camera controller clamps an argument it has not checked, in
  [CameraNumbers]), strings by [string] (bytes), objects by records,
  [null]/[undefined] references by [option], and a [throw] by the [Throw]
  constructor of [Result]. *)

From Stdlib Require Import Reals Lra Lia Psatz RNsatz ZArith List String Ascii Bool.
Import ListNotations.
Local Open Scope R_scope.

(** ** Outcome of a call: normal completion or a thrown exception *)

Inductive Error : Type :=
| InvalidAzimuth            (* Error("Invalid azimuth: ...") of sphericalToCartesian *)
| TypeError (what : string) (* property access or call on null / undefined *).

Inductive Result (A : Type) : Type :=
| Ok (a : A)
| Throw (e : Error).
Arguments Ok {A} a.
Arguments Throw {A} e.

Definition bind {A B : Type} (m : Result A) (k : A -> Result B) : Result B :=
  match m with
  | Ok a => k a
  | Throw e => Throw e
  end.

Notation "'let*' x ':=' m 'in' k" := (bind m (fun x => k))
  (at level 10, x name, m at level 100, k at level 200).

(** Outcome of a method that mutates an object: the object as the method
    leaves it, also when the method throws. *)
Inductive Outcome (S : Type) : Type :=
| Done (s : S)
| Thrown (e : Error) (s : S).
Arguments Done {S} s.
Arguments Thrown {S} e s.

Definition stateOf {S : Type} (o : Outcome S) : S :=
  match o with
  | Done s => s
  | Thrown _ s => s
  end.

Definition throws {S : Type} (o : Outcome S) : bool :=
  match o with
  | Done _ => false
  | Thrown _ _ => true
  end.

(** Sequencing of two mutating calls: the second runs only if the first
    returns. *)
Definition andThen {S : Type} (o : Outcome S) (k : S -> Outcome S) : Outcome S :=
  match o with
  | Done s => k s
  | Thrown e s => Thrown e s
  end.

(** A mutating call inside an object that is a field of another object. *)
Definition inField {S T : Type} (o : Outcome S) (put : S -> T) : Outcome T :=
  match o with
  | Done s => Done (put s)
  | Thrown e s => Thrown e (put s)
  end.

(** ** The JavaScript values and Math functions the sources use *)

Module JS.

Inductive Value : Type :=
| Number (r : R)
| Str (s : string)
| Undefined.

(** Truncation toward zero, as the [%] operator on numbers uses it. *)
Definition trunc (x : R) : Z :=
  if Rle_dec 0 x then Int_part x else (- Int_part (- x))%Z.

(** [x % m] *)
Definition rem (x m : R) : R := x - m * IZR (trunc (x / m)).

(** [Math.sign] *)
Definition sign (x : R) : R :=
  if Rlt_dec 0 x then 1 else if Rlt_dec x 0 then -1 else 0.

(** [Math.atan2(y, x)], with values in (-PI, PI] *)
Definition atan2 (y x : R) : R :=
  if Rlt_dec 0 x then atan (y / x)
  else if Rlt_dec x 0 then
         if Rle_dec 0 y then atan (y / x) + PI else atan (y / x) - PI
       else if Rlt_dec 0 y then PI / 2
            else if Rlt_dec y 0 then - (PI / 2) else 0.

(** [Math.hypot(a, b)] *)
Definition hypot (a b : R) : R := sqrt (a * a + b * b).

(** String.prototype.toLowerCase, on bytes: only A-Z change. *)
Definition lowerAscii (c : ascii) : ascii :=
  let n := nat_of_ascii c in
  if (Nat.leb 65 n && Nat.leb n 90)%bool then ascii_of_nat (n + 32) else c.

Fixpoint toLowerCase (s : string) : string :=
  match s with
  | EmptyString => EmptyString
  | String c s' => String (lowerAscii c) (toLowerCase s')
  end.

(** The ASCII characters that the regular-expression class [\s] matches. *)
Definition isSpace (c : ascii) : bool :=
  let n := nat_of_ascii c in
  ((Nat.leb 9 n && Nat.leb n 13) || Nat.eqb n 32)%bool.

Fixpoint trimStart (s : string) : string :=
  match s with
  | EmptyString => EmptyString
  | String c s' => if isSpace c then trimStart s' else s
  end.

Fixpoint rev_append (s acc : string) : string :=
  match s with
  | EmptyString => acc
  | String c s' => rev_append s' (String c acc)
  end.

Definition rev (s : string) : string := rev_append s EmptyString.

(** String.prototype.trim *)
Definition trim (s : string) : string := rev (trimStart (rev (trimStart s))).

(** [s.replace(/[...]/g, '')] for a character class given as a predicate *)
Fixpoint removeAll (p : ascii -> bool) (s : string) : string :=
  match s with
  | EmptyString => EmptyString
  | String c s' => if p c then removeAll p s' else String c (removeAll p s')
  end.

(** [s.startsWith(p)] *)
Definition startsWith (p s : string) : bool := String.prefix p s.

(** Whether every byte of the string is an ASCII character.  On such a
    string [toLowerCase], [trim] and the class [\s] are as defined above;
    beyond ASCII, JavaScript knows further white space (U+00A0, U+2028,
    U+FEFF and others) and further capital letters. *)
Fixpoint isAscii (s : string) : bool :=
  match s with
  | EmptyString => true
  | String c s' => (Nat.ltb (nat_of_ascii c) 128 && isAscii s')%bool
  end.




(** A number that may be NaN, for the arithmetic that the sources do on an
    argument they have not checked.  An argument that is missing is
    [undefined], which converts to NaN; [+], [Math.min] and [Math.max]
    return NaN as soon as an operand is NaN. *)
Inductive Num : Type :=
| Finite (r : R)
| NaN.

(** The conversion to a number of an argument that is a number or is
    missing ([None]). *)
Definition toNumber (argument : option R) : Num :=
  match argument with
  | Some r => Finite r
  | None => NaN
  end.

(** [a + b] *)
Definition plus (a b : Num) : Num :=
  match a, b with
  | Finite x, Finite y => Finite (x + y)
  | _, _ => NaN
  end.

(** [Math.min(a, b)] *)
Definition min (a b : Num) : Num :=
  match a, b with
  | Finite x, Finite y => Finite (Rmin x y)
  | _, _ => NaN
  end.

(** [Math.max(a, b)] *)
Definition max (a b : Num) : Num :=
  match a, b with
  | Finite x, Finite y => Finite (Rmax x y)
  | _, _ => NaN
  end.

End JS.

(** ** The part of three.js the sources call

  Vector3, Quaternion, Euler and MathUtils follow the definitions of the
  three.js library. *)

Module THREE.

Record Vector3 : Type := vec3 { x : R; y : R; z : R }.

Record Quaternion : Type := quat { qx : R; qy : R; qz : R; qw : R }.

Record Euler : Type := euler { ex : R; ey : R; ez : R }.

Definition dot (a b : Vector3) : R := x a * x b + y a * y b + z a * z b.

Definition lengthSq (v : Vector3) : R := x v * x v + y v * y v + z v * z v.

Definition length (v : Vector3) : R := sqrt (lengthSq v).

Definition multiplyScalar (v : Vector3) (s : R) : Vector3 :=
  vec3 (x v * s) (y v * s) (z v * s).

Definition add (a b : Vector3) : Vector3 :=
  vec3 (x a + x b) (y a + y b) (z a + z b).

Definition sub (a b : Vector3) : Vector3 :=
  vec3 (x a - x b) (y a - y b) (z a - z b).

(** [v.addScaledVector(a, s)] *)
Definition addScaledVector (v a : Vector3) (s : R) : Vector3 :=
  vec3 (x v + x a * s) (y v + y a * s) (z v + z a * s).

(** [len || 1] *)
Definition orOne (len : R) : R := if Req_EM_T len 0 then 1 else len.

(** [v.normalize()] is [v.divideScalar(v.length() || 1)], and
    [divideScalar(s)] is [multiplyScalar(1 / s)]. *)
Definition normalize (v : Vector3) : Vector3 :=
  multiplyScalar v (1 / orOne (length v)).

(** [v.applyQuaternion(q)] *)
Definition applyQuaternion (v : Vector3) (q : Quaternion) : Vector3 :=
  let tx := 2 * (qy q * z v - qz q * y v) in
  let ty := 2 * (qz q * x v - qx q * z v) in
  let tz := 2 * (qx q * y v - qy q * x v) in
  vec3 (x v + qw q * tx + qy q * tz - qz q * ty)
       (y v + qw q * ty + qz q * tx - qx q * tz)
       (z v + qw q * tz + qx q * ty - qy q * tx).

(** [v.applyEuler(e)] for the default order XYZ *)
Definition applyEuler (v : Vector3) (e : Euler) : Vector3 :=
  let a := cos (ex e) in let b := sin (ex e) in
  let c := cos (ey e) in let d := sin (ey e) in
  let e' := cos (ez e) in let f := sin (ez e) in
  vec3 (c * e' * x v + (- (c * f)) * y v + d * z v)
       ((a * f + b * e' * d) * x v + (a * e' - b * f * d) * y v + (- (b * c)) * z v)
       ((b * f - a * e' * d) * x v + (b * e' + a * f * d) * y v + (a * c) * z v).

Definition degToRad (degrees : R) : R := degrees * (PI / 180).

Definition radToDeg (radians : R) : R := radians * (180 / PI).

Definition identityQuaternion : Quaternion := quat 0 0 0 1.

(** A camera: what the sources read and write of a PerspectiveCamera. *)
Record PerspectiveCamera : Type := mkCamera {
  position : Vector3;
  quaternion : Quaternion;
  zoom : R;
  aspect : R
}.

End THREE.

Import THREE.

(** ** constants.js *)

Module CONFIG.

Module CAMERA.
Definition FOV : R := 32.
Definition INITIAL_DISTANCE : R := 32.
Definition MIN_DISTANCE : R := 8.
Definition MAX_DISTANCE : R := 64.
Definition FOV_MIN : R := 5 / 10.
Definition FOV_MAX : R := 5.
Definition DOLLY_SPEED : R := 1 / 10.
Definition FOV_SPEED : R := 2 / 100.
End CAMERA.

Module MODEL.
Definition SIZE : R := 1.
Definition ORIGIN : Vector3 := vec3 0 (- (5 / 10)) 0.
End MODEL.

Record LightConfig : Type := mkLightConfig {
  INTENSITY : R;
  WIDTH : R;
  HEIGHT : R;
  POSITION : Vector3;
  TARGET : option Vector3
}.

Module LIGHTING.
Definition KEY_LIGHT : LightConfig :=
  mkLightConfig (25 / 10) 6 6 (vec3 5 3 5) (Some (vec3 0 0 0)).
Definition FILL_LIGHT : LightConfig :=
  mkLightConfig (2 / 10) 8 8 (vec3 (-5) 2 5) (Some (vec3 0 0 0)).
End LIGHTING.

Module INTERACTION.
Definition PINCH_ZOOM_SENSITIVITY : R := 1 / 100.
Definition AREA_LIGHT_ROTATION_SENSITIVITY : R := 5 / 1000.
Definition AREA_LIGHT_DOLLY_SENSITIVITY : R := 1 / 10.
Definition AREA_LIGHT_SWING_AMOUNT : R := 10.
Definition AREA_LIGHT_WALK_AMOUNT : R := 1.
End INTERACTION.

End CONFIG.

(** ** utils/coordinates/CoordinateSystem.js *)

Module CoordinateSystem.

(** The Map [directionToAzimuth], in insertion order. *)
Definition directionToAzimuth : list (string * R) :=
  [ ("north", 0); ("east", 90); ("south", 180); ("west", 270);
    ("northeast", 45); ("northwest", 315); ("southeast", 135); ("southwest", 225);
    ("n", 0); ("e", 90); ("s", 180); ("w", 270);
    ("ne", 45); ("nw", 315); ("se", 135); ("sw", 225);
    ("nne", 225 / 10); ("ene", 675 / 10); ("ese", 1125 / 10); ("sse", 1575 / 10);
    ("ssw", 2025 / 10); ("wsw", 2475 / 10); ("wnw", 2925 / 10); ("nnw", 3375 / 10) ]%string.

(** [Map.prototype.get]; [None] when the key is absent ([has] is false). *)
Fixpoint mapGet {A : Type} (m : list (string * A)) (k : string) : option A :=
  match m with
  | [] => None
  | (k', v) :: m' => if String.eqb k' k then Some v else mapGet m' k
  end.

(** The class [\s\-\.] of the regular expression in [normalizeDirectionName]. *)
Definition isSeparator (c : ascii) : bool :=
  (JS.isSpace c || Ascii.eqb c "-" || Ascii.eqb c ".")%bool%char.

(** [null] is [None]. *)
Definition normalizeDirectionName (direction : JS.Value) : option string :=
  match direction with
  | JS.Str s =>
      if String.eqb s "" then None
      else Some (JS.removeAll isSeparator (JS.trim (JS.toLowerCase s)))
  | _ => None
  end.

(** [null] is [None]. *)
Definition directionToAzimuthAngle (direction : JS.Value) : option R :=
  match direction with
  | JS.Number d =>
      let azimuth := JS.rem d 360 in
      Some (if Rlt_dec azimuth 0 then azimuth + 360 else azimuth)
  | JS.Str _ =>
      match normalizeDirectionName direction with
      | Some normalized =>
          if String.eqb normalized "" then None
          else mapGet directionToAzimuth normalized
      | None => None
      end
  | JS.Undefined => None
  end.

Definition getCameraForward (camera : PerspectiveCamera) : Vector3 :=
  normalize (applyQuaternion (vec3 0 0 (-1)) (quaternion camera)).

Definition getCameraRight (camera : PerspectiveCamera) : Vector3 :=
  normalize (applyQuaternion (vec3 1 0 0) (quaternion camera)).

Definition getCameraUp (camera : PerspectiveCamera) : Vector3 :=
  normalize (applyQuaternion (vec3 0 1 0) (quaternion camera)).

Definition worldUp : Vector3 := vec3 0 1 0.

Definition zero3 : Vector3 := vec3 0 0 0.

(** [v.clone().sub(worldUp.clone().multiplyScalar(v.dot(worldUp)))] *)
Definition projectHorizontal (v : Vector3) : Vector3 :=
  sub v (multiplyScalar worldUp (dot v worldUp)).

(** The unit horizontal direction of an azimuth (in radians), with the two
    fall-backs of the source for a direction that has no horizontal part. *)
Definition horizontalPlaneDir (azimuthRad : R) (camera : PerspectiveCamera) : Vector3 :=
  let forward := getCameraForward camera in
  let right := getCameraRight camera in
  let horizontalDir :=
    addScaledVector (addScaledVector zero3 forward (cos azimuthRad))
                    right (sin azimuthRad) in
  let horizontalPlaneDir := projectHorizontal horizontalDir in
  if Rgt_dec (length horizontalPlaneDir) (1 / 10000) then
    normalize horizontalPlaneDir
  else
    let forwardHorizontal := projectHorizontal forward in
    if Rgt_dec (length forwardHorizontal) (1 / 10000) then
      normalize forwardHorizontal
    else
      normalize (projectHorizontal right).

Definition sphericalToCartesian (azimuth : JS.Value) (elevation distance : R)
    (camera : PerspectiveCamera) : Result Vector3 :=
  match directionToAzimuthAngle azimuth with
  | None => Throw InvalidAzimuth
  | Some azimuthAngle =>
      let azimuthRad := degToRad azimuthAngle in
      let elevationRad := degToRad elevation in
      let horizontalPlaneDir := horizontalPlaneDir azimuthRad camera in
      let direction :=
        addScaledVector (addScaledVector zero3 horizontalPlaneDir (cos elevationRad))
                        worldUp (sin elevationRad) in
      Ok (multiplyScalar (normalize direction) distance)
  end.

Record Spherical : Type := mkSpherical {
  azimuth : R;
  elevation : R;
  distance : R
}.

Definition cartesianToSpherical (px py pz : R) (camera : PerspectiveCamera) : Spherical :=
  let position := vec3 px py pz in
  let distance := length position in
  if Rlt_dec distance (1 / 10000) then mkSpherical 0 0 0
  else
    let direction := normalize position in
    let forward := getCameraForward camera in
    let right := getCameraRight camera in
    let elevation :=
      radToDeg (asin (Rmax (-1) (Rmin 1 (dot direction worldUp)))) in
    let verticalComponent := dot direction worldUp in
    let horizontalDir := sub direction (multiplyScalar worldUp verticalComponent) in
    let horizontalLength := length horizontalDir in
    if Rgt_dec horizontalLength (1 / 10000) then
      let horizontalDir := normalize horizontalDir in
      let forwardComponent := dot horizontalDir forward in
      let rightComponent := dot horizontalDir right in
      let azimuthRad := JS.atan2 rightComponent forwardComponent in
      let azimuth := radToDeg azimuthRad in
      let azimuth := if Rlt_dec azimuth 0 then azimuth + 360 else azimuth in
      mkSpherical azimuth elevation distance
    else
      mkSpherical 0 elevation distance.

(** One turn of the loop of [azimuthToDirectionName] over an entry of the
    Map; the state holds [closestDirection] and [minDifference]. *)
Definition closerDirection (normalizedAzimuth : R) (state : string * R)
    (entry : string * R) : string * R :=
  let (direction, directionAzimuth) := entry in
  if Nat.leb (String.length direction) 1 then state
  else
    let difference := Rabs (normalizedAzimuth - directionAzimuth) in
    let difference := if Rgt_dec difference 180 then 360 - difference else difference in
    if Rlt_dec difference (snd state) then (direction, difference) else state.

Definition azimuthToDirectionName (azimuth : R) : string :=
  let normalizedAzimuth := JS.rem azimuth 360 in
  let normalizedAzimuth :=
    if Rlt_dec normalizedAzimuth 0 then normalizedAzimuth + 360 else normalizedAzimuth in
  fst (fold_left (closerDirection normalizedAzimuth) directionToAzimuth
         ("north"%string, 360)).

(** [Array.from(directionToAzimuth.keys()).filter(name => name.length > 1)] *)
Definition getAvailableDirectionNames : list string :=
  filter (fun name => Nat.ltb 1 (String.length name)) (map fst directionToAzimuth).

End CoordinateSystem.

(** ** What the sources take from outside the repository

    The JavaScript built-ins [parseFloat] and [parseInt], the colour class of
    three.js, the crayon colour table and the rotation controller are used by
    the sources but defined elsewhere; they are parameters of the model. *)

Record Host : Type := mkHost {
  parseFloat : JS.Value -> option R;            (* [None] is NaN *)
  parseInt : string -> nat -> option R;         (* [None] is NaN *)
  Color : Type;
  Color_ofHex : option R -> Color;              (* new THREE.Color(hex), color.setHex(hex) *)
  Color_getHexString : Color -> string;
  getAppleCrayonColorByName : string -> Color;
  RotationController : Type;
  rc_getRotationEuler : RotationController -> Vector3;
  rc_setRotationEuler : R -> R -> R -> RotationController -> RotationController;
  rc_rotateClockwise : R -> RotationController -> RotationController;
  rc_rotateCounterclockwise : R -> RotationController -> RotationController;
  rc_nudgePitchUp : R -> RotationController -> RotationController;
  rc_nudgePitchDown : R -> RotationController -> RotationController;
  rc_nudgeRoll : R -> RotationController -> RotationController
}.

(** A default parameter value: [f(x = d)] called with [undefined]. *)
Definition orDefault {A : Type} (d : A) (o : option A) : A :=
  match o with
  | Some v => v
  | None => d
  end.

(** ** AreaLight.js *)

Module AreaLight.
Section WithHost.
Context {host : Host}.

(** What [Object3D.lookAt] of three.js computes the orientation of a light
    from: the world position of the light, the point to look at and the world
    rotation of the parent. *)
Record LookAt : Type := mkLookAt {
  eye : Vector3;
  target : Vector3;
  parentRotation : Euler
}.

Record RectAreaLight : Type := mkRectAreaLight {
  position : Vector3;          (* relative to the parent group *)
  orientation : LookAt;
  intensity : R;
  color : Color host;
  width : R;
  height : R
}.

(** The parent group: an Object3D at the model origin. *)
Record Object3D : Type := mkObject3D {
  groupPosition : Vector3;
  rotation : Euler
}.

Record Mesh : Type := mkMesh {
  visible : bool;
  materialColor : Color host
}.

(** The identity of a scene object, as [===] compares it. *)
Inductive ObjectRef : Type :=
| PickerOf (owner : string)
| OtherObject (n : nat).

Record t : Type := mkAreaLight {
  areaLight : option RectAreaLight;
  parentGroup : option Object3D;
  helper : option unit;
  highlightOverlay : option Mesh;
  pickerGeometry : option ObjectRef;
  type : string
}.

Definition config (type : string) : CONFIG.LightConfig :=
  if String.eqb type "key" then CONFIG.LIGHTING.KEY_LIGHT else CONFIG.LIGHTING.FILL_LIGHT.

(** [config.COLOR] *)
Definition configColor (type : string) : Color host :=
  getAppleCrayonColorByName host "snow".

(** [config.TARGET || { x: 0, y: 0, z: 0 }] *)
Definition targetPosition (type : string) : Vector3 :=
  orDefault (vec3 0 0 0) (CONFIG.TARGET (config type)).

(** [light.getWorldPosition()]: the parent's position plus the position of the
    light turned by the parent's rotation. *)
Definition worldPosition (parent : option Object3D) (light : RectAreaLight) : Vector3 :=
  match parent with
  | Some g => add (groupPosition g) (applyEuler (position light) (rotation g))
  | None => position light
  end.

Definition parentWorldRotation (parent : option Object3D) : Euler :=
  match parent with
  | Some g => rotation g
  | None => euler 0 0 0
  end.

(** [light.lookAt(x, y, z)] *)
Definition lookAt (parent : option Object3D) (light : RectAreaLight) (tgt : Vector3)
  : RectAreaLight :=
  mkRectAreaLight (position light)
    (mkLookAt (worldPosition parent light) tgt (parentWorldRotation parent))
    (intensity light) (color light) (width light) (height light).

Definition setPosition (light : RectAreaLight) (p : Vector3) : RectAreaLight :=
  mkRectAreaLight p (orientation light)
    (intensity light) (color light) (width light) (height light).

Definition withAreaLight (l : t) (light : RectAreaLight) : t :=
  mkAreaLight (Some light) (parentGroup l) (helper l) (highlightOverlay l)
    (pickerGeometry l) (type l).

(** [new AreaLight(type)]: [_createAreaLight] then [_configureAreaLight]. *)
Definition constructor (type : string) : t :=
  let cfg := config type in
  let origin := CONFIG.MODEL.ORIGIN in
  let group := mkObject3D origin (euler 0 0 0) in
  let worldPosition := CONFIG.POSITION cfg in
  let relativePosition := vec3 (x worldPosition - x origin) (y worldPosition - y origin)
                               (z worldPosition - z origin) in
  let light :=
    mkRectAreaLight relativePosition
      (mkLookAt (vec3 0 0 0) (vec3 0 0 0) (euler 0 0 0))
      (CONFIG.INTENSITY cfg) (configColor type) (CONFIG.WIDTH cfg) (CONFIG.HEIGHT cfg) in
  mkAreaLight (Some (lookAt (Some group) light (targetPosition type)))
    (Some group) None None None type.

Definition setHelper (l : t) : t :=
  mkAreaLight (areaLight l) (parentGroup l) (Some tt) (highlightOverlay l)
    (pickerGeometry l) (type l).

Definition createHighlightOverlay (l : t) : Outcome t :=
  match areaLight l with
  | None => Thrown (TypeError "areaLight") l
  | Some light =>
      Done (mkAreaLight (areaLight l) (parentGroup l) (helper l)
            (Some (mkMesh false (color light)))
            (Some (PickerOf (type l))) (type l))
  end.

Definition getPickerGeometry (l : t) : option ObjectRef := pickerGeometry l.

(** [this.parentGroup ? this.parentGroup.rotation : new THREE.Euler()] *)
Definition getRotation (l : t) : Euler :=
  match parentGroup l with
  | Some g => rotation g
  | None => euler 0 0 0
  end.

Definition setHighlighted (highlighted : bool) (l : t) : t :=
  match highlightOverlay l with
  | Some m =>
      mkAreaLight (areaLight l) (parentGroup l) (helper l)
        (Some (mkMesh highlighted (materialColor m))) (pickerGeometry l) (type l)
  | None => l
  end.

Definition updateHighlightColor (l : t) : Outcome t :=
  match highlightOverlay l with
  | Some m =>
      match areaLight l with
      | Some light =>
          Done (mkAreaLight (areaLight l) (parentGroup l) (helper l)
                  (Some (mkMesh (visible m) (color light))) (pickerGeometry l) (type l))
      | None => Thrown (TypeError "areaLight") l
      end
  | None => Done l
  end.

Definition rotate (deltaX deltaY : R) (l : t) : Outcome t :=
  match parentGroup l with
  | None => Done l
  | Some g =>
      let g' := mkObject3D (groupPosition g)
                  (euler (ex (rotation g) + deltaY) (ey (rotation g) + deltaX)
                         (ez (rotation g))) in
      match areaLight l with
      | None =>
          Thrown (TypeError "areaLight")
            (mkAreaLight None (Some g') (helper l) (highlightOverlay l)
               (pickerGeometry l) (type l))
      | Some light =>
          Done (mkAreaLight (Some (lookAt (Some g') light (targetPosition (type l))))
                (Some g') (helper l) (highlightOverlay l) (pickerGeometry l) (type l))
      end
  end.

Definition dolly (delta : R) (l : t) : t :=
  match areaLight l, parentGroup l with
  | Some light, Some _ =>
      let currentPosition := position light in
      let currentDistance := length currentPosition in
      let direction :=
        if Rgt_dec currentDistance (1 / 10000) then normalize currentPosition
        else vec3 0 0 1 in
      let movement := multiplyScalar direction delta in
      let newPosition := add currentPosition movement in
      withAreaLight l
        (lookAt (parentGroup l) (setPosition light newPosition) (targetPosition (type l)))
  | _, _ => l
  end.

Definition setPositionSpherical (azimuth : JS.Value) (elevation : R)
    (camera : option PerspectiveCamera) (l : t) : Outcome t :=
  match areaLight l, parentGroup l, camera with
  | Some light, Some _, Some cam =>
      let currentPosition := position light in
      let currentDistance := length currentPosition in
      let distance :=
        if Rgt_dec currentDistance (1 / 10000) then currentDistance else 1 in
      match CoordinateSystem.sphericalToCartesian azimuth elevation distance cam with
      | Throw e => Thrown e l
      | Ok cartesian =>
          Done (withAreaLight l
                  (lookAt (parentGroup l) (setPosition light cartesian)
                          (targetPosition (type l))))
      end
  | _, _, _ => Done l
  end.

Definition getPositionSpherical (camera : option PerspectiveCamera) (l : t)
  : CoordinateSystem.Spherical :=
  match areaLight l, parentGroup l, camera with
  | Some light, Some _, Some cam =>
      let relativePosition := position light in
      CoordinateSystem.cartesianToSpherical
        (x relativePosition) (y relativePosition) (z relativePosition) cam
  | _, _, _ => CoordinateSystem.mkSpherical 0 0 0
  end.

(** The guard [!this.areaLight || !this.parentGroup || !camera] *)
Definition ready (camera : option PerspectiveCamera) (l : t) : bool :=
  match areaLight l, parentGroup l, camera with
  | Some _, Some _, Some _ => true
  | _, _, _ => false
  end.

Definition rotateClockwise (degrees : option R) (camera : option PerspectiveCamera)
    (l : t) : Outcome t :=
  let degrees := orDefault 10 degrees in
  if ready camera l then
    let current := getPositionSpherical camera l in
    let newAzimuth := JS.rem (CoordinateSystem.azimuth current - degrees + 360) 360 in
    setPositionSpherical (JS.Number newAzimuth) (CoordinateSystem.elevation current) camera l
  else Done l.

Definition rotateCounterclockwise (degrees : option R) (camera : option PerspectiveCamera)
    (l : t) : Outcome t :=
  let degrees := orDefault 10 degrees in
  if ready camera l then
    let current := getPositionSpherical camera l in
    let newAzimuth := JS.rem (CoordinateSystem.azimuth current + degrees) 360 in
    setPositionSpherical (JS.Number newAzimuth) (CoordinateSystem.elevation current) camera l
  else Done l.

Definition nudgeElevationUp (degrees : option R) (camera : option PerspectiveCamera)
    (l : t) : Outcome t :=
  let degrees := orDefault 5 degrees in
  if ready camera l then
    let current := getPositionSpherical camera l in
    let newElevation := Rmin 90 (CoordinateSystem.elevation current + degrees) in
    setPositionSpherical (JS.Number (CoordinateSystem.azimuth current)) newElevation camera l
  else Done l.

Definition nudgeElevationDown (degrees : option R) (camera : option PerspectiveCamera)
    (l : t) : Outcome t :=
  let degrees := orDefault 5 degrees in
  if ready camera l then
    let current := getPositionSpherical camera l in
    let newElevation := Rmax 0 (CoordinateSystem.elevation current - degrees) in
    setPositionSpherical (JS.Number (CoordinateSystem.azimuth current)) newElevation camera l
  else Done l.

(** The shortest angular distance to the target: [diff] of [moveTowardDirection]. *)
Definition shortestDiff (targetAzimuthNum currentAzimuth : R) : R :=
  let diff := targetAzimuthNum - currentAzimuth in
  let diff := if Rgt_dec diff 180 then diff - 360 else diff in
  if Rlt_dec diff (-180) then diff + 360 else diff.

(** [newAzimuth] of [moveTowardDirection] *)
Definition movedAzimuth (targetAzimuthNum currentAzimuth degrees : R) : R :=
  let diff := shortestDiff targetAzimuthNum currentAzimuth in
  let moveAmount := JS.sign diff * Rmin (Rabs diff) degrees in
  JS.rem (currentAzimuth + moveAmount + 360) 360.

(** [targetAzimuthNum] of [moveTowardDirection]; [None] is the early return
    on an invalid direction. *)
Definition targetAzimuthNum (targetDirection : JS.Value) : option R :=
  match CoordinateSystem.directionToAzimuthAngle targetDirection with
  | None =>
      match targetDirection with
      | JS.Number n => Some n
      | _ => parseFloat host targetDirection
      end
  | Some targetAzimuth => Some targetAzimuth
  end.

Definition moveTowardDirection (targetDirection : JS.Value) (degrees : option R)
    (camera : option PerspectiveCamera) (l : t) : Outcome t :=
  let degrees := orDefault 10 degrees in
  if ready camera l then
    match targetAzimuthNum targetDirection with
    | None => Done l
    | Some targetAzimuthNum =>
        let current := getPositionSpherical camera l in
        let newAzimuth :=
          movedAzimuth targetAzimuthNum (CoordinateSystem.azimuth current) degrees in
        setPositionSpherical (JS.Number newAzimuth) (CoordinateSystem.elevation current)
          camera l
    end
  else Done l.

Definition setDistance (distance : R) (camera : option PerspectiveCamera) (l : t)
  : Outcome t :=
  match areaLight l, parentGroup l, camera with
  | Some light, Some _, Some cam =>
      let current := getPositionSpherical camera l in
      match CoordinateSystem.sphericalToCartesian
              (JS.Number (CoordinateSystem.azimuth current))
              (CoordinateSystem.elevation current) distance cam with
      | Throw e => Thrown e l
      | Ok cartesian =>
          Done (withAreaLight l
                  (lookAt (parentGroup l) (setPosition light cartesian)
                          (targetPosition (type l))))
      end
  | _, _, _ => Done l
  end.

Definition setPositionCartesian (px py pz : R) (l : t) : t :=
  match areaLight l with
  | Some light =>
      withAreaLight l
        (lookAt (parentGroup l) (setPosition light (vec3 px py pz))
                (targetPosition (type l)))
  | None => l
  end.

End WithHost.
Arguments t : clear implicits.
Arguments RectAreaLight : clear implicits.
Arguments Mesh : clear implicits.
End AreaLight.

(** ** CameraController.js *)

Module CameraController.

Record Touch : Type := mkTouch { clientX : R; clientY : R }.

Record t : Type := mkCameraController {
  camera : PerspectiveCamera;
  minDistance : R;
  maxDistance : R;
  minFOV : R;
  maxFOV : R;
  dollySpeed : R;
  fovSpeed : R;
  initialPinchDistance : R;
  initialCameraDistance : R
}.

Definition withCamera (c : t) (cam : PerspectiveCamera) : t :=
  mkCameraController cam (minDistance c) (maxDistance c) (minFOV c) (maxFOV c)
    (dollySpeed c) (fovSpeed c) (initialPinchDistance c) (initialCameraDistance c).

(** [camera.position.z = v] *)
Definition setPositionZ (cam : PerspectiveCamera) (v : R) : PerspectiveCamera :=
  mkCamera (vec3 (x (THREE.position cam)) (y (THREE.position cam)) v)
    (quaternion cam) (zoom cam) (aspect cam).

(** [camera.zoom = v] *)
Definition setZoom (cam : PerspectiveCamera) (v : R) : PerspectiveCamera :=
  mkCamera (THREE.position cam) (quaternion cam) v (aspect cam).

Definition setAspect (cam : PerspectiveCamera) (v : R) : PerspectiveCamera :=
  mkCamera (THREE.position cam) (quaternion cam) (zoom cam) v.

(** [new CameraController()]; [windowAspect] is
    [window.innerWidth / window.innerHeight].  A new PerspectiveCamera sits at
    the origin with the identity rotation and zoom 1. *)
Definition constructor (windowAspect : R) : t :=
  let cam := mkCamera (vec3 0 0 0) identityQuaternion 1 windowAspect in
  mkCameraController (setPositionZ cam CONFIG.CAMERA.INITIAL_DISTANCE)
    CONFIG.CAMERA.MIN_DISTANCE CONFIG.CAMERA.MAX_DISTANCE
    CONFIG.CAMERA.FOV_MIN CONFIG.CAMERA.FOV_MAX
    CONFIG.CAMERA.DOLLY_SPEED CONFIG.CAMERA.FOV_SPEED
    0 CONFIG.CAMERA.INITIAL_DISTANCE.

Definition _clampDistance (c : t) (value : R) : R :=
  Rmax (minDistance c) (Rmin (maxDistance c) value).

Definition _clampFOV (c : t) (value : R) : R :=
  Rmax (minFOV c) (Rmin (maxFOV c) value).

Definition _applyFOVChange (fovDelta : R) (c : t) : t :=
  let newFOV := zoom (camera c) + fovDelta in
  withCamera c (setZoom (camera c) (_clampFOV c newFOV)).

Definition _applyDolly (dollyDelta : R) (c : t) : t :=
  let newDistance := z (THREE.position (camera c)) + dollyDelta in
  withCamera c (setPositionZ (camera c) (_clampDistance c newDistance)).

Definition handleWheel (deltaY : R) (isShiftPressed : bool) (c : t) : t :=
  if isShiftPressed then
    let fovDelta := if Rgt_dec deltaY 0 then - fovSpeed c else fovSpeed c in
    _applyFOVChange fovDelta c
  else
    let dollyDelta := if Rgt_dec deltaY 0 then dollySpeed c else - dollySpeed c in
    _applyDolly dollyDelta c.

Definition startPinchZoom (touch1 touch2 : Touch) (c : t) : t :=
  mkCameraController (camera c) (minDistance c) (maxDistance c) (minFOV c) (maxFOV c)
    (dollySpeed c) (fovSpeed c)
    (JS.hypot (clientX touch2 - clientX touch1) (clientY touch2 - clientY touch1))
    (z (THREE.position (camera c))).

Definition updatePinchZoom (touch1 touch2 : Touch) (c : t) : t :=
  let currentPinchDistance :=
    JS.hypot (clientX touch2 - clientX touch1) (clientY touch2 - clientY touch1) in
  let pinchDelta := initialPinchDistance c - currentPinchDistance in
  let dollyDelta := pinchDelta * CONFIG.INTERACTION.PINCH_ZOOM_SENSITIVITY in
  let newDistance := initialCameraDistance c + dollyDelta in
  withCamera c (setPositionZ (camera c) (_clampDistance c newDistance)).

Definition handleResize (windowAspect : R) (c : t) : t :=
  withCamera c (setAspect (camera c) windowAspect).

Definition getCamera (c : t) : PerspectiveCamera := camera c.

Definition dollyCamera (distance : R) (c : t) : t :=
  withCamera c (setPositionZ (camera c) (_clampDistance c distance)).

(** [amount = null]: [None] is [null] (or a missing argument). *)
Definition dollyCameraIn (amount : option R) (c : t) : t :=
  let delta := match amount with Some a => - a | None => - dollySpeed c end in
  _applyDolly delta c.

Definition dollyCameraOut (amount : option R) (c : t) : t :=
  let delta := match amount with Some a => a | None => dollySpeed c end in
  _applyDolly delta c.

Definition setCameraFOV (fov : R) (c : t) : t :=
  withCamera c (setZoom (camera c) (_clampFOV c fov)).

Definition increaseCameraFOV (amount : option R) (c : t) : t :=
  let delta := match amount with Some a => a | None => fovSpeed c end in
  _applyFOVChange delta c.

Definition decreaseCameraFOV (amount : option R) (c : t) : t :=
  let delta := match amount with Some a => - a | None => - fovSpeed c end in
  _applyFOVChange delta c.

Definition getCameraDistance (c : t) : R := z (THREE.position (camera c)).

Definition getCameraFOV (c : t) : R := zoom (camera c).

(** The operations that the application performs on the camera. *)
Inductive Operation : Type :=
| DollyCamera (distance : R)
| DollyCameraIn (amount : option R)
| DollyCameraOut (amount : option R)
| SetCameraFOV (fov : R)
| IncreaseCameraFOV (amount : option R)
| DecreaseCameraFOV (amount : option R)
| Wheel (deltaY : R) (isShiftPressed : bool)
| PinchStart (touch1 touch2 : Touch)
| PinchMove (touch1 touch2 : Touch)
| Resize (windowAspect : R).

Definition perform (op : Operation) (c : t) : t :=
  match op with
  | DollyCamera d => dollyCamera d c
  | DollyCameraIn a => dollyCameraIn a c
  | DollyCameraOut a => dollyCameraOut a c
  | SetCameraFOV f => setCameraFOV f c
  | IncreaseCameraFOV a => increaseCameraFOV a c
  | DecreaseCameraFOV a => decreaseCameraFOV a c
  | Wheel dy shift => handleWheel dy shift c
  | PinchStart t1 t2 => startPinchZoom t1 t2 c
  | PinchMove t1 t2 => updatePinchZoom t1 t2 c
  | Resize a => handleResize a c
  end.

Definition performAll (ops : list Operation) (c : t) : t :=
  fold_left (fun c op => perform op c) ops c.

End CameraController.

(** ** CameraController.js, with numbers that may be NaN

    [dollyCamera(distance)] and [setCameraFOV(fov)] clamp their argument
    without a check, and the command router passes [command.distance] and
    [command.fov] as the message has them.  Called without the argument they
    store NaN in the camera, and every later step from the stored value keeps
    NaN.  This module is CameraController.js again, with the distance and the
    zoom of the camera as numbers that may be NaN; of the camera it keeps the
    fields that the controller writes. *)

Module CameraNumbers.

Record Camera : Type := mkCamera {
  positionZ : JS.Num;          (* camera.position.z *)
  zoom : JS.Num;               (* camera.zoom *)
  aspect : R
}.

Record t : Type := mkCameraController {
  camera : Camera;
  minDistance : R;
  maxDistance : R;
  minFOV : R;
  maxFOV : R;
  dollySpeed : R;
  fovSpeed : R;
  initialPinchDistance : R;
  initialCameraDistance : JS.Num
}.

Definition withCamera (c : t) (cam : Camera) : t :=
  mkCameraController cam (minDistance c) (maxDistance c) (minFOV c) (maxFOV c)
    (dollySpeed c) (fovSpeed c) (initialPinchDistance c) (initialCameraDistance c).

(** [camera.position.z = v] *)
Definition setPositionZ (cam : Camera) (v : JS.Num) : Camera :=
  mkCamera v (zoom cam) (aspect cam).

(** [camera.zoom = v] *)
Definition setZoom (cam : Camera) (v : JS.Num) : Camera :=
  mkCamera (positionZ cam) v (aspect cam).

Definition setAspect (cam : Camera) (v : R) : Camera :=
  mkCamera (positionZ cam) (zoom cam) v.

Definition constructor (windowAspect : R) : t :=
  let cam := mkCamera (JS.Finite 0) (JS.Finite 1) windowAspect in
  mkCameraController (setPositionZ cam (JS.Finite CONFIG.CAMERA.INITIAL_DISTANCE))
    CONFIG.CAMERA.MIN_DISTANCE CONFIG.CAMERA.MAX_DISTANCE
    CONFIG.CAMERA.FOV_MIN CONFIG.CAMERA.FOV_MAX
    CONFIG.CAMERA.DOLLY_SPEED CONFIG.CAMERA.FOV_SPEED
    0 (JS.Finite CONFIG.CAMERA.INITIAL_DISTANCE).

Definition _clampDistance (c : t) (value : JS.Num) : JS.Num :=
  JS.max (JS.Finite (minDistance c)) (JS.min (JS.Finite (maxDistance c)) value).

Definition _clampFOV (c : t) (value : JS.Num) : JS.Num :=
  JS.max (JS.Finite (minFOV c)) (JS.min (JS.Finite (maxFOV c)) value).

Definition _applyFOVChange (fovDelta : R) (c : t) : t :=
  let newFOV := JS.plus (zoom (camera c)) (JS.Finite fovDelta) in
  withCamera c (setZoom (camera c) (_clampFOV c newFOV)).

Definition _applyDolly (dollyDelta : R) (c : t) : t :=
  let newDistance := JS.plus (positionZ (camera c)) (JS.Finite dollyDelta) in
  withCamera c (setPositionZ (camera c) (_clampDistance c newDistance)).

Definition handleWheel (deltaY : R) (isShiftPressed : bool) (c : t) : t :=
  if isShiftPressed then
    let fovDelta := if Rgt_dec deltaY 0 then - fovSpeed c else fovSpeed c in
    _applyFOVChange fovDelta c
  else
    let dollyDelta := if Rgt_dec deltaY 0 then dollySpeed c else - dollySpeed c in
    _applyDolly dollyDelta c.

Definition startPinchZoom (touch1 touch2 : CameraController.Touch) (c : t) : t :=
  mkCameraController (camera c) (minDistance c) (maxDistance c) (minFOV c) (maxFOV c)
    (dollySpeed c) (fovSpeed c)
    (JS.hypot (CameraController.clientX touch2 - CameraController.clientX touch1)
              (CameraController.clientY touch2 - CameraController.clientY touch1))
    (positionZ (camera c)).

Definition updatePinchZoom (touch1 touch2 : CameraController.Touch) (c : t) : t :=
  let currentPinchDistance :=
    JS.hypot (CameraController.clientX touch2 - CameraController.clientX touch1)
             (CameraController.clientY touch2 - CameraController.clientY touch1) in
  let pinchDelta := initialPinchDistance c - currentPinchDistance in
  let dollyDelta := pinchDelta * CONFIG.INTERACTION.PINCH_ZOOM_SENSITIVITY in
  let newDistance := JS.plus (initialCameraDistance c) (JS.Finite dollyDelta) in
  withCamera c (setPositionZ (camera c) (_clampDistance c newDistance)).

Definition handleResize (windowAspect : R) (c : t) : t :=
  withCamera c (setAspect (camera c) windowAspect).

(** [distance] is a number, or [None] when the method is called without it. *)
Definition dollyCamera (distance : option R) (c : t) : t :=
  withCamera c (setPositionZ (camera c) (_clampDistance c (JS.toNumber distance))).

(** [amount = null]: [None] is [null] (or a missing argument). *)
Definition dollyCameraIn (amount : option R) (c : t) : t :=
  let delta := match amount with Some a => - a | None => - dollySpeed c end in
  _applyDolly delta c.

Definition dollyCameraOut (amount : option R) (c : t) : t :=
  let delta := match amount with Some a => a | None => dollySpeed c end in
  _applyDolly delta c.

(** [fov] is a number, or [None] when the method is called without it. *)
Definition setCameraFOV (fov : option R) (c : t) : t :=
  withCamera c (setZoom (camera c) (_clampFOV c (JS.toNumber fov))).

Definition increaseCameraFOV (amount : option R) (c : t) : t :=
  let delta := match amount with Some a => a | None => fovSpeed c end in
  _applyFOVChange delta c.

Definition decreaseCameraFOV (amount : option R) (c : t) : t :=
  let delta := match amount with Some a => - a | None => - fovSpeed c end in
  _applyFOVChange delta c.

Definition getCameraDistance (c : t) : JS.Num := positionZ (camera c).

Definition getCameraFOV (c : t) : JS.Num := zoom (camera c).

(** The operations that the application performs on the camera. *)
Inductive Operation : Type :=
| DollyCamera (distance : option R)
| DollyCameraIn (amount : option R)
| DollyCameraOut (amount : option R)
| SetCameraFOV (fov : option R)
| IncreaseCameraFOV (amount : option R)
| DecreaseCameraFOV (amount : option R)
| Wheel (deltaY : R) (isShiftPressed : bool)
| PinchStart (touch1 touch2 : CameraController.Touch)
| PinchMove (touch1 touch2 : CameraController.Touch)
| Resize (windowAspect : R).

Definition perform (op : Operation) (c : t) : t :=
  match op with
  | DollyCamera d => dollyCamera d c
  | DollyCameraIn a => dollyCameraIn a c
  | DollyCameraOut a => dollyCameraOut a c
  | SetCameraFOV f => setCameraFOV f c
  | IncreaseCameraFOV a => increaseCameraFOV a c
  | DecreaseCameraFOV a => decreaseCameraFOV a c
  | Wheel dy shift => handleWheel dy shift c
  | PinchStart t1 t2 => startPinchZoom t1 t2 c
  | PinchMove t1 t2 => updatePinchZoom t1 t2 c
  | Resize a => handleResize a c
  end.

Definition performAll (ops : list Operation) (c : t) : t :=
  fold_left (fun c op => perform op c) ops c.

(** The controller of [CameraController], whose numbers are all numbers, and
    an operation on it, as a controller and an operation of this module. *)
Definition ofController (c : CameraController.t) : t :=
  mkCameraController
    (mkCamera (JS.Finite (z (THREE.position (CameraController.camera c))))
              (JS.Finite (THREE.zoom (CameraController.camera c)))
              (THREE.aspect (CameraController.camera c)))
    (CameraController.minDistance c) (CameraController.maxDistance c)
    (CameraController.minFOV c) (CameraController.maxFOV c)
    (CameraController.dollySpeed c) (CameraController.fovSpeed c)
    (CameraController.initialPinchDistance c)
    (JS.Finite (CameraController.initialCameraDistance c)).

Definition ofOperation (op : CameraController.Operation) : Operation :=
  match op with
  | CameraController.DollyCamera d => DollyCamera (Some d)
  | CameraController.DollyCameraIn a => DollyCameraIn a
  | CameraController.DollyCameraOut a => DollyCameraOut a
  | CameraController.SetCameraFOV f => SetCameraFOV (Some f)
  | CameraController.IncreaseCameraFOV a => IncreaseCameraFOV a
  | CameraController.DecreaseCameraFOV a => DecreaseCameraFOV a
  | CameraController.Wheel dy shift => Wheel dy shift
  | CameraController.PinchStart t1 t2 => PinchStart t1 t2
  | CameraController.PinchMove t1 t2 => PinchMove t1 t2
  | CameraController.Resize a => Resize a
  end.

End CameraNumbers.

(** ** InteractionModeManager.js *)

Module InteractionModeManager.

Definition MODEL_ROTATION : string := "MODEL_ROTATION".
Definition AREA_LIGHT_MANIPULATION : string := "AREA_LIGHT_MANIPULATION".

Record t : Type := mkManager { currentMode : string }.

Definition constructor : t := mkManager MODEL_ROTATION.

(** [setMode] returns the manager and whether it warned on the console. *)
Definition setMode (mode : string) (m : t) : t * bool :=
  if (String.eqb mode MODEL_ROTATION || String.eqb mode AREA_LIGHT_MANIPULATION)%bool
  then (mkManager mode, false)
  else (m, true).

Definition getCurrentMode (m : t) : string := currentMode m.

Definition isModelRotationMode (m : t) : bool := String.eqb (currentMode m) MODEL_ROTATION.

Definition isAreaLightMode (m : t) : bool :=
  String.eqb (currentMode m) AREA_LIGHT_MANIPULATION.

End InteractionModeManager.

(** ** RayPicker.js

    The ray caster itself belongs to three.js; the picker keeps the pointer
    position in normalized device coordinates and the hovered object. *)

Module RayPicker.

Record Vector2 : Type := vec2 { vx : R; vy : R }.

Record t : Type := mkRayPicker {
  mouse : Vector2;
  hoveredObject : option AreaLight.ObjectRef
}.

Definition constructor : t := mkRayPicker (vec2 0 0) None.

Definition updateMousePosition (sx sy width height : R) (p : t) : t :=
  mkRayPicker (vec2 (sx / width * 2 - 1) (- (sy / height) * 2 + 1)) (hoveredObject p).

Definition getHoveredObject (p : t) : option AreaLight.ObjectRef := hoveredObject p.

Definition setHoveredObject (o : option AreaLight.ObjectRef) (p : t) : t :=
  mkRayPicker (mouse p) o.

End RayPicker.

(** ** SceneManager.js (with Model.js) *)

Module SceneManager.
Section WithHost.
Context {host : Host}.

(** Which of the two lights of the scene manager a reference points to. *)
Inductive LightRole : Type := KeyLight | FillLight.

(** The loaded model: the colour of its material and the scale of its mesh. *)
Record Model : Type := mkModel {
  materialColor : Color host;
  scale : Vector3
}.

Record Scene : Type := mkScene { background : option (Color host) }.

(** The scene manager and the camera controller hold the same camera object:
    a write to the camera through the controller is written to [camera] too. *)
Record t : Type := mkSceneManager {
  camera : option PerspectiveCamera;
  scene : option Scene;
  renderer : option unit;
  model : option Model;
  keyLight : option (AreaLight.t host);
  fillLight : option (AreaLight.t host);
  rotationController : option (RotationController host);
  cameraController : option CameraController.t;   (* [undefined] until set *)
  frames : nat                                    (* calls of [renderer.render] *)
}.

Definition constructor (camera : option PerspectiveCamera) : t :=
  mkSceneManager camera None None None None None None None 0.

Definition setScene (s : option Scene) (sm : t) : t :=
  mkSceneManager (camera sm) s (renderer sm) (model sm) (keyLight sm) (fillLight sm)
    (rotationController sm) (cameraController sm) (frames sm).

Definition setRenderer (r : option unit) (sm : t) : t :=
  mkSceneManager (camera sm) (scene sm) r (model sm) (keyLight sm) (fillLight sm)
    (rotationController sm) (cameraController sm) (frames sm).

Definition setModel (m : option Model) (sm : t) : t :=
  mkSceneManager (camera sm) (scene sm) (renderer sm) m (keyLight sm) (fillLight sm)
    (rotationController sm) (cameraController sm) (frames sm).

Definition getLight (role : LightRole) (sm : t) : option (AreaLight.t host) :=
  match role with
  | KeyLight => keyLight sm
  | FillLight => fillLight sm
  end.

Definition setLight (role : LightRole) (l : option (AreaLight.t host)) (sm : t) : t :=
  match role with
  | KeyLight =>
      mkSceneManager (camera sm) (scene sm) (renderer sm) (model sm) l (fillLight sm)
        (rotationController sm) (cameraController sm) (frames sm)
  | FillLight =>
      mkSceneManager (camera sm) (scene sm) (renderer sm) (model sm) (keyLight sm) l
        (rotationController sm) (cameraController sm) (frames sm)
  end.

Definition setRotationControllerField (rc : option (RotationController host)) (sm : t) : t :=
  mkSceneManager (camera sm) (scene sm) (renderer sm) (model sm) (keyLight sm)
    (fillLight sm) rc (cameraController sm) (frames sm).

(** A write to the controller, and through it to the shared camera. *)
Definition setCameraControllerField (c : CameraController.t) (sm : t) : t :=
  mkSceneManager
    (match camera sm with
     | Some _ => Some (CameraController.camera c)
     | None => None
     end)
    (scene sm) (renderer sm) (model sm) (keyLight sm) (fillLight sm)
    (rotationController sm) (Some c) (frames sm).

Definition roleName (role : LightRole) : string :=
  match role with
  | KeyLight => "key"
  | FillLight => "fill"
  end.

Definition roleConfig (role : LightRole) : CONFIG.LightConfig :=
  match role with
  | KeyLight => CONFIG.LIGHTING.KEY_LIGHT
  | FillLight => CONFIG.LIGHTING.FILL_LIGHT
  end.

(** One light of [_createLights]: the light, its helper and its overlay. *)
Definition createLight (role : LightRole) (sm : t) : Outcome t :=
  let l := AreaLight.setHelper (AreaLight.constructor (roleName role)) in
  inField (AreaLight.createHighlightOverlay l) (fun l' => setLight role (Some l') sm).

(** [initialize], for a model file that loads. *)
Definition initialize (sm : t) : Outcome t :=
  let sm := setScene (Some (mkScene None)) sm in
  let sm := setRenderer (Some tt) sm in
  let size := CONFIG.MODEL.SIZE in
  let sm := setModel (Some (mkModel (getAppleCrayonColorByName host "snow")
                              (vec3 size size size))) sm in
  andThen (createLight KeyLight sm) (createLight FillLight).

Definition render (sm : t) : Outcome t :=
  match renderer sm with
  | Some _ =>
      Done (mkSceneManager (camera sm) (scene sm) (renderer sm) (model sm) (keyLight sm)
              (fillLight sm) (rotationController sm) (cameraController sm) (S (frames sm)))
  | None => Thrown (TypeError "renderer") sm
  end.

(** *** Camera control methods *)

(** [if (this.camera) { this.cameraController.f(...) }] *)
Definition onCameraController (f : CameraController.t -> CameraController.t) (sm : t)
  : Outcome t :=
  match camera sm with
  | Some _ =>
      match cameraController sm with
      | Some c => Done (setCameraControllerField (f c) sm)
      | None => Thrown (TypeError "cameraController") sm
      end
  | None => Done sm
  end.

Definition dollyCamera (distance : R) (sm : t) : Outcome t :=
  onCameraController (CameraController.dollyCamera distance) sm.

Definition dollyCameraIn (amount : option R) (sm : t) : Outcome t :=
  onCameraController (CameraController.dollyCameraIn amount) sm.

Definition dollyCameraOut (amount : option R) (sm : t) : Outcome t :=
  onCameraController (CameraController.dollyCameraOut amount) sm.

Definition setCameraFOV (fov : R) (sm : t) : Outcome t :=
  onCameraController (CameraController.setCameraFOV fov) sm.

Definition increaseCameraFOV (amount : option R) (sm : t) : Outcome t :=
  onCameraController (CameraController.increaseCameraFOV amount) sm.

Definition decreaseCameraFOV (amount : option R) (sm : t) : Outcome t :=
  onCameraController (CameraController.decreaseCameraFOV amount) sm.

Definition getCameraDistance (sm : t) : Result R :=
  match camera sm with
  | Some _ =>
      match cameraController sm with
      | Some c => Ok (CameraController.getCameraDistance c)
      | None => Throw (TypeError "cameraController")
      end
  | None => Ok 0
  end.

Definition getCameraFOV (sm : t) : Result R :=
  match camera sm with
  | Some _ =>
      match cameraController sm with
      | Some c => Ok (CameraController.getCameraFOV c)
      | None => Throw (TypeError "cameraController")
      end
  | None => Ok 0
  end.

Definition setCameraController (c : CameraController.t) (sm : t) : t :=
  setCameraControllerField c sm.

Definition setRotationController (rc : RotationController host) (sm : t) : t :=
  setRotationControllerField (Some rc) sm.

(** *** Model methods *)

Definition getModelRotation (sm : t) : Vector3 :=
  match rotationController sm with
  | Some rc => rc_getRotationEuler host rc
  | None => vec3 0 0 0
  end.

(** [s.padStart(6, '0')] *)
Definition padStart6 (s : string) : string :=
  String.append (string_of_list_ascii (repeat "0"%char (6 - String.length s))) s.

Definition hexCode (c : Color host) : string :=
  String.append "#" (padStart6 (Color_getHexString host c)).

Definition getModelColor (sm : t) : string :=
  match model sm with
  | Some m => hexCode (materialColor m)
  | None => "#808080"
  end.

Definition getModelScale (sm : t) : Vector3 :=
  match model sm with
  | Some m => scale m
  | None => vec3 1 1 1
  end.

(** [if (this.rotationController) { f; this.render(this.camera) }] *)
Definition onRotationController
    (f : RotationController host -> RotationController host) (sm : t) : Outcome t :=
  match rotationController sm with
  | Some rc => render (setRotationControllerField (Some (f rc)) sm)
  | None => Done sm
  end.

Definition setModelRotation (rx ry rz : R) (sm : t) : Outcome t :=
  onRotationController (rc_setRotationEuler host rx ry rz) sm.

Definition rotateModelClockwise (degrees : option R) (sm : t) : Outcome t :=
  onRotationController (rc_rotateClockwise host (orDefault 10 degrees)) sm.

Definition rotateModelCounterclockwise (degrees : option R) (sm : t) : Outcome t :=
  onRotationController (rc_rotateCounterclockwise host (orDefault 10 degrees)) sm.

Definition nudgeModelPitchUp (degrees : option R) (sm : t) : Outcome t :=
  onRotationController (rc_nudgePitchUp host (orDefault 5 degrees)) sm.

Definition nudgeModelPitchDown (degrees : option R) (sm : t) : Outcome t :=
  onRotationController (rc_nudgePitchDown host (orDefault 5 degrees)) sm.

Definition nudgeModelRoll (degrees : option R) (sm : t) : Outcome t :=
  onRotationController (rc_nudgeRoll host (orDefault 5 degrees)) sm.

(** [s.replace('#', '')]: the first occurrence only. *)
Fixpoint removeFirstHash (s : string) : string :=
  match s with
  | EmptyString => EmptyString
  | String c s' => if Ascii.eqb c "#" then s' else String c (removeFirstHash s')
  end.

(** [parseInt(color.replace('#', ''), 16)]; a colour that is no string has no
    [replace] method. *)
Definition parseColor (color : JS.Value) : Result (option R) :=
  match color with
  | JS.Str s => Ok (parseInt host (removeFirstHash s) 16)
  | _ => Throw (TypeError "color.replace")
  end.

Definition changeModelColor (color : JS.Value) (sm : t) : Outcome t :=
  match parseColor color with
  | Throw e => Thrown e sm
  | Ok hexColor =>
      match model sm with
      | Some m => Done (setModel (Some (mkModel (Color_ofHex host hexColor) (scale m))) sm)
      | None => Thrown (TypeError "model") sm
      end
  end.

Definition changeModelSize (size : R) (sm : t) : Outcome t :=
  match model sm with
  | Some m => Done (setModel (Some (mkModel (materialColor m) (vec3 size size size))) sm)
  | None => Thrown (TypeError "model") sm
  end.

Definition scaleModel (sx sy sz : R) (sm : t) : Outcome t :=
  match model sm with
  | Some m => Done (setModel (Some (mkModel (materialColor m) (vec3 sx sy sz))) sm)
  | None => Thrown (TypeError "model") sm
  end.

Definition changeBackgroundColor (color : JS.Value) (sm : t) : Outcome t :=
  match parseColor color with
  | Throw e => Thrown e sm
  | Ok hexColor =>
      match scene sm with
      | Some _ => Done (setScene (Some (mkScene (Some (Color_ofHex host hexColor)))) sm)
      | None => Thrown (TypeError "scene") sm
      end
  end.

Definition getBackgroundColor (sm : t) : string :=
  match scene sm with
  | Some (mkScene (Some c)) => hexCode c
  | _ => "#000000"
  end.

(** *** Light methods; the key and the fill methods differ in the light only *)

(** [if (this.light) { this.light.getLightObject().field = ... }] *)
Definition onLightObject (role : LightRole)
    (f : AreaLight.RectAreaLight host -> AreaLight.RectAreaLight host) (sm : t)
  : Outcome t :=
  match getLight role sm with
  | Some l =>
      match AreaLight.areaLight l with
      | Some light => Done (setLight role (Some (AreaLight.withAreaLight l (f light))) sm)
      | None => Thrown (TypeError "getLightObject") sm
      end
  | None => Done sm
  end.

(** [if (this.light) { this.light.f(...) }] *)
Definition onLight (role : LightRole)
    (f : AreaLight.t host -> Outcome (AreaLight.t host)) (sm : t) : Outcome t :=
  match getLight role sm with
  | Some l => inField (f l) (fun l' => setLight role (Some l') sm)
  | None => Done sm
  end.

(** [if (this.light && this.camera) { this.light.f(..., this.camera) }] *)
Definition onLightWithCamera (role : LightRole)
    (f : option PerspectiveCamera -> AreaLight.t host -> Outcome (AreaLight.t host))
    (sm : t) : Outcome t :=
  match getLight role sm, camera sm with
  | Some l, Some cam => inField (f (Some cam) l) (fun l' => setLight role (Some l') sm)
  | _, _ => Done sm
  end.

Definition setLightIntensity (role : LightRole) (intensity : R) (sm : t) : Outcome t :=
  onLightObject role
    (fun light =>
       AreaLight.mkRectAreaLight (AreaLight.position light) (AreaLight.orientation light)
         intensity (AreaLight.color light) (AreaLight.width light) (AreaLight.height light))
    sm.

Definition setLightPosition (role : LightRole) (px py pz : R) (sm : t) : Outcome t :=
  match getLight role sm with
  | Some l =>
      let origin := CONFIG.MODEL.ORIGIN in
      let relativeX := px - x origin in
      let relativeY := py - y origin in
      let relativeZ := pz - z origin in
      match AreaLight.areaLight l with
      | Some light =>
          let tgt := orDefault (vec3 0 0 0) (CONFIG.TARGET (roleConfig role)) in
          Done (setLight role
                  (Some (AreaLight.withAreaLight l
                           (AreaLight.lookAt (AreaLight.parentGroup l)
                              (AreaLight.setPosition light
                                 (vec3 relativeX relativeY relativeZ)) tgt))) sm)
      | None => Thrown (TypeError "getLightObject") sm
      end
  | None => Done sm
  end.

Definition setLightColor (role : LightRole) (color : JS.Value) (sm : t) : Outcome t :=
  match getLight role sm with
  | Some l =>
      match parseColor color with
      | Throw e => Thrown e sm
      | Ok hexColor =>
          andThen
            (onLightObject role
               (fun light =>
                  AreaLight.mkRectAreaLight (AreaLight.position light)
                    (AreaLight.orientation light) (AreaLight.intensity light)
                    (Color_ofHex host hexColor) (AreaLight.width light)
                    (AreaLight.height light)) sm)
            (onLight role AreaLight.updateHighlightColor)
      end
  | None => Done sm
  end.

Definition setLightSize (role : LightRole) (width height : R) (sm : t) : Outcome t :=
  onLightObject role
    (fun light =>
       AreaLight.mkRectAreaLight (AreaLight.position light) (AreaLight.orientation light)
         (AreaLight.intensity light) (AreaLight.color light) width height)
    sm.

Definition setLightPositionSpherical (role : LightRole) (azimuth : JS.Value)
    (elevation : R) (sm : t) : Outcome t :=
  onLightWithCamera role (AreaLight.setPositionSpherical azimuth elevation) sm.

Definition getLightPositionSpherical (role : LightRole) (sm : t)
  : CoordinateSystem.Spherical :=
  match getLight role sm, camera sm with
  | Some l, Some cam => AreaLight.getPositionSpherical (Some cam) l
  | _, _ => CoordinateSystem.mkSpherical 0 0 0
  end.

Definition getLightIntensity (role : LightRole) (sm : t) : Result R :=
  match getLight role sm with
  | Some l =>
      match AreaLight.areaLight l with
      | Some light => Ok (AreaLight.intensity light)
      | None => Throw (TypeError "getLightObject")
      end
  | None => Ok 0
  end.

Definition getLightColor (role : LightRole) (sm : t) : Result string :=
  match getLight role sm with
  | Some l =>
      match AreaLight.areaLight l with
      | Some light => Ok (hexCode (AreaLight.color light))
      | None => Throw (TypeError "getLightObject")
      end
  | None => Ok "#ffffff"%string
  end.

(** [{ width, height }] *)
Definition getLightSize (role : LightRole) (sm : t) : Result (R * R) :=
  match getLight role sm with
  | Some l =>
      match AreaLight.areaLight l with
      | Some light => Ok (AreaLight.width light, AreaLight.height light)
      | None => Throw (TypeError "getLightObject")
      end
  | None => Ok (1, 1)
  end.

Definition rotateLightClockwise (role : LightRole) (degrees : option R) (sm : t)
  : Outcome t :=
  onLightWithCamera role (AreaLight.rotateClockwise (Some (orDefault 10 degrees))) sm.

Definition rotateLightCounterclockwise (role : LightRole) (degrees : option R) (sm : t)
  : Outcome t :=
  onLightWithCamera role (AreaLight.rotateCounterclockwise (Some (orDefault 10 degrees))) sm.

Definition nudgeLightElevationUp (role : LightRole) (degrees : option R) (sm : t)
  : Outcome t :=
  onLightWithCamera role (AreaLight.nudgeElevationUp (Some (orDefault 5 degrees))) sm.

Definition nudgeLightElevationDown (role : LightRole) (degrees : option R) (sm : t)
  : Outcome t :=
  onLightWithCamera role (AreaLight.nudgeElevationDown (Some (orDefault 5 degrees))) sm.

Definition moveLightTowardDirection (role : LightRole) (targetDirection : JS.Value)
    (degrees : option R) (sm : t) : Outcome t :=
  onLightWithCamera role
    (AreaLight.moveTowardDirection targetDirection (Some (orDefault 10 degrees))) sm.

Definition setLightDistance (role : LightRole) (distance : R) (sm : t) : Outcome t :=
  onLightWithCamera role (AreaLight.setDistance distance) sm.

Definition swingAmountRadians : R := degToRad CONFIG.INTERACTION.AREA_LIGHT_SWING_AMOUNT.

Definition swingLightUp (role : LightRole) (sm : t) : Outcome t :=
  onLight role (AreaLight.rotate 0 (- swingAmountRadians)) sm.

Definition swingLightDown (role : LightRole) (sm : t) : Outcome t :=
  onLight role (AreaLight.rotate 0 swingAmountRadians) sm.

Definition swingLightLeft (role : LightRole) (sm : t) : Outcome t :=
  onLight role (AreaLight.rotate (- swingAmountRadians) 0) sm.

Definition swingLightRight (role : LightRole) (sm : t) : Outcome t :=
  onLight role (AreaLight.rotate swingAmountRadians 0) sm.

Definition walkLightIn (role : LightRole) (sm : t) : Outcome t :=
  onLight role
    (fun l => Done (AreaLight.dolly (- CONFIG.INTERACTION.AREA_LIGHT_WALK_AMOUNT) l)) sm.

Definition walkLightOut (role : LightRole) (sm : t) : Outcome t :=
  onLight role
    (fun l => Done (AreaLight.dolly CONFIG.INTERACTION.AREA_LIGHT_WALK_AMOUNT l)) sm.

(** The picker meshes of the lights that have one. *)
Definition getAreaLightHelpers (sm : t) : list AreaLight.ObjectRef :=
  let pickerOf (l : option (AreaLight.t host)) :=
    match l with
    | Some l' =>
        match AreaLight.getPickerGeometry l' with
        | Some p => [p]
        | None => []
        end
    | None => []
    end in
  pickerOf (keyLight sm) ++ pickerOf (fillLight sm).

(** The lights that exist, the key light first. *)
Definition getAreaLights (sm : t) : list LightRole :=
  (match keyLight sm with Some _ => [KeyLight] | None => [] end) ++
  (match fillLight sm with Some _ => [FillLight] | None => [] end).

(** An intersection of the ray caster: the object that was hit. *)
Record Intersection : Type := mkIntersection { object : option AreaLight.ObjectRef }.

Definition objectRef_eqb (a b : AreaLight.ObjectRef) : bool :=
  match a, b with
  | AreaLight.PickerOf o1, AreaLight.PickerOf o2 => String.eqb o1 o2
  | AreaLight.OtherObject n1, AreaLight.OtherObject n2 => Nat.eqb n1 n2
  | _, _ => false
  end.

(** [light && intersectedObject === light.getPickerGeometry()] *)
Definition isPickerOf (l : option (AreaLight.t host)) (o : AreaLight.ObjectRef) : bool :=
  match l with
  | Some l' =>
      match AreaLight.getPickerGeometry l' with
      | Some p => objectRef_eqb o p
      | None => false
      end
  | None => false
  end.

Definition getHoveredAreaLight (intersection : option Intersection) (sm : t)
  : option LightRole :=
  match intersection with
  | Some (mkIntersection (Some intersectedObject)) =>
      if isPickerOf (keyLight sm) intersectedObject then Some KeyLight
      else if isPickerOf (fillLight sm) intersectedObject then Some FillLight
      else None
  | _ => None
  end.

End WithHost.
Arguments t : clear implicits.
Arguments Model : clear implicits.
Arguments Scene : clear implicits.
End SceneManager.

(** ** Application.js *)

Module Application.
Import SceneManager.
Section WithHost.
Context {host : Host}.

(** A command received from the socket.  Every field a handler reads is
    present; the numeric fields without a default value hold numbers.  (What
    the camera controller does when [distance] or [fov] is missing is the
    subject of [CameraNumbers].) *)
Record Command : Type := mkCommand {
  type : JS.Value;
  toolName : JS.Value;
  color : JS.Value;
  size : R;
  cx : R;
  cy : R;
  cz : R;
  intensity : R;
  azimuth : JS.Value;
  elevation : R;
  degrees : option R;
  direction : JS.Value;
  distance : R;
  amount : option R;
  fov : R
}.

Inductive Logged : Type :=
| LString (s : string)
| LNumber (r : R)
| LVector (v : Vector3)
| LSpherical (s : CoordinateSystem.Spherical)
| LSize (width height : R)
| LValue (v : JS.Value).

Inductive ConsoleEntry : Type :=
| ConsoleLog (label : string) (value : Logged)
| ConsoleWarn (label : string) (value : Logged).

Record LightState : Type := mkLightState {
  ls_intensity : R;
  ls_color : string;
  ls_position : CoordinateSystem.Spherical;
  ls_size : R * R
}.

(** The snapshot of [getSceneState]. *)
Record SceneState : Type := mkSceneState {
  st_modelColor : string;
  st_modelScale : Vector3;
  st_modelRotation : Vector3;
  st_background : string;
  st_keyLight : LightState;
  st_fillLight : LightState;
  st_cameraDistance : R;
  st_cameraFov : R
}.

(** Modelled from the spec: the socket client (WebSocketClient.js is not among
    the sources).  A state update is the message type stateUpdate with the
    snapshot; [sent] lists the updates sent, latest first. *)
Record WebSocketClient : Type := mkWebSocketClient {
  connected : bool;
  sent : list SceneState
}.

Definition isConnected (ws : WebSocketClient) : bool := connected ws.

Definition sendStateUpdate (state : SceneState) (ws : WebSocketClient) : WebSocketClient :=
  mkWebSocketClient (connected ws) (state :: sent ws).

(** The application.  Its camera and rotation controllers are the objects
    that the scene manager holds. *)
Record t : Type := mkApplication {
  sceneManager : SceneManager.t host;
  interactionModeManager : InteractionModeManager.t;
  currentHoveredAreaLight : option SceneManager.LightRole;
  isAreaLightDragging : bool;
  wsClient : option WebSocketClient;
  console : list ConsoleEntry;             (* latest first *)
  toolNotification : option string         (* the label of the visible notification *)
}.

Definition withSceneManager (app : t) (sm : SceneManager.t host) : t :=
  mkApplication sm (interactionModeManager app) (currentHoveredAreaLight app)
    (isAreaLightDragging app) (wsClient app) (console app) (toolNotification app).

Definition withConsole (app : t) (entry : ConsoleEntry) : t :=
  mkApplication (sceneManager app) (interactionModeManager app)
    (currentHoveredAreaLight app) (isAreaLightDragging app) (wsClient app)
    (entry :: console app) (toolNotification app).

Definition withWsClient (app : t) (ws : option WebSocketClient) : t :=
  mkApplication (sceneManager app) (interactionModeManager app)
    (currentHoveredAreaLight app) (isAreaLightDragging app) ws
    (console app) (toolNotification app).

Definition withToolNotification (app : t) (label : option string) : t :=
  mkApplication (sceneManager app) (interactionModeManager app)
    (currentHoveredAreaLight app) (isAreaLightDragging app) (wsClient app)
    (console app) label.

Definition withHover (app : t) (m : InteractionModeManager.t)
    (hovered : option SceneManager.LightRole) : t :=
  mkApplication (sceneManager app) m hovered (isAreaLightDragging app) (wsClient app)
    (console app) (toolNotification app).

(** A handler that calls one mutating method of the scene manager. *)
Definition callScene (f : SceneManager.t host -> Outcome (SceneManager.t host)) (app : t)
  : Outcome t :=
  inField (f (sceneManager app)) (withSceneManager app).

(** A handler that reads a value and logs it. *)
Definition logValue (label : string) (v : Logged) (app : t) : Outcome t :=
  Done (withConsole app (ConsoleLog label v)).

Definition logResult {A : Type} (label : string) (r : Result A) (wrap : A -> Logged)
    (app : t) : Outcome t :=
  match r with
  | Ok v => logValue label (wrap v) app
  | Throw e => Thrown e app
  end.

(** String.prototype.toUpperCase on one byte *)
Definition upperAscii (c : ascii) : ascii :=
  let n := nat_of_ascii c in
  if (Nat.leb 97 n && Nat.leb n 122)%bool then ascii_of_nat (n - 32) else c.

(** [toolName.split('_').map(capitalise).join(' ')] *)
Fixpoint formatToolName (startOfWord : bool) (s : string) : string :=
  match s with
  | EmptyString => EmptyString
  | String c s' =>
      if Ascii.eqb c "_" then String " " (formatToolName true s')
      else String (if startOfWord then upperAscii c else c) (formatToolName false s')
  end.

Definition _showToolNotification (toolName : JS.Value) (app : t) : Outcome t :=
  match toolName with
  | JS.Str s => Done (withToolNotification app (Some (formatToolName true s)))
  | _ => Thrown (TypeError "toolName.split") app
  end.

Definition Handler : Type := Command -> t -> Outcome t.

(** [_initCommandHandlers]: the Map of handlers, in insertion order. *)
Definition commandHandlers : list (string * Handler) :=
  [ ("toolCall", fun c => _showToolNotification (toolName c));
    ("changeColor", fun c => callScene (changeModelColor (color c)));
    ("changeSize", fun c => callScene (changeModelSize (size c)));
    ("scaleModel", fun c => callScene (scaleModel (cx c) (cy c) (cz c)));
    ("changeBackgroundColor", fun c => callScene (changeBackgroundColor (color c)));
    ("getBackgroundColor", fun c app =>
       logValue "Background color:" (LString (getBackgroundColor (sceneManager app))) app);
    ("setKeyLightIntensity", fun c => callScene (setLightIntensity KeyLight (intensity c)));
    ("setKeyLightColor", fun c => callScene (setLightColor KeyLight (color c)));
    ("swingKeyLightUp", fun c => callScene (swingLightUp KeyLight));
    ("swingKeyLightDown", fun c => callScene (swingLightDown KeyLight));
    ("swingKeyLightLeft", fun c => callScene (swingLightLeft KeyLight));
    ("swingKeyLightRight", fun c => callScene (swingLightRight KeyLight));
    ("walkKeyLightIn", fun c => callScene (walkLightIn KeyLight));
    ("walkKeyLightOut", fun c => callScene (walkLightOut KeyLight));
    ("setKeyLightPositionSpherical", fun c =>
       callScene (setLightPositionSpherical KeyLight (azimuth c) (elevation c)));
    ("getKeyLightPositionSpherical", fun c app =>
       logValue "Key light position (spherical):"
         (LSpherical (getLightPositionSpherical KeyLight (sceneManager app))) app);
    ("getKeyLightIntensity", fun c app =>
       logResult "Key light intensity:" (getLightIntensity KeyLight (sceneManager app))
         LNumber app);
    ("getKeyLightColor", fun c app =>
       logResult "Key light color:" (getLightColor KeyLight (sceneManager app))
         LString app);
    ("getKeyLightSize", fun c app =>
       logResult "Key light size:" (getLightSize KeyLight (sceneManager app))
         (fun wh => LSize (fst wh) (snd wh)) app);
    ("setFillLightIntensity", fun c => callScene (setLightIntensity FillLight (intensity c)));
    ("setFillLightColor", fun c => callScene (setLightColor FillLight (color c)));
    ("swingFillLightUp", fun c => callScene (swingLightUp FillLight));
    ("swingFillLightDown", fun c => callScene (swingLightDown FillLight));
    ("swingFillLightLeft", fun c => callScene (swingLightLeft FillLight));
    ("swingFillLightRight", fun c => callScene (swingLightRight FillLight));
    ("walkFillLightIn", fun c => callScene (walkLightIn FillLight));
    ("walkFillLightOut", fun c => callScene (walkLightOut FillLight));
    ("setFillLightPositionSpherical", fun c =>
       callScene (setLightPositionSpherical FillLight (azimuth c) (elevation c)));
    ("getFillLightPositionSpherical", fun c app =>
       logValue "Fill light position (spherical):"
         (LSpherical (getLightPositionSpherical FillLight (sceneManager app))) app);
    ("getFillLightIntensity", fun c app =>
       logResult "Fill light intensity:" (getLightIntensity FillLight (sceneManager app))
         LNumber app);
    ("getFillLightColor", fun c app =>
       logResult "Fill light color:" (getLightColor FillLight (sceneManager app))
         LString app);
    ("getFillLightSize", fun c app =>
       logResult "Fill light size:" (getLightSize FillLight (sceneManager app))
         (fun wh => LSize (fst wh) (snd wh)) app);
    ("dollyCamera", fun c => callScene (dollyCamera (distance c)));
    ("dollyCameraIn", fun c => callScene (dollyCameraIn (amount c)));
    ("dollyCameraOut", fun c => callScene (dollyCameraOut (amount c)));
    ("setCameraFOV", fun c => callScene (setCameraFOV (fov c)));
    ("increaseCameraFOV", fun c => callScene (increaseCameraFOV (amount c)));
    ("decreaseCameraFOV", fun c => callScene (decreaseCameraFOV (amount c)));
    ("getCameraDistance", fun c app =>
       logResult "Camera distance:" (getCameraDistance (sceneManager app)) LNumber app);
    ("getCameraFOV", fun c app =>
       logResult "Camera FOV:" (getCameraFOV (sceneManager app)) LNumber app);
    ("getModelRotation", fun c app =>
       logValue "Model rotation (Euler angles):"
         (LVector (getModelRotation (sceneManager app))) app);
    ("getModelColor", fun c app =>
       logValue "Model color:" (LString (getModelColor (sceneManager app))) app);
    ("getModelScale", fun c app =>
       logValue "Model scale:" (LVector (getModelScale (sceneManager app))) app);
    ("setModelRotation", fun c => callScene (setModelRotation (cx c) (cy c) (cz c)));
    ("rotateModelClockwise", fun c => callScene (rotateModelClockwise (degrees c)));
    ("rotateModelCounterclockwise", fun c =>
       callScene (rotateModelCounterclockwise (degrees c)));
    ("nudgeModelPitchUp", fun c => callScene (nudgeModelPitchUp (degrees c)));
    ("nudgeModelPitchDown", fun c => callScene (nudgeModelPitchDown (degrees c)));
    ("nudgeModelRoll", fun c => callScene (nudgeModelRoll (degrees c)));
    ("rotateKeyLightClockwise", fun c =>
       callScene (rotateLightClockwise KeyLight (degrees c)));
    ("rotateKeyLightCounterclockwise", fun c =>
       callScene (rotateLightCounterclockwise KeyLight (degrees c)));
    ("nudgeKeyLightElevationUp", fun c =>
       callScene (nudgeLightElevationUp KeyLight (degrees c)));
    ("nudgeKeyLightElevationDown", fun c =>
       callScene (nudgeLightElevationDown KeyLight (degrees c)));
    ("moveKeyLightTowardDirection", fun c =>
       callScene (moveLightTowardDirection KeyLight (direction c) (degrees c)));
    ("rotateFillLightClockwise", fun c =>
       callScene (rotateLightClockwise FillLight (degrees c)));
    ("rotateFillLightCounterclockwise", fun c =>
       callScene (rotateLightCounterclockwise FillLight (degrees c)));
    ("nudgeFillLightElevationUp", fun c =>
       callScene (nudgeLightElevationUp FillLight (degrees c)));
    ("nudgeFillLightElevationDown", fun c =>
       callScene (nudgeLightElevationDown FillLight (degrees c)));
    ("moveFillLightTowardDirection", fun c =>
       callScene (moveLightTowardDirection FillLight (direction c) (degrees c)));
    ("setKeyLightDistance", fun c => callScene (setLightDistance KeyLight (distance c)));
    ("setFillLightDistance", fun c => callScene (setLightDistance FillLight (distance c)))
  ]%string.

Definition lightState (role : LightRole) (sm : SceneManager.t host) : Result LightState :=
  let* i := getLightIntensity role sm in
  let* c := getLightColor role sm in
  let* s := getLightSize role sm in
  Ok (mkLightState i c (getLightPositionSpherical role sm) s).

Definition getSceneState (app : t) : Result SceneState :=
  let sm := sceneManager app in
  let* k := lightState KeyLight sm in
  let* f := lightState FillLight sm in
  let* d := getCameraDistance sm in
  let* v := getCameraFOV sm in
  Ok (mkSceneState (getModelColor sm) (getModelScale sm) (getModelRotation sm)
        (getBackgroundColor sm) k f d v).

Definition _sendStateUpdate (app : t) : Outcome t :=
  match wsClient app with
  | Some ws =>
      if isConnected ws then
        match getSceneState app with
        | Ok state => Done (withWsClient app (Some (sendStateUpdate state ws)))
        | Throw e => Thrown e app
        end
      else Done app
  | None => Done app
  end.

Definition _handleWebSocketCommand (command : Command) (app : t) : Outcome t :=
  match type command with
  | JS.Str ty =>
      let isGetterCommand := JS.startsWith "get" ty in
      let isToolCallNotification := String.eqb ty "toolCall" in
      match CoordinateSystem.mapGet commandHandlers ty with
      | Some handler =>
          andThen (handler command app)
            (fun app' =>
               if (negb isGetterCommand && negb isToolCallNotification)%bool
               then _sendStateUpdate app'
               else Done app')
      | None =>
          Done (withConsole app (ConsoleWarn "Unknown command type:" (LValue (type command))))
      end
  | _ => Thrown (TypeError "command.type.startsWith") app
  end.

(** [this.currentHoveredAreaLight.setHighlighted(h)] on the light that the
    reference points to. *)
Definition setHighlighted (role : LightRole) (highlighted : bool) (sm : SceneManager.t host)
  : Outcome (SceneManager.t host) :=
  match getLight role sm with
  | Some l => Done (setLight role (Some (AreaLight.setHighlighted highlighted l)) sm)
  | None => Thrown (TypeError "setHighlighted") sm
  end.

Definition role_eqb (a b : option LightRole) : bool :=
  match a, b with
  | None, None => true
  | Some KeyLight, Some KeyLight => true
  | Some FillLight, Some FillLight => true
  | _, _ => false
  end.

Definition setMode (mode : string) (app : t) (hovered : option LightRole) : t :=
  let (m, warned) := InteractionModeManager.setMode mode (interactionModeManager app) in
  let app := withHover app m hovered in
  if warned then withConsole app (ConsoleWarn "Invalid interaction mode:" (LString mode))
  else app.

(** [_updateAreaLightHover], for the intersections that the ray picker found. *)
Definition _updateAreaLightHover (intersections : list Intersection) (app : t) : Outcome t :=
  let hoveredAreaLight :=
    match intersections with
    | first :: _ => getHoveredAreaLight (Some first) (sceneManager app)
    | [] => None
    end in
  if role_eqb hoveredAreaLight (currentHoveredAreaLight app) then Done app
  else
    andThen
      (match currentHoveredAreaLight app with
       | Some previous => callScene (setHighlighted previous false) app
       | None => Done app
       end)
      (fun app =>
         match hoveredAreaLight with
         | Some hovered =>
             andThen (callScene (setHighlighted hovered true) app)
               (fun app =>
                  Done (setMode InteractionModeManager.AREA_LIGHT_MANIPULATION app
                          hoveredAreaLight))
         | None =>
             Done (setMode InteractionModeManager.MODEL_ROTATION app hoveredAreaLight)
         end).

(** The listener of the wheel event. *)
Definition onWheel (deltaY : R) (shiftKey : bool) (app : t) : Outcome t :=
  match InteractionModeManager.isAreaLightMode (interactionModeManager app),
        currentHoveredAreaLight app with
  | true, Some hovered =>
      let sensitivity := CONFIG.INTERACTION.AREA_LIGHT_DOLLY_SENSITIVITY in
      let dollyDelta := if Rgt_dec deltaY 0 then - sensitivity else sensitivity in
      callScene
        (fun sm =>
           match getLight hovered sm with
           | Some l =>
               SceneManager.render
                 (setLight hovered (Some (AreaLight.dolly dollyDelta l)) sm)
           | None => Thrown (TypeError "dolly") sm
           end) app
  | _, _ =>
      if InteractionModeManager.isModelRotationMode (interactionModeManager app) then
        callScene
          (fun sm =>
             match cameraController sm with
             | Some c =>
                 Done (setCameraControllerField
                         (CameraController.handleWheel deltaY shiftKey c) sm)
             | None => Thrown (TypeError "cameraController") sm
             end) app
      else Done app
  end.

(** [init], for a model file that loads: [windowAspect] is the aspect ratio of
    the window, [rotationController] the controller that [init] creates and
    [sessionId] the parameter of the page address. *)
Definition init (windowAspect : R) (rotationController : RotationController host)
    (sessionId : option string) : Outcome t :=
  let cameraController := CameraController.constructor windowAspect in
  let sm := SceneManager.constructor (Some (CameraController.getCamera cameraController)) in
  inField (SceneManager.initialize sm)
    (fun sm =>
       let sm := SceneManager.setCameraController cameraController sm in
       let sm := SceneManager.setRotationController rotationController sm in
       mkApplication sm InteractionModeManager.constructor None false
         (match sessionId with
          | Some _ => Some (mkWebSocketClient false [])
          | None => None
          end)
         [] None).

End WithHost.
Arguments t : clear implicits.
End Application.

(** ** Vocabulary of the specification *)

Import CoordinateSystem.

(** A camera whose rotation is a rotation: a unit quaternion, as three.js
    keeps it. *)
Definition unitQuaternion (q : Quaternion) : Prop :=
  qx q * qx q + qy q * qy q + qz q * qz q + qw q * qw q = 1.

(** A camera without pitch or roll: its forward and right vectors are
    horizontal. *)
Definition levelCamera (camera : PerspectiveCamera) : Prop :=
  y (getCameraForward camera) = 0 /\ y (getCameraRight camera) = 0.

Definition unitHorizontal (h : Vector3) : Prop := y h = 0 /\ lengthSq h = 1.

(** The azimuth that [cartesianToSpherical] reads off a unit horizontal
    direction. *)
Definition readAzimuth (h : Vector3) (camera : PerspectiveCamera) : R :=
  let azimuth :=
    radToDeg (JS.atan2 (dot h (getCameraRight camera)) (dot h (getCameraForward camera))) in
  if Rlt_dec azimuth 0 then azimuth + 360 else azimuth.

(** The unit vector of an azimuth and an elevation, both in radians. *)
Definition sphericalDirection (azimuthRad elevationRad : R) (camera : PerspectiveCamera)
  : Vector3 :=
  addScaledVector
    (addScaledVector zero3 (horizontalPlaneDir azimuthRad camera) (cos elevationRad))
    worldUp (sin elevationRad).

(** [cartesianToSpherical(sphericalToCartesian(a, e, d, camera), camera)] *)
Definition roundTrip (a e d : R) (camera : PerspectiveCamera) : Result Spherical :=
  match sphericalToCartesian (JS.Number a) e d camera with
  | Ok p => Ok (cartesianToSpherical (x p) (y p) (z p) camera)
  | Throw err => Throw err
  end.

Definition within (tol : R) (s1 s2 : Spherical) : Prop :=
  Rabs (azimuth s1 - azimuth s2) <= tol /\
  Rabs (elevation s1 - elevation s2) <= tol /\
  Rabs (distance s1 - distance s2) <= tol.

(** The camera of the application, as [new CameraController()] creates it. *)
Definition appCamera : PerspectiveCamera :=
  CameraController.getCamera (CameraController.constructor (16 / 9)).

(** A camera turned a quarter turn about its X axis: it looks straight down. *)
Definition lookingDown : PerspectiveCamera :=
  mkCamera (vec3 0 32 0) (quat (- / sqrt 2) 0 0 (/ sqrt 2)) 1 1.

(** An instance of the host for the examples: no string parses as a number,
    a colour is the number it was made from, and the rotation controller
    keeps the Euler angles it was given. *)
Definition exampleHost : Host :=
  mkHost (fun _ => None) (fun _ _ => None)
    (option R) (fun hex => hex) (fun _ => "ffffff"%string) (fun _ => Some 16777215)
    Vector3 (fun rc => rc) (fun rx ry rz _ => vec3 rx ry rz)
    (fun _ rc => rc) (fun _ rc => rc) (fun _ rc => rc) (fun _ rc => rc) (fun _ rc => rc).


Section LightVocabulary.
Context {host : Host}.
Import AreaLight.

(** The distance of the light from the pivot: the length of its position,
    which is relative to the parent group at the pivot. *)
Definition pivotDistance (l : AreaLight.t host) : R :=
  match areaLight l with
  | Some light => length (position light)
  | None => 0
  end.

(** The light is oriented as [lookAt] orients it from where it now is toward
    its configured target. *)
Definition facesTarget (l : AreaLight.t host) : Prop :=
  exists light,
    areaLight l = Some light /\
    orientation light =
    mkLookAt (worldPosition (parentGroup l) light) (targetPosition (type l))
             (parentWorldRotation (parentGroup l)).

(** The position mutations of a light. *)
Inductive Mutation : Type :=
| SetPositionSpherical (azimuth : JS.Value) (elevation : R)
| SetDistance (distance : R)
| SetPositionCartesian (px py pz : R)
| Dolly (delta : R)
| Rotate (deltaX deltaY : R)
| RotateClockwise (degrees : option R)
| RotateCounterclockwise (degrees : option R)
| NudgeElevationUp (degrees : option R)
| NudgeElevationDown (degrees : option R)
| MoveTowardDirection (targetDirection : JS.Value) (degrees : option R).

Definition mutate (m : Mutation) (camera : option PerspectiveCamera) (l : AreaLight.t host)
  : Outcome (AreaLight.t host) :=
  match m with
  | SetPositionSpherical az el => setPositionSpherical az el camera l
  | SetDistance d => setDistance d camera l
  | SetPositionCartesian px py pz => Done (setPositionCartesian px py pz l)
  | Dolly delta => Done (dolly delta l)
  | Rotate dx dy => rotate dx dy l
  | RotateClockwise deg => rotateClockwise deg camera l
  | RotateCounterclockwise deg => rotateCounterclockwise deg camera l
  | NudgeElevationUp deg => nudgeElevationUp deg camera l
  | NudgeElevationDown deg => nudgeElevationDown deg camera l
  | MoveTowardDirection target deg => moveTowardDirection target deg camera l
  end.

(** A sequence of mutating calls; a call that throws leaves the light as it
    was at the throw, and the next call runs on that light. *)
Fixpoint mutateAll (ms : list (Mutation * option PerspectiveCamera)) (l : AreaLight.t host)
  : AreaLight.t host :=
  match ms with
  | [] => l
  | (m, camera) :: ms' => mutateAll ms' (stateOf (mutate m camera l))
  end.

End LightVocabulary.

Section HoverVocabulary.
Context {host : Host}.
Import SceneManager Application.

(** The highlight overlay of the light is visible. *)
Definition highlighted (role : LightRole) (app : Application.t host) : bool :=
  match getLight role (sceneManager app) with
  | Some l =>
      match AreaLight.highlightOverlay l with
      | Some m => AreaLight.visible m
      | None => false
      end
  | None => false
  end.

Definition mode (app : Application.t host) : string :=
  InteractionModeManager.getCurrentMode (interactionModeManager app).

Definition otherLight (role : LightRole) : LightRole :=
  match role with
  | KeyLight => FillLight
  | FillLight => KeyLight
  end.

(** The intersections that the ray picker reports when the pointer ray hits
    the pick proxy of a light first. *)
Definition hitsProxy (role : LightRole) (rest : list Intersection) : list Intersection :=
  mkIntersection (Some (AreaLight.PickerOf (roleName role))) :: rest.

(** What happens to the application: the pointer moves (and the ray picker
    reports its intersections), a command arrives from the socket, or the
    wheel turns. *)
Inductive Event : Type :=
| PointerMove (intersections : list Intersection)
| RemoteCommand (command : Command)
| WheelTurn (deltaY : R) (shiftKey : bool).

Definition handle (e : Event) (app : Application.t host) : Outcome (Application.t host) :=
  match e with
  | PointerMove intersections => _updateAreaLightHover intersections app
  | RemoteCommand command => _handleWebSocketCommand command app
  | WheelTurn deltaY shiftKey => onWheel deltaY shiftKey app
  end.

(** A sequence of events, each handled to its end (or to its exception)
    before the next. *)
Fixpoint handleAll (events : list Event) (app : Application.t host) : Application.t host :=
  match events with
  | [] => app
  | e :: events' => handleAll events' (stateOf (handle e app))
  end.

(** What the hover machine observes of a light: whether its overlay is
    visible, and its pick proxy. *)
Definition overlayView (l : AreaLight.t host) : option bool * option AreaLight.ObjectRef :=
  (option_map AreaLight.visible (AreaLight.highlightOverlay l), AreaLight.pickerGeometry l).

Definition lightView (sm : SceneManager.t host) (role : LightRole)
  : option (option bool * option AreaLight.ObjectRef) :=
  option_map overlayView (getLight role sm).

(** The second scene manager shows the hover machine the same lights. *)
Definition sameLights (sm sm' : SceneManager.t host) : Prop :=
  forall role, lightView sm' role = lightView sm role.

(** The second application is in the same state of the hover machine. *)
Definition sameHover (app app' : Application.t host) : Prop :=
  sameLights (sceneManager app) (sceneManager app') /\
  interactionModeManager app' = interactionModeManager app /\
  currentHoveredAreaLight app' = currentHoveredAreaLight app.

(** The pointer is over the light [role]: the mode is light manipulation, the
    light is the hovered one, it is highlighted and the other light is not. *)
Definition hoveringOver (role : LightRole) (app : Application.t host) : Prop :=
  mode app = InteractionModeManager.AREA_LIGHT_MANIPULATION /\
  currentHoveredAreaLight app = Some role /\
  highlighted role app = true /\
  highlighted (otherLight role) app = false.

(** The pointer is over no light: the mode is model rotation, no light is
    hovered and none is highlighted. *)
Definition notHovering (app : Application.t host) : Prop :=
  mode app = InteractionModeManager.MODEL_ROTATION /\
  currentHoveredAreaLight app = None /\
  highlighted KeyLight app = false /\
  highlighted FillLight app = false.

(** Both lights exist, each with its highlight overlay and its pick proxy, as
    [_createLights] leaves them. *)
Definition lightsReady (sm : SceneManager.t host) : Prop :=
  forall role,
    exists l m,
      getLight role sm = Some l /\
      AreaLight.highlightOverlay l = Some m /\
      AreaLight.pickerGeometry l = Some (AreaLight.PickerOf (roleName role)).

(** The invariant of the hover machine. *)
Definition hoverInvariant (app : Application.t host) : Prop :=
  lightsReady (sceneManager app) /\
  (notHovering app \/ exists role, hoveringOver role app).

(** The light that [_updateAreaLightHover] finds under the pointer. *)
Definition hoveredOf (intersections : list Intersection) (sm : SceneManager.t host)
  : option LightRole :=
  match intersections with
  | first :: _ => getHoveredAreaLight (Some first) sm
  | [] => None
  end.

End HoverVocabulary.

(** Lights for the examples: the key light as constructed, moved onto the
    pivot, and moved to distance 1 on the X axis. *)
Definition keyLightExample : AreaLight.t exampleHost := AreaLight.constructor "key".

Definition lightAtPivot : AreaLight.t exampleHost :=
  AreaLight.setPositionCartesian 0 0 0 keyLightExample.

Definition lightOnXAxis : AreaLight.t exampleHost :=
  AreaLight.setPositionCartesian 1 0 0 keyLightExample.

(** The key light of the examples, placed at azimuth 190 and elevation 60
    for the camera of the application. *)
Definition lightAtAzimuth190 : AreaLight.t exampleHost :=
  stateOf (AreaLight.setPositionSpherical (JS.Number 190) 60 (Some appCamera)
             keyLightExample).


(** The configured ranges of the camera controller hold: the limits are those
    of the configuration, and the distance and the zoom lie within them. *)
Definition cameraWithinRanges (c : CameraController.t) : Prop :=
  CameraController.minDistance c = CONFIG.CAMERA.MIN_DISTANCE /\
  CameraController.maxDistance c = CONFIG.CAMERA.MAX_DISTANCE /\
  CameraController.minFOV c = CONFIG.CAMERA.FOV_MIN /\
  CameraController.maxFOV c = CONFIG.CAMERA.FOV_MAX /\
  CONFIG.CAMERA.MIN_DISTANCE <= CameraController.getCameraDistance c
    <= CONFIG.CAMERA.MAX_DISTANCE /\
  CONFIG.CAMERA.FOV_MIN <= CameraController.getCameraFOV c <= CONFIG.CAMERA.FOV_MAX.

(** A number that is not NaN and lies in a range. *)
Definition numberWithin (lo hi : R) (n : JS.Num) : Prop :=
  match n with
  | JS.Finite r => lo <= r <= hi
  | JS.NaN => False
  end.

(** The configured ranges hold in the controller whose numbers may be NaN:
    the limits are those of the configuration, the distance and the zoom are
    numbers within them, and the distance that a pinch starts from is a
    number. *)
Definition numbersWithinRanges (c : CameraNumbers.t) : Prop :=
  CameraNumbers.minDistance c = CONFIG.CAMERA.MIN_DISTANCE /\
  CameraNumbers.maxDistance c = CONFIG.CAMERA.MAX_DISTANCE /\
  CameraNumbers.minFOV c = CONFIG.CAMERA.FOV_MIN /\
  CameraNumbers.maxFOV c = CONFIG.CAMERA.FOV_MAX /\
  numberWithin CONFIG.CAMERA.MIN_DISTANCE CONFIG.CAMERA.MAX_DISTANCE
    (CameraNumbers.getCameraDistance c) /\
  numberWithin CONFIG.CAMERA.FOV_MIN CONFIG.CAMERA.FOV_MAX (CameraNumbers.getCameraFOV c) /\
  CameraNumbers.initialCameraDistance c <> JS.NaN.

(** The operation is called with the number that it clamps: [dollyCamera]
    with its distance, [setCameraFOV] with its value. *)
Definition numericArguments (op : CameraNumbers.Operation) : bool :=
  match op with
  | CameraNumbers.DollyCamera None => false
  | CameraNumbers.SetCameraFOV None => false
  | _ => true
  end.

(** The application of the examples: initialised, with an open socket. *)
Definition exampleApp : Application.t exampleHost :=
  Application.withWsClient
    (stateOf (Application.init (host := exampleHost) (16 / 9) (vec3 0 0 0)
                (Some "session"%string)))
    (Some (Application.mkWebSocketClient true [])).

(** A command object that has only the field [type]; the numeric fields of
    the model are 0 and are not read. *)
Definition commandOfType (ty : string) : Application.Command :=
  Application.mkCommand (JS.Str ty) JS.Undefined JS.Undefined 0 0 0 0 0
    JS.Undefined 0 None JS.Undefined 0 None 0.

(** The command dollyCamera with distance 100. *)
Definition dollyCommand : Application.Command :=
  Application.mkCommand (JS.Str "dollyCamera") JS.Undefined JS.Undefined 0 0 0 0 0
    JS.Undefined 0 None JS.Undefined 100 None 0.

(** The key light of the examples with its position overwritten and no
    [lookAt] after that. *)
Definition staleKeyLight : AreaLight.t exampleHost :=
  match AreaLight.areaLight keyLightExample with
  | Some light =>
      AreaLight.withAreaLight keyLightExample (AreaLight.setPosition light (vec3 1 0 0))
  | None => keyLightExample
  end.

(** The scene manager of the application of the examples. *)
Definition exampleScene : SceneManager.t exampleHost := Application.sceneManager exampleApp.

(** The command setKeyLightPositionSpherical with an azimuth that is no
    direction name. *)
Definition invalidAzimuthCommand : Application.Command :=
  Application.mkCommand (JS.Str "setKeyLightPositionSpherical") JS.Undefined JS.Undefined
    0 0 0 0 0 (JS.Str "upward") 45 None JS.Undefined 0 None 0.

(** The application of the examples after the command dollyCamera with
    distance 100 has been handled, before the state update. *)
Definition exampleAppDollied : Application.t exampleHost :=
  stateOf (Application.callScene (SceneManager.dollyCamera 100) exampleApp).

(** ** Vocabulary of the further properties *)

(** Two angles in degrees that differ by at most [tol], up to whole turns. *)
Definition nearAngle (tol a b : R) : Prop :=
  exists k : Z, Rabs (a - b - 360 * IZR k) <= tol.

(** A value that is not a string, or is a string of ASCII characters. *)
Definition asciiValue (v : JS.Value) : Prop :=
  match v with
  | JS.Str s => JS.isAscii s = true
  | _ => True
  end.

(** What the lookup of a direction name depends on: the bytes of the string in
    lower case, without white space, hyphens and periods. *)
Definition directionLetters (s : string) : string :=
  JS.removeAll isSeparator (JS.toLowerCase s).

(** The difference between two angles that [azimuthToDirectionName] compares:
    the absolute difference, taken the short way round. *)
Definition wrapDifference (n t : R) : R :=
  let difference := Rabs (n - t) in
  if Rgt_dec difference 180 then 360 - difference else difference.

(** The camera stands on the world Z axis and is not rotated. *)
Definition onAxis (camera : PerspectiveCamera) : Prop :=
  x (position camera) = 0 /\ y (position camera) = 0 /\
  quaternion camera = identityQuaternion.

(** The camera controller as configured: the ranges hold, the speeds are
    those of the configuration, and the camera is on the axis. *)
Definition asConfigured (c : CameraController.t) : Prop :=
  cameraWithinRanges c /\
  CameraController.dollySpeed c = CONFIG.CAMERA.DOLLY_SPEED /\
  CameraController.fovSpeed c = CONFIG.CAMERA.FOV_SPEED /\
  onAxis (CameraController.camera c).


Section SceneVocabulary.
Context {host : Host}.

(** The distance in world space between a light and its pivot, the parent
    group. *)
Definition worldPivotDistance (l : AreaLight.t host) : R :=
  match AreaLight.areaLight l, AreaLight.parentGroup l with
  | Some light, Some g =>
      length (sub (AreaLight.worldPosition (Some g) light) (AreaLight.groupPosition g))
  | _, _ => 0
  end.

(** A light of the scene in working order: it has its objects, its pivot is
    the model origin, its overlay has the colour of the light, its pick proxy
    and its type are those of its role, and it faces its target. *)
Definition lightInOrder (role : SceneManager.LightRole) (l : AreaLight.t host) : Prop :=
  exists light g m,
    AreaLight.areaLight l = Some light /\
    AreaLight.parentGroup l = Some g /\
    AreaLight.groupPosition g = CONFIG.MODEL.ORIGIN /\
    AreaLight.highlightOverlay l = Some m /\
    AreaLight.materialColor m = AreaLight.color light /\
    AreaLight.pickerGeometry l = Some (AreaLight.PickerOf (SceneManager.roleName role)) /\
    AreaLight.type l = SceneManager.roleName role /\
    facesTarget l.

(** The camera of the scene manager is the camera of its controller, which is
    as configured. *)
Definition cameraInOrder (sm : SceneManager.t host) : Prop :=
  exists c,
    SceneManager.cameraController sm = Some c /\
    SceneManager.camera sm = Some (CameraController.camera c) /\
    asConfigured c.

(** The scene manager in working order: every reference is set, the camera
    and both lights are in order. *)
Definition sceneInOrder (sm : SceneManager.t host) : Prop :=
  SceneManager.scene sm <> None /\
  SceneManager.renderer sm <> None /\
  SceneManager.model sm <> None /\
  SceneManager.rotationController sm <> None /\
  cameraInOrder sm /\
  forall role, exists l,
    SceneManager.getLight role sm = Some l /\ lightInOrder role l.

(** The application after [init] and a sequence of events. *)
Definition appAfter (events : list Event) (windowAspect : R)
    (rotationController : RotationController host) (sessionId : option string)
  : Application.t host :=
  handleAll events (stateOf (Application.init windowAspect rotationController sessionId)).

End SceneVocabulary.

(** * Facts on vectors and on the JavaScript arithmetic *)

Section VectorFacts.

Lemma lengthSq_nonneg (v : Vector3) : 0 <= lengthSq v.
Proof. unfold lengthSq. nra. Qed.

Lemma length_nonneg (v : Vector3) : 0 <= length v.
Proof. apply sqrt_pos. Qed.

Lemma length_multiplyScalar (v : Vector3) (s : R) :
  length (multiplyScalar v s) = length v * Rabs s.
Proof.
  unfold length, multiplyScalar, lengthSq; simpl.
  replace (x v * s * (x v * s) + y v * s * (y v * s) + z v * s * (z v * s))
    with ((x v * x v + y v * y v + z v * z v) * (s * s)) by ring.
  rewrite sqrt_mult_alt by nra.
  f_equal. rewrite <- (sqrt_Rsqr_abs s). reflexivity.
Qed.

Lemma length_unit (v : Vector3) : lengthSq v = 1 -> length v = 1.
Proof. intros H. unfold length. rewrite H. apply sqrt_1. Qed.

Lemma orOne_pos (v : Vector3) : 0 < orOne (length v).
Proof.
  unfold orOne. destruct (Req_EM_T (length v) 0) as [E|N]; [lra|].
  pose proof (length_nonneg v). lra.
Qed.

Lemma normalize_unit (v : Vector3) : lengthSq v = 1 -> normalize v = v.
Proof.
  intros H. unfold normalize, orOne. rewrite (length_unit v H).
  destruct (Req_EM_T 1 0) as [E|_]; [lra|].
  destruct v as [a b c]; unfold multiplyScalar; simpl. f_equal; field.
Qed.

Lemma length_normalize (v : Vector3) : length v <> 0 -> length (normalize v) = 1.
Proof.
  intros H. unfold normalize. rewrite length_multiplyScalar.
  unfold orOne. destruct (Req_EM_T (length v) 0) as [E|_]; [contradiction|].
  pose proof (length_nonneg v).
  rewrite Rabs_right.
  - field. exact H.
  - apply Rle_ge. apply Rlt_le. apply Rdiv_lt_0_compat; lra.
Qed.

Lemma lengthSq_of_length (v : Vector3) : lengthSq v = length v * length v.
Proof. unfold length. rewrite sqrt_sqrt; [reflexivity | apply lengthSq_nonneg]. Qed.

End VectorFacts.

Import CoordinateSystem.

Section CameraBasis.
Variable camera : PerspectiveCamera.
Hypothesis Hunit : unitQuaternion (quaternion camera).

Lemma forward_raw_unit :
  lengthSq (applyQuaternion (vec3 0 0 (-1)) (quaternion camera)) = 1.
Proof.
  unfold unitQuaternion in Hunit. destruct (quaternion camera) as [a b c w]; simpl in *.
  unfold lengthSq, applyQuaternion; simpl.
  nsatz.
Qed.

Lemma right_raw_unit :
  lengthSq (applyQuaternion (vec3 1 0 0) (quaternion camera)) = 1.
Proof.
  unfold unitQuaternion in Hunit. destruct (quaternion camera) as [a b c w]; simpl in *.
  unfold lengthSq, applyQuaternion; simpl.
  nsatz.
Qed.

Lemma forward_unit : lengthSq (getCameraForward camera) = 1.
Proof. unfold getCameraForward. rewrite normalize_unit; apply forward_raw_unit. Qed.

Lemma right_unit : lengthSq (getCameraRight camera) = 1.
Proof. unfold getCameraRight. rewrite normalize_unit; apply right_raw_unit. Qed.

Lemma forward_right_orthogonal :
  dot (getCameraForward camera) (getCameraRight camera) = 0.
Proof.
  unfold getCameraForward, getCameraRight.
  rewrite !normalize_unit by (apply forward_raw_unit || apply right_raw_unit).
  unfold unitQuaternion in Hunit. destruct (quaternion camera) as [a b c w]; simpl in *.
  unfold dot, applyQuaternion; simpl. nsatz.
Qed.

End CameraBasis.

Lemma projectHorizontal_eq (v : Vector3) : projectHorizontal v = vec3 (x v) 0 (z v).
Proof.
  unfold projectHorizontal, sub, multiplyScalar, dot, worldUp; simpl. f_equal; ring.
Qed.

Lemma normalize_y0 (v : Vector3) : y v = 0 -> y (normalize v) = 0.
Proof. intros H. unfold normalize, multiplyScalar; simpl. rewrite H. ring. Qed.

Lemma lengthSq_normalize (v : Vector3) : length v <> 0 -> lengthSq (normalize v) = 1.
Proof.
  intros H. rewrite lengthSq_of_length, length_normalize by exact H. ring.
Qed.

Lemma normalize_unitHorizontal (v : Vector3) :
  y v = 0 -> length v <> 0 -> unitHorizontal (normalize v).
Proof.
  intros Hy Hl. split; [apply normalize_y0, Hy | apply lengthSq_normalize, Hl].
Qed.

Lemma length_small_sq (v : Vector3) (c : R) :
  0 <= c -> ~ length v > c -> lengthSq v <= c * c.
Proof.
  intros Hc Hn. rewrite lengthSq_of_length.
  pose proof (length_nonneg v). nra.
Qed.

Lemma length_zero_sq (v : Vector3) : length v = 0 -> lengthSq v = 0.
Proof. intros H. rewrite lengthSq_of_length, H. ring. Qed.

Section HorizontalDir.
Variable camera : PerspectiveCamera.
Hypothesis Hunit : unitQuaternion (quaternion camera).

Lemma horizontalPlaneDir_unitHorizontal (azimuthRad : R) :
  unitHorizontal (horizontalPlaneDir azimuthRad camera).
Proof.
  unfold horizontalPlaneDir.
  destruct (Rgt_dec _ _) as [H1|H1].
  - apply normalize_unitHorizontal.
    + rewrite projectHorizontal_eq; reflexivity.
    + lra.
  - destruct (Rgt_dec _ _) as [H2|H2].
    + apply normalize_unitHorizontal.
      * rewrite projectHorizontal_eq; reflexivity.
      * lra.
    + apply normalize_unitHorizontal.
      * rewrite projectHorizontal_eq; reflexivity.
      * intros H0. apply length_zero_sq in H0.
        apply length_small_sq in H2; [|lra].
        pose proof (forward_unit camera Hunit) as HF.
        pose proof (right_unit camera Hunit) as HR.
        pose proof (forward_right_orthogonal camera Hunit) as HO.
        rewrite projectHorizontal_eq in H0, H2.
        destruct (getCameraForward camera) as [fx fy fz].
        destruct (getCameraRight camera) as [rx ry rz].
        unfold lengthSq, dot in *; simpl in *.
        assert (rx = 0) by nra. assert (rz = 0) by nra. subst rx rz.
        assert (fy * ry = 0) by lra.
        assert (ry * ry = 1) by lra.
        assert (fy * fy >= 1 - 1 / 10000 * (1 / 10000)) by lra.
        assert (fy = 0) by nra. subst fy. lra.
Qed.

Lemma direction_unit (h : Vector3) (elevationRad : R) :
  unitHorizontal h ->
  lengthSq (addScaledVector (addScaledVector zero3 h (cos elevationRad))
                            worldUp (sin elevationRad)) = 1.
Proof.
  intros [Hy Hl]. destruct h as [hx hy hz]; simpl in *. subst hy.
  unfold lengthSq, addScaledVector, zero3, worldUp in *; simpl in *.
  pose proof (sin2_cos2 elevationRad) as E. unfold Rsqr in E.
  replace ((0 + hx * cos elevationRad + 0 * sin elevationRad) *
           (0 + hx * cos elevationRad + 0 * sin elevationRad) +
           (0 + 0 * cos elevationRad + 1 * sin elevationRad) *
           (0 + 0 * cos elevationRad + 1 * sin elevationRad) +
           (0 + hz * cos elevationRad + 0 * sin elevationRad) *
           (0 + hz * cos elevationRad + 0 * sin elevationRad))
    with ((hx * hx + 0 * 0 + hz * hz) * (cos elevationRad * cos elevationRad)
          + sin elevationRad * sin elevationRad) by ring.
  rewrite Hl. lra.
Qed.

Lemma sphericalDirection_unit (azimuthRad elevationRad : R) :
  lengthSq (sphericalDirection azimuthRad elevationRad camera) = 1.
Proof. apply direction_unit, horizontalPlaneDir_unitHorizontal. Qed.

Lemma sphericalToCartesian_valid (az : JS.Value) (v e d : R) :
  directionToAzimuthAngle az = Some v ->
  sphericalToCartesian az e d camera =
  Ok (multiplyScalar (sphericalDirection (degToRad v) (degToRad e) camera) d).
Proof.
  intros Hv. unfold sphericalToCartesian. rewrite Hv.
  fold (sphericalDirection (degToRad v) (degToRad e) camera).
  rewrite normalize_unit by apply sphericalDirection_unit. reflexivity.
Qed.

Lemma sphericalToCartesian_number (a e d : R) :
  exists az,
    directionToAzimuthAngle (JS.Number a) = Some az /\
    sphericalToCartesian (JS.Number a) e d camera =
    Ok (multiplyScalar (sphericalDirection (degToRad az) (degToRad e) camera) d).
Proof.
  eexists; split; [reflexivity|]. apply sphericalToCartesian_valid. reflexivity.
Qed.

Lemma sphericalToCartesian_length (az : JS.Value) (e d : R) (p : Vector3) :
  sphericalToCartesian az e d camera = Ok p -> length p = Rabs d.
Proof.
  destruct (directionToAzimuthAngle az) as [v|] eqn:Hv.
  - rewrite (sphericalToCartesian_valid az v e d Hv).
    intros H; inversion H; subst p; clear H.
    rewrite length_multiplyScalar, length_unit; [ring|].
    apply sphericalDirection_unit.
  - unfold sphericalToCartesian. rewrite Hv. discriminate.
Qed.

End HorizontalDir.

Section JsMath.

Lemma trunc_between (q : R) (k : Z) :
  (0 <= k)%Z -> IZR k <= q < IZR k + 1 -> JS.trunc q = k.
Proof.
  intros Hk [H1 H2]. unfold JS.trunc.
  assert (0 <= IZR k) by (apply IZR_le in Hk; exact Hk).
  destruct (Rle_dec 0 q) as [_|N]; [|lra].
  symmetry. apply Int_part_spec. lra.
Qed.

Lemma rem_between (v m : R) (k : Z) :
  0 < m -> (0 <= k)%Z -> IZR k * m <= v < (IZR k + 1) * m ->
  JS.rem v m = v - m * IZR k.
Proof.
  intros Hm Hk [H1 H2]. unfold JS.rem.
  rewrite (trunc_between (v / m) k Hk); [reflexivity|].
  split.
  - apply Rmult_le_reg_r with m; [exact Hm|]. unfold Rdiv.
    rewrite Rmult_assoc, Rinv_l by lra. lra.
  - apply Rmult_lt_reg_r with m; [exact Hm|]. unfold Rdiv.
    rewrite Rmult_assoc, Rinv_l by lra. lra.
Qed.

Lemma rem_small (v m : R) : 0 <= v < m -> JS.rem v m = v.
Proof.
  intros H. rewrite (rem_between v m 0); [lra | lra | lia | simpl; lra].
Qed.

Lemma rem_once (v m : R) : m <= v < 2 * m -> 0 < m -> JS.rem v m = v - m.
Proof.
  intros H Hm. rewrite (rem_between v m 1); [lra | lra | lia | simpl; lra].
Qed.

Lemma rem_twice (v m : R) : 2 * m <= v < 3 * m -> 0 < m -> JS.rem v m = v - 2 * m.
Proof.
  intros H Hm. rewrite (rem_between v m 2); [lra | lra | lia | simpl; lra].
Qed.

Lemma tan_shift_PI (t : R) : cos t <> 0 -> tan (t - PI) = sin t / cos t.
Proof.
  intros H. unfold tan.
  pose proof (neg_sin (t - PI)) as S. pose proof (neg_cos (t - PI)) as C.
  replace (t - PI + PI) with t in * by ring.
  replace (sin (t - PI)) with (- sin t) by lra.
  replace (cos (t - PI)) with (- cos t) by lra.
  field. exact H.
Qed.

Lemma tan_shift_PI' (t : R) : cos t <> 0 -> tan (t + PI) = sin t / cos t.
Proof.
  intros H. unfold tan. rewrite neg_sin, neg_cos. field. exact H.
Qed.

Lemma atan2_sin_cos (t : R) : - PI < t <= PI -> JS.atan2 (sin t) (cos t) = t.
Proof.
  intros [Hlo Hhi]. pose proof PI_RGT_0 as HPI. unfold JS.atan2.
  destruct (Rlt_dec t (- (PI / 2))) as [A|A].
  - (* t in (-PI, -PI/2) *)
    assert (Hc : cos t < 0).
    { rewrite <- cos_neg. apply cos_lt_0; lra. }
    assert (Hs : sin t < 0) by (apply sin_lt_0_var; lra).
    destruct (Rlt_dec 0 (cos t)); [lra|].
    destruct (Rlt_dec (cos t) 0); [|lra].
    destruct (Rle_dec 0 (sin t)); [lra|].
    rewrite <- tan_shift_PI' by lra.
    rewrite atan_tan by lra. ring.
  - destruct (Req_EM_T t (- (PI / 2))) as [B|B].
    + subst t. rewrite cos_neg, sin_neg, cos_PI2, sin_PI2.
      repeat (destruct (Rlt_dec _ _); try lra).
    + destruct (Rlt_dec t (PI / 2)) as [C|C].
      * (* open right half plane *)
        assert (Hc : 0 < cos t) by (apply cos_gt_0; lra).
        destruct (Rlt_dec 0 (cos t)); [|lra].
        fold (tan t). apply atan_tan. lra.
      * destruct (Req_EM_T t (PI / 2)) as [D|D].
        -- subst t. rewrite cos_PI2, sin_PI2.
           repeat (destruct (Rlt_dec _ _); try lra).
        -- assert (Hc : cos t < 0) by (apply cos_lt_0; lra).
           assert (Hs : 0 <= sin t) by (apply sin_ge_0; lra).
           destruct (Rlt_dec 0 (cos t)); [lra|].
           destruct (Rlt_dec (cos t) 0); [|lra].
           destruct (Rle_dec 0 (sin t)); [|lra].
           rewrite <- tan_shift_PI by lra.
           rewrite atan_tan by lra. ring.
Qed.

Lemma radToDeg_degToRad (d : R) : radToDeg (degToRad d) = d.
Proof.
  unfold radToDeg, degToRad. pose proof PI_RGT_0. field. lra.
Qed.

End JsMath.

Lemma Rmax_Rmin_clamp (v : R) : -1 <= v <= 1 -> Rmax (-1) (Rmin 1 v) = v.
Proof.
  intros [H1 H2]. rewrite Rmin_right by lra. rewrite Rmax_right by lra. reflexivity.
Qed.

Lemma sqrt_square_nonneg (v : R) : 0 <= v -> sqrt (v * v) = v.
Proof. intros H. apply sqrt_square. exact H. Qed.

(** The Cartesian-to-spherical conversion on a point given in polar form:
    [d] times the unit vector [ce * h + se * up]. *)
Lemma cartesianToSpherical_polar (h : Vector3) (ce se d : R) (camera : PerspectiveCamera) :
  unitHorizontal h -> ce * ce + se * se = 1 -> 0 <= ce -> 1 / 10000 <= d ->
  cartesianToSpherical (x h * ce * d) (se * d) (z h * ce * d) camera =
  mkSpherical (if Rgt_dec ce (1 / 10000) then readAzimuth h camera else 0)
              (radToDeg (asin se)) d.
Proof.
  intros [Hy Hl] Hcs Hce Hd. destruct h as [hx hy hz]; simpl in *. subst hy.
  unfold lengthSq in Hl; simpl in Hl.
  unfold cartesianToSpherical.
  assert (Elen : length (vec3 (hx * ce * d) (se * d) (hz * ce * d)) = d).
  { unfold length, lengthSq; simpl.
    replace (hx * ce * d * (hx * ce * d) + se * d * (se * d) + hz * ce * d * (hz * ce * d))
      with (d * d * ((hx * hx + 0 * 0 + hz * hz) * (ce * ce) + se * se)) by ring.
    rewrite Hl. replace (d * d * (1 * (ce * ce) + se * se)) with (d * d * (ce * ce + se * se)) by ring.
    rewrite Hcs, Rmult_1_r.
    apply sqrt_square_nonneg. lra. }
  rewrite Elen.
  destruct (Rlt_dec d (1 / 10000)) as [Hlt|_]; [lra|].
  assert (Enorm : normalize (vec3 (hx * ce * d) (se * d) (hz * ce * d))
                  = vec3 (hx * ce) se (hz * ce)).
  { unfold normalize. rewrite Elen. unfold orOne.
    destruct (Req_EM_T d 0); [lra|]. unfold multiplyScalar; simpl.
    f_equal; field; lra. }
  rewrite Enorm.
  assert (Edot : dot (vec3 (hx * ce) se (hz * ce)) worldUp = se).
  { unfold dot, worldUp; simpl. ring. }
  rewrite Edot.
  assert (Hse : -1 <= se <= 1) by nra.
  rewrite Rmax_Rmin_clamp by exact Hse.
  assert (Ehor : sub (vec3 (hx * ce) se (hz * ce)) (multiplyScalar worldUp se)
                 = vec3 (hx * ce) 0 (hz * ce)).
  { unfold sub, multiplyScalar, worldUp; simpl. f_equal; ring. }
  rewrite Ehor.
  assert (Ehl : length (vec3 (hx * ce) 0 (hz * ce)) = ce).
  { unfold length, lengthSq; simpl.
    replace (hx * ce * (hx * ce) + 0 * 0 + hz * ce * (hz * ce))
      with ((hx * hx + 0 * 0 + hz * hz) * (ce * ce)) by ring.
    rewrite Hl, Rmult_1_l.
    apply sqrt_square_nonneg. exact Hce. }
  rewrite Ehl.
  destruct (Rgt_dec ce (1 / 10000)) as [Hgt|Hle]; [|reflexivity].
  assert (Enh : normalize (vec3 (hx * ce) 0 (hz * ce)) = vec3 hx 0 hz).
  { unfold normalize. rewrite Ehl. unfold orOne.
    destruct (Req_EM_T ce 0); [lra|]. unfold multiplyScalar; simpl.
    f_equal; field; lra. }
  rewrite Enh. reflexivity.
Qed.

Section LevelCamera.
Variable camera : PerspectiveCamera.
Hypothesis Hunit : unitQuaternion (quaternion camera).
Hypothesis Hlevel : levelCamera camera.

Lemma level_horizontalPlaneDir (azimuthRad : R) :
  horizontalPlaneDir azimuthRad camera =
  addScaledVector (addScaledVector zero3 (getCameraForward camera) (cos azimuthRad))
                  (getCameraRight camera) (sin azimuthRad).
Proof.
  unfold horizontalPlaneDir.
  pose proof (forward_unit camera Hunit) as HF.
  pose proof (right_unit camera Hunit) as HR.
  pose proof (forward_right_orthogonal camera Hunit) as HO.
  destruct Hlevel as [Hfy Hry].
  destruct (getCameraForward camera) as [fx fy fz].
  destruct (getCameraRight camera) as [rx ry rz].
  simpl in *. subst fy ry. unfold lengthSq, dot in *; simpl in *.
  set (c := cos azimuthRad). set (s := sin azimuthRad).
  assert (Hcs : c * c + s * s = 1).
  { pose proof (sin2_cos2 azimuthRad) as E. unfold Rsqr in E. subst c s. lra. }
  rewrite projectHorizontal_eq.
  unfold addScaledVector, zero3; simpl.
  assert (E0 : 0 + 0 * c + 0 * s = 0) by ring. rewrite E0.
  assert (Hu : lengthSq (vec3 (0 + fx * c + rx * s) 0 (0 + fz * c + rz * s)) = 1).
  { unfold lengthSq; simpl.
    replace ((0 + fx * c + rx * s) * (0 + fx * c + rx * s) + 0 * 0 +
             (0 + fz * c + rz * s) * (0 + fz * c + rz * s))
      with ((fx * fx + 0 * 0 + fz * fz) * (c * c) + (rx * rx + 0 * 0 + rz * rz) * (s * s)
            + 2 * c * s * (fx * rx + 0 * 0 + fz * rz)) by ring.
    rewrite HF, HR, HO. lra. }
  rewrite (length_unit _ Hu).
  destruct (Rgt_dec 1 (1 / 10000)) as [_|N]; [|lra].
  apply normalize_unit. exact Hu.
Qed.

Lemma level_readAzimuth (a : R) :
  0 <= a < 360 ->
  readAzimuth (horizontalPlaneDir (degToRad a) camera) camera = a.
Proof.
  intros Ha. rewrite level_horizontalPlaneDir. unfold readAzimuth.
  pose proof (forward_unit camera Hunit) as HF.
  pose proof (right_unit camera Hunit) as HR.
  pose proof (forward_right_orthogonal camera Hunit) as HO.
  destruct (getCameraForward camera) as [fx fy fz].
  destruct (getCameraRight camera) as [rx ry rz].
  unfold lengthSq, dot, addScaledVector, zero3 in *; simpl in *.
  set (t := degToRad a).
  replace ((0 + fx * cos t + rx * sin t) * rx + (0 + fy * cos t + ry * sin t) * ry +
           (0 + fz * cos t + rz * sin t) * rz)
    with (cos t * (fx * rx + fy * ry + fz * rz) + sin t * (rx * rx + ry * ry + rz * rz))
    by ring.
  replace ((0 + fx * cos t + rx * sin t) * fx + (0 + fy * cos t + ry * sin t) * fy +
           (0 + fz * cos t + rz * sin t) * fz)
    with (cos t * (fx * fx + fy * fy + fz * fz) + sin t * (fx * rx + fy * ry + fz * rz))
    by ring.
  rewrite HF, HR, HO.
  replace (cos t * 0 + sin t * 1) with (sin t) by ring.
  replace (cos t * 1 + sin t * 0) with (cos t) by ring.
  pose proof PI_RGT_0 as HPI.
  assert (Ht : 0 <= t < 2 * PI).
  { subst t. unfold degToRad. split.
    - apply Rmult_le_pos; [lra|]. apply Rlt_le. apply Rdiv_lt_0_compat; lra.
    - replace (2 * PI) with (360 * (PI / 180)) by field.
      apply Rmult_lt_compat_r; [apply Rdiv_lt_0_compat; lra | lra]. }
  destruct (Rle_dec t PI) as [Hle|Hgt].
  - rewrite atan2_sin_cos by lra. subst t. rewrite radToDeg_degToRad.
    destruct (Rlt_dec a 0); [lra|reflexivity].
  - assert (Es : sin t = sin (t - 2 * PI)).
    { rewrite <- (sin_period (t - 2 * PI) 1). f_equal. simpl. ring. }
    assert (Ec : cos t = cos (t - 2 * PI)).
    { rewrite <- (cos_period (t - 2 * PI) 1). f_equal. simpl. ring. }
    rewrite Es, Ec. rewrite atan2_sin_cos by lra.
    assert (E : radToDeg (t - 2 * PI) = a - 360).
    { subst t. unfold radToDeg, degToRad. field. lra. }
    rewrite E. destruct (Rlt_dec (a - 360) 0); [ring|lra].
Qed.

End LevelCamera.

Lemma directionToAzimuthAngle_in_range (a : R) :
  0 <= a < 360 -> directionToAzimuthAngle (JS.Number a) = Some a.
Proof.
  intros H. unfold directionToAzimuthAngle. rewrite rem_small by lra.
  destruct (Rlt_dec a 0); [lra|reflexivity].
Qed.

Lemma degToRad_quarter_turn (e : R) :
  -90 <= e <= 90 -> - (PI / 2) <= degToRad e <= PI / 2.
Proof.
  intros H. pose proof PI_RGT_0. unfold degToRad.
  assert (Hk : 0 < PI / 180) by (apply Rdiv_lt_0_compat; lra).
  replace (PI / 2) with (90 * (PI / 180)) by field. nra.
Qed.

(** The round trip written with the horizontal direction [h] that
    [sphericalToCartesian] chose. *)
Lemma roundTrip_polar (a e d : R) (camera : PerspectiveCamera) :
  unitQuaternion (quaternion camera) ->
  0 <= a < 360 -> -90 <= e <= 90 -> 1 / 10000 <= d ->
  roundTrip a e d camera =
  Ok (mkSpherical
        (if Rgt_dec (cos (degToRad e)) (1 / 10000)
         then readAzimuth (horizontalPlaneDir (degToRad a) camera) camera else 0)
        e d).
Proof.
  intros Hunit Ha He Hd. unfold roundTrip.
  destruct (sphericalToCartesian_number camera Hunit a e d) as [az [Eaz E]].
  rewrite directionToAzimuthAngle_in_range in Eaz by exact Ha.
  inversion Eaz; subst az; clear Eaz. rewrite E. f_equal.
  pose proof (horizontalPlaneDir_unitHorizontal camera Hunit (degToRad a)) as Hh.
  pose proof (degToRad_quarter_turn e He) as Her.
  set (h := horizontalPlaneDir (degToRad a) camera) in *.
  assert (Hy : y h = 0) by apply Hh.
  unfold sphericalDirection. fold h.
  unfold multiplyScalar, addScaledVector, zero3, worldUp; simpl. rewrite Hy.
  replace ((0 + x h * cos (degToRad e) + 0 * sin (degToRad e)) * d)
    with (x h * cos (degToRad e) * d) by ring.
  replace ((0 + 0 * cos (degToRad e) + 1 * sin (degToRad e)) * d)
    with (sin (degToRad e) * d) by ring.
  replace ((0 + z h * cos (degToRad e) + 0 * sin (degToRad e)) * d)
    with (z h * cos (degToRad e) * d) by ring.
  rewrite cartesianToSpherical_polar.
  - rewrite asin_sin by lra. rewrite radToDeg_degToRad. reflexivity.
  - exact Hh.
  - pose proof (sin2_cos2 (degToRad e)) as S. unfold Rsqr in S. lra.
  - apply cos_ge_0; lra.
  - exact Hd.
Qed.

Lemma roundTrip_level (a e d : R) (camera : PerspectiveCamera) :
  unitQuaternion (quaternion camera) -> levelCamera camera ->
  0 <= a < 360 -> -90 <= e <= 90 -> cos (degToRad e) > 1 / 10000 -> 1 / 10000 <= d ->
  roundTrip a e d camera = Ok (mkSpherical a e d).
Proof.
  intros Hunit Hlevel Ha He Hce Hd.
  rewrite roundTrip_polar by assumption.
  destruct (Rgt_dec _ _) as [_|N]; [|contradiction].
  rewrite level_readAzimuth by assumption. reflexivity.
Qed.

Lemma roundTrip_overhead (a d : R) (camera : PerspectiveCamera) :
  unitQuaternion (quaternion camera) -> 0 <= a < 360 -> 1 / 10000 <= d ->
  roundTrip a 90 d camera = Ok (mkSpherical 0 90 d).
Proof.
  intros Hunit Ha Hd. rewrite roundTrip_polar by (assumption || lra).
  replace (degToRad 90) with (PI / 2) by (unfold degToRad; field).
  rewrite cos_PI2. destruct (Rgt_dec 0 (1 / 10000)); [lra|reflexivity].
Qed.

Lemma within_refl (tol : R) (s : Spherical) : 0 <= tol -> within tol s s.
Proof.
  intros H. unfold within.
  replace (azimuth s - azimuth s) with 0 by ring.
  replace (elevation s - elevation s) with 0 by ring.
  replace (distance s - distance s) with 0 by ring.
  rewrite Rabs_R0. lra.
Qed.

Lemma identity_unit : unitQuaternion identityQuaternion.
Proof. unfold unitQuaternion, identityQuaternion; simpl. ring. Qed.

Lemma identity_level (p : Vector3) (zm asp : R) :
  levelCamera (mkCamera p identityQuaternion zm asp).
Proof.
  split; unfold getCameraForward, getCameraRight; apply normalize_y0;
    unfold applyQuaternion, identityQuaternion; simpl; ring.
Qed.

Lemma roundTrip_tiny (a e d : R) (camera : PerspectiveCamera) :
  unitQuaternion (quaternion camera) -> 0 <= d < 1 / 10000 ->
  roundTrip a e d camera = Ok (mkSpherical 0 0 0).
Proof.
  intros Hunit Hd. unfold roundTrip.
  destruct (sphericalToCartesian (JS.Number a) e d camera) as [p|err] eqn:E.
  - apply (sphericalToCartesian_length camera Hunit) in E.
    rewrite Rabs_right in E by lra.
    f_equal. unfold cartesianToSpherical.
    replace (vec3 (x p) (y p) (z p)) with p by (destruct p; reflexivity).
    rewrite E. destruct (Rlt_dec d (1 / 10000)); [reflexivity|lra].
  - destruct (sphericalToCartesian_number camera Hunit a e d) as [az [_ E']].
    congruence.
Qed.

Lemma inv_sqrt2_sq : / sqrt 2 * / sqrt 2 = / 2.
Proof.
  rewrite <- Rinv_mult. rewrite sqrt_sqrt by lra. reflexivity.
Qed.

Lemma lookingDown_unit : unitQuaternion (quaternion lookingDown).
Proof.
  unfold unitQuaternion, lookingDown; simpl. pose proof inv_sqrt2_sq. nra.
Qed.

Lemma lookingDown_forward : getCameraForward lookingDown = vec3 0 (-1) 0.
Proof.
  unfold getCameraForward.
  rewrite normalize_unit by (apply forward_raw_unit, lookingDown_unit).
  unfold applyQuaternion, lookingDown; simpl. pose proof inv_sqrt2_sq.
  f_equal; nra.
Qed.

Lemma lookingDown_right : getCameraRight lookingDown = vec3 1 0 0.
Proof.
  unfold getCameraRight.
  rewrite normalize_unit by (apply right_raw_unit, lookingDown_unit).
  unfold applyQuaternion, lookingDown; simpl.
  f_equal; ring.
Qed.

Lemma length_zero_vector (a b c : R) : a = 0 -> b = 0 -> c = 0 -> length (vec3 a b c) = 0.
Proof.
  intros -> -> ->. unfold length, lengthSq; simpl.
  replace (0 * 0 + 0 * 0 + 0 * 0) with 0 by ring. apply sqrt_0.
Qed.

Lemma lookingDown_horizontalPlaneDir :
  horizontalPlaneDir (degToRad 0) lookingDown = vec3 1 0 0.
Proof.
  unfold horizontalPlaneDir. rewrite lookingDown_forward, lookingDown_right.
  replace (degToRad 0) with 0 by (unfold degToRad; ring).
  rewrite cos_0, sin_0. rewrite !projectHorizontal_eq. simpl.
  rewrite !length_zero_vector by ring.
  destruct (Rgt_dec 0 (1 / 10000)); [lra|].
  apply normalize_unit. unfold lengthSq; simpl. ring.
Qed.

Lemma roundTrip_lookingDown : roundTrip 0 0 1 lookingDown = Ok (mkSpherical 90 0 1).
Proof.
  rewrite roundTrip_polar by (try apply lookingDown_unit; lra).
  replace (cos (degToRad 0)) with 1
    by (replace (degToRad 0) with 0 by (unfold degToRad; ring); symmetry; apply cos_0).
  destruct (Rgt_dec 1 (1 / 10000)); [|lra].
  rewrite lookingDown_horizontalPlaneDir. unfold readAzimuth.
  rewrite lookingDown_forward, lookingDown_right. unfold dot; simpl.
  replace (1 * 1 + 0 * 0 + 0 * 0) with 1 by ring.
  replace (1 * 0 + 0 * -1 + 0 * 0) with 0 by ring.
  unfold JS.atan2.
  destruct (Rlt_dec 0 0); [lra|]. destruct (Rlt_dec 0 1); [|lra].
  pose proof PI_RGT_0.
  replace (radToDeg (PI / 2)) with 90 by (unfold radToDeg; field; lra).
  destruct (Rlt_dec 90 0); [lra|reflexivity].
Qed.

(** * The light rig *)

Section LightRig.
Context {host : Host}.
Import AreaLight.

Lemma cartesianToSpherical_distance (px py pz : R) (camera : PerspectiveCamera) :
  distance (cartesianToSpherical px py pz camera) =
  if Rlt_dec (length (vec3 px py pz)) (1 / 10000) then 0 else length (vec3 px py pz).
Proof.
  unfold cartesianToSpherical.
  destruct (Rlt_dec _ _); [reflexivity|].
  destruct (Rgt_dec _ _); reflexivity.
Qed.

Lemma vec3_eta (p : Vector3) : vec3 (x p) (y p) (z p) = p.
Proof. destruct p; reflexivity. Qed.

Lemma getPositionSpherical_distance (l : AreaLight.t host) (g : Object3D)
    (camera : PerspectiveCamera) :
  parentGroup l = Some g ->
  distance (getPositionSpherical (Some camera) l) =
  if Rlt_dec (pivotDistance l) (1 / 10000) then 0 else pivotDistance l.
Proof.
  intros Hg. unfold getPositionSpherical, pivotDistance. rewrite Hg.
  destruct (areaLight l) as [light|].
  - rewrite cartesianToSpherical_distance, vec3_eta. reflexivity.
  - simpl. destruct (Rlt_dec 0 (1 / 10000)); [reflexivity|lra].
Qed.

Lemma pivotDistance_light (l : AreaLight.t host) :
  pivotDistance l > 0 -> exists light, areaLight l = Some light.
Proof.
  unfold pivotDistance. destruct (areaLight l) as [light|]; [eauto|lra].
Qed.

(** Where [setPositionSpherical] puts a light that has its objects. *)
Lemma setPositionSpherical_places (l : AreaLight.t host) (light : RectAreaLight host)
    (g : Object3D) (az : JS.Value) (v el : R) (camera : PerspectiveCamera) :
  areaLight l = Some light -> parentGroup l = Some g ->
  unitQuaternion (quaternion camera) ->
  directionToAzimuthAngle az = Some v ->
  let d := if Rgt_dec (length (position light)) (1 / 10000)
           then length (position light) else 1 in
  let p := multiplyScalar (sphericalDirection (degToRad v) (degToRad el) camera) d in
  setPositionSpherical az el (Some camera) l =
  Done (withAreaLight l (lookAt (Some g) (setPosition light p) (targetPosition (type l)))).
Proof.
  intros Hl Hg Hunit Hv d p. unfold setPositionSpherical. rewrite Hl, Hg.
  fold d. rewrite (sphericalToCartesian_valid camera Hunit az v el d Hv). reflexivity.
Qed.

Lemma length_spherical_point (v el d : R) (camera : PerspectiveCamera) :
  unitQuaternion (quaternion camera) -> 0 <= d ->
  length (multiplyScalar (sphericalDirection (degToRad v) (degToRad el) camera) d) = d.
Proof.
  intros Hunit Hd. rewrite length_multiplyScalar.
  rewrite length_unit by (apply sphericalDirection_unit; exact Hunit).
  rewrite Rabs_right by lra. ring.
Qed.

Lemma valid_azimuth (az : JS.Value) :
  directionToAzimuthAngle az <> None -> exists v, directionToAzimuthAngle az = Some v.
Proof. destruct (directionToAzimuthAngle az) as [v|]; [eauto|congruence]. Qed.

Lemma parent_present (l : AreaLight.t host) :
  parentGroup l <> None -> exists g, parentGroup l = Some g.
Proof. destruct (parentGroup l) as [g|]; [eauto|congruence]. Qed.

(** C2, as amended.  For a light whose distance from the pivot exceeds the
    threshold 1e-4, every valid azimuth (a number or a direction name), every
    elevation and every camera, [setPositionSpherical] returns and leaves the
    distance from the pivot unchanged; [getPositionSpherical] reads the same
    distance before and after the call. *)
Theorem setPositionSpherical_preserves_distance
    (l : AreaLight.t host) (az : JS.Value) (el : R) (camera : PerspectiveCamera) :
  parentGroup l <> None ->
  unitQuaternion (quaternion camera) ->
  directionToAzimuthAngle az <> None ->
  pivotDistance l > 1 / 10000 ->
  exists l',
    setPositionSpherical az el (Some camera) l = Done l' /\
    pivotDistance l' = pivotDistance l /\
    distance (getPositionSpherical (Some camera) l') =
    distance (getPositionSpherical (Some camera) l).
Proof.
  intros Hg Hunit Hv Hd.
  destruct (parent_present l Hg) as [g Eg].
  destruct (valid_azimuth az Hv) as [v Ev].
  destruct (pivotDistance_light l) as [light El]; [lra|].
  pose proof (setPositionSpherical_places l light g az v el camera El Eg Hunit Ev) as E.
  cbv zeta in E.
  assert (Hpd : pivotDistance l = length (position light)).
  { unfold pivotDistance. rewrite El. reflexivity. }
  rewrite Hpd in Hd.
  destruct (Rgt_dec (length (position light)) (1 / 10000)) as [_|N]; [|contradiction].
  eexists. split; [exact E|].
  assert (Hnew : pivotDistance
                   (withAreaLight l
                      (lookAt (Some g)
                         (setPosition light
                            (multiplyScalar
                               (sphericalDirection (degToRad v) (degToRad el) camera)
                               (length (position light))))
                         (targetPosition (type l)))) = pivotDistance l).
  { rewrite Hpd. unfold pivotDistance; simpl.
    apply length_spherical_point; [exact Hunit | apply length_nonneg]. }
  split; [exact Hnew|].
  rewrite (getPositionSpherical_distance _ g) by (simpl; exact Eg).
  rewrite (getPositionSpherical_distance l g) by exact Eg.
  rewrite Hnew. reflexivity.
Qed.

Lemma setPositionSpherical_at_pivot
    (l : AreaLight.t host) (light : RectAreaLight host) (az : JS.Value) (el : R)
    (camera : PerspectiveCamera) :
  areaLight l = Some light ->
  parentGroup l <> None ->
  unitQuaternion (quaternion camera) ->
  directionToAzimuthAngle az <> None ->
  length (position light) <= 1 / 10000 ->
  exists l' light',
    setPositionSpherical az el (Some camera) l = Done l' /\
    areaLight l' = Some light' /\
    parentGroup l' = parentGroup l /\
    sphericalToCartesian az el 1 camera = Ok (position light') /\
    length (position light') = 1.
Proof.
  intros El Hg Hunit Hv Hd.
  destruct (parent_present l Hg) as [g Eg].
  destruct (valid_azimuth az Hv) as [v Ev].
  pose proof (setPositionSpherical_places l light g az v el camera El Eg Hunit Ev) as E.
  cbv zeta in E.
  destruct (Rgt_dec (length (position light)) (1 / 10000)) as [G|_]; [lra|].
  do 2 eexists. split; [exact E|]. split; [reflexivity|]. split; [reflexivity|].
  simpl. split.
  - apply sphericalToCartesian_valid; assumption.
  - apply length_spherical_point; [exact Hunit | lra].
Qed.

End LightRig.

Section Dolly.
Context {host : Host}.
Import AreaLight.

Lemma normalize_scaled (u : Vector3) (r : R) :
  lengthSq u = 1 -> 0 < r -> normalize (multiplyScalar u r) = u.
Proof.
  intros Hu Hr. unfold normalize. rewrite length_multiplyScalar, (length_unit u Hu).
  rewrite Rabs_right by lra. unfold orOne.
  destruct (Req_EM_T (1 * r) 0); [lra|].
  destruct u as [a b c]; unfold multiplyScalar; simpl. f_equal; field; lra.
Qed.

Lemma scale_normalize (p : Vector3) :
  length p <> 0 -> multiplyScalar (normalize p) (length p) = p.
Proof.
  intros H. unfold normalize, orOne.
  destruct (Req_EM_T (length p) 0) as [E0|_]; [contradiction|].
  destruct p as [a b c]; unfold multiplyScalar; simpl.
  set (len := length (vec3 a b c)) in *. f_equal; field; exact H.
Qed.

(** One dolly step of a light that sits at [r] times the unit vector [u],
    with [r] above the threshold. *)
Lemma dolly_radial (l : AreaLight.t host) (light : RectAreaLight host) (u : Vector3)
    (r delta : R) :
  areaLight l = Some light -> parentGroup l <> None ->
  lengthSq u = 1 -> r > 1 / 10000 -> position light = multiplyScalar u r ->
  exists light',
    areaLight (dolly delta l) = Some light' /\
    parentGroup (dolly delta l) = parentGroup l /\
    position light' = multiplyScalar u (r + delta).
Proof.
  intros El Hg Hu Hr Hp. destruct (parentGroup l) as [g|] eqn:Eg; [|congruence].
  unfold dolly. rewrite El, Eg, Hp.
  rewrite length_multiplyScalar, (length_unit u Hu), Rabs_right by lra.
  destruct (Rgt_dec (1 * r) (1 / 10000)) as [_|N]; [|lra].
  rewrite normalize_scaled by (assumption || lra).
  eexists. split; [reflexivity|]. split; [simpl; exact Eg|]. simpl.
  destruct u as [a b c]; unfold add, multiplyScalar; simpl. f_equal; ring.
Qed.

(** C3, as amended.  For a light at distance D above the threshold 1e-4,
    with D + d1 above the threshold too and D + d1 + d2 >= 0, [dolly(d1)]
    then [dolly(d2)] puts the light at D + d1 + d2 times the unit vector of
    its first position: the distance from the pivot is D + d1 + d2, and the
    radial direction is unchanged when that distance is positive. *)
Theorem dolly_twice (l : AreaLight.t host) (light : RectAreaLight host) (d1 d2 : R) :
  areaLight l = Some light -> parentGroup l <> None ->
  let D := length (position light) in
  D > 1 / 10000 -> D + d1 > 1 / 10000 -> 0 <= D + d1 + d2 ->
  exists light2,
    areaLight (dolly d2 (dolly d1 l)) = Some light2 /\
    position light2 = multiplyScalar (normalize (position light)) (D + d1 + d2) /\
    length (position light2) = D + d1 + d2 /\
    (0 < D + d1 + d2 -> normalize (position light2) = normalize (position light)).
Proof.
  intros El Hg D HD H1 H2.
  assert (Hu : lengthSq (normalize (position light)) = 1).
  { apply lengthSq_normalize. fold D. lra. }
  assert (Hp : position light = multiplyScalar (normalize (position light)) D).
  { symmetry. apply scale_normalize. fold D. lra. }
  destruct (dolly_radial l light _ D d1 El Hg Hu HD Hp) as [light1 [E1 [G1 P1]]].
  assert (Hg1 : parentGroup (dolly d1 l) <> None) by (rewrite G1; exact Hg).
  destruct (dolly_radial (dolly d1 l) light1 _ (D + d1) d2 E1 Hg1 Hu H1 P1)
    as [light2 [E2 [_ P2]]].
  exists light2. split; [exact E2|]. split; [exact P2|]. split.
  - rewrite P2, length_multiplyScalar, (length_unit _ Hu), Rabs_right by lra. ring.
  - intros Hpos. rewrite P2. apply normalize_scaled; assumption.
Qed.

End Dolly.

Section LightExamples.
Import AreaLight.

Lemma length_gt (v : Vector3) (c : R) : 0 <= c -> c * c < lengthSq v -> length v > c.
Proof.
  intros Hc H. unfold length.
  pose proof (sqrt_lt_1_alt (c * c) (lengthSq v)) as S.
  rewrite (sqrt_square c Hc) in S. apply Rlt_gt, S. split; [nra | exact H].
Qed.

Lemma length_axis (a : R) : 0 <= a -> length (vec3 a 0 0) = a.
Proof.
  intros H. unfold length, lengthSq; simpl.
  replace (a * a + 0 * 0 + 0 * 0) with (a * a) by ring. apply sqrt_square, H.
Qed.

Lemma length_neg_axis (a : R) : 0 <= a -> length (vec3 (- a) 0 0) = a.
Proof.
  intros H. unfold length, lengthSq; simpl.
  replace (- a * - a + 0 * 0 + 0 * 0) with (a * a) by ring. apply sqrt_square, H.
Qed.

Lemma keyLightExample_distance : pivotDistance keyLightExample > 1 / 10000.
Proof.
  unfold pivotDistance; simpl. apply length_gt; [lra|].
  unfold lengthSq; simpl. lra.
Qed.

Lemma appCamera_unit : unitQuaternion (quaternion appCamera).
Proof. apply identity_unit. Qed.

Lemma appCamera_level : levelCamera appCamera.
Proof. apply identity_level. Qed.

Lemma lightOnXAxis_dolly :
  exists light,
    areaLight (dolly 3 (dolly (-2) lightOnXAxis)) = Some light /\
    position light = vec3 (-4) 0 0.
Proof.
  assert (Hu : lengthSq (vec3 1 0 0) = 1) by (unfold lengthSq; simpl; ring).
  assert (Hu' : lengthSq (vec3 (-1) 0 0) = 1) by (unfold lengthSq; simpl; ring).
  destruct (areaLight lightOnXAxis) as [li|] eqn:Eli; [|discriminate Eli].
  assert (Pli : position li = vec3 1 0 0) by (inversion Eli; reflexivity).
  destruct (dolly_radial lightOnXAxis li (vec3 1 0 0) 1 (-2))
    as [light1 [E1 [G1 P1]]].
  - exact Eli.
  - simpl. discriminate.
  - exact Hu.
  - lra.
  - rewrite Pli. unfold multiplyScalar; simpl. f_equal; ring.
  - assert (P1' : position light1 = multiplyScalar (vec3 (-1) 0 0) 1).
    { rewrite P1. unfold multiplyScalar; simpl. f_equal; ring. }
    destruct (dolly_radial (dolly (-2) lightOnXAxis) light1 (vec3 (-1) 0 0) 1 3)
      as [light2 [E2 [_ P2]]].
    + exact E1.
    + rewrite G1. simpl. discriminate.
    + exact Hu'.
    + lra.
    + exact P1'.
    + exists light2. split; [exact E2|]. rewrite P2.
      unfold multiplyScalar; simpl. f_equal; ring.
Qed.

End LightExamples.

Section TowardDirection.
Import AreaLight.

Ltac split_dec :=
  repeat match goal with
    | |- context [Rgt_dec ?a ?b] => destruct (Rgt_dec a b)
    | |- context [Rlt_dec ?a ?b] => destruct (Rlt_dec a b)
    | |- context [Rle_dec ?a ?b] => destruct (Rle_dec a b)
    end.

Lemma shortestDiff_cases (t c : R) :
  0 <= c < 360 -> -180 <= t <= 540 ->
  -180 <= shortestDiff t c <= 180 /\
  (shortestDiff t c = t - c \/ shortestDiff t c = t - c - 360 \/
   shortestDiff t c = t - c + 360).
Proof.
  intros Hc Ht. unfold shortestDiff. split_dec; split; try lra; auto.
Qed.

Lemma sign_cases (v : R) :
  (0 < v /\ JS.sign v = 1) \/ (v < 0 /\ JS.sign v = -1) \/ (v = 0 /\ JS.sign v = 0).
Proof.
  unfold JS.sign. split_dec; [left | right; left | right; right]; split; lra.
Qed.

Lemma rem_360_window (v : R) :
  0 <= v < 1080 ->
  0 <= JS.rem v 360 < 360 /\
  (JS.rem v 360 = v \/ JS.rem v 360 = v - 360 \/ JS.rem v 360 = v - 720).
Proof.
  intros Hv.
  destruct (Rlt_dec v 360); [rewrite rem_small by lra; lra|].
  destruct (Rlt_dec v 720); [rewrite rem_once by lra; lra|].
  rewrite rem_twice by lra. lra.
Qed.

Lemma movedAzimuth_spec (t c deg : R) :
  0 <= c < 360 -> -180 <= t <= 540 -> 0 <= deg ->
  let diff := shortestDiff t c in
  let new := movedAzimuth t c deg in
  0 <= new < 360 /\
  (exists k : Z, new = c + JS.sign diff * Rmin (Rabs diff) deg + 360 * IZR k) /\
  (Rabs diff <= deg ->
   (exists k : Z, new = t + 360 * IZR k) /\ (0 <= t < 360 -> new = t)) /\
  (deg < Rabs diff ->
   shortestDiff t new = diff - JS.sign diff * deg /\
   Rabs (shortestDiff t new) = Rabs diff - deg).
Proof.
  intros Hc Ht Hdeg diff new.
  destruct (shortestDiff_cases t c Hc Ht) as [Hr Hk]. fold diff in Hr, Hk.
  assert (Hmin : 0 <= Rmin (Rabs diff) deg <= 180).
  { pose proof (Rabs_pos diff). pose proof (Rmin_l (Rabs diff) deg).
    assert (Rabs diff <= 180) by (apply Rabs_le; lra).
    split; [apply Rmin_glb; lra | lra]. }
  assert (Hmove : -180 <= JS.sign diff * Rmin (Rabs diff) deg <= 180).
  { destruct (sign_cases diff) as [[_ E]|[[_ E]|[_ E]]]; rewrite E; lra. }
  destruct (rem_360_window (c + JS.sign diff * Rmin (Rabs diff) deg + 360)) as [Hn Hcase];
    [lra|].
  fold diff in Hn, Hcase. change (JS.rem (c + JS.sign diff * Rmin (Rabs diff) deg + 360) 360)
    with new in Hn, Hcase.
  split; [exact Hn|]. split.
  { destruct Hcase as [E|[E|E]].
    - exists 1%Z. rewrite E. ring.
    - exists 0%Z. rewrite E. ring.
    - exists (-1)%Z. rewrite E. simpl. ring. }
  split.
  - intros Hle. rewrite Rmin_left in Hcase, Hmove by exact Hle.
    assert (Es : JS.sign diff * Rabs diff = diff).
    { destruct (sign_cases diff) as [[P E]|[[P E]|[P E]]]; rewrite E.
      - rewrite Rabs_right by lra. ring.
      - rewrite Rabs_left by lra. ring.
      - rewrite P. ring. }
    rewrite Es in Hcase. split; [|intros Hin; lra].
    destruct Hk as [K|[K|K]]; destruct Hcase as [E|[E|E]];
      first [ exists 0%Z; lra | exists 1%Z; lra | exists (-1)%Z; lra
            | exists 2%Z; lra | exists (-2)%Z; lra ].
  - intros Hlt. rewrite Rmin_right in Hcase, Hmove by lra.
    assert (Hrem : -180 <= diff - JS.sign diff * deg <= 180 /\
                   Rabs (diff - JS.sign diff * deg) = Rabs diff - deg /\
                   (deg = 0 \/ -180 < diff - JS.sign diff * deg < 180)).
    { destruct (sign_cases diff) as [[P E]|[[P E]|[P E]]]; rewrite E.
      - rewrite (Rabs_right diff) in * by lra.
        rewrite Rabs_right by lra. split; [lra|]. split; [ring|].
        destruct (Req_EM_T deg 0); [left; assumption | right; lra].
      - rewrite (Rabs_left diff) in * by lra.
        rewrite Rabs_left by lra. split; [lra|]. split; [ring|].
        destruct (Req_EM_T deg 0); [left; assumption | right; lra].
      - rewrite P in Hlt. rewrite Rabs_R0 in Hlt. lra. }
    destruct Hrem as [Hb [Ha Hopen]].
    assert (Ed : shortestDiff t new = diff - JS.sign diff * deg).
    { destruct Hopen as [Z0|Hopen].
      - (* no move at all *)
        subst deg. rewrite Rmult_0_r in *.
        assert (new = c) by lra.
        replace new with c by congruence. fold diff. ring.
      - destruct (shortestDiff_cases t new Hn Ht) as [Hr' Hk'].
        destruct Hk as [K|[K|K]]; destruct Hcase as [E|[E|E]];
          destruct Hk' as [K'|[K'|K']]; lra. }
    split; [exact Ed|]. rewrite Ed. exact Ha.
Qed.

End TowardDirection.

Section Ranges.

Lemma atan_nonpos (v : R) : v <= 0 -> atan v <= 0.
Proof.
  intros [H|H].
  - apply Rlt_le. rewrite <- atan_0. apply atan_increasing. exact H.
  - subst v. rewrite atan_0. lra.
Qed.

Lemma atan_pos (v : R) : 0 < v -> 0 < atan v.
Proof. intros H. rewrite <- atan_0. apply atan_increasing. exact H. Qed.

Lemma atan2_range (b a : R) : - PI < JS.atan2 b a <= PI.
Proof.
  pose proof PI_RGT_0 as HPI. unfold JS.atan2.
  destruct (Rlt_dec 0 a) as [Ha|Ha].
  - pose proof (atan_bound (b / a)). lra.
  - destruct (Rlt_dec a 0) as [Ha'|Ha'].
    + pose proof (atan_bound (b / a)) as B.
      destruct (Rle_dec 0 b) as [Hb|Hb].
      * assert (b / a <= 0).
        { pose proof (Rinv_lt_0_compat a Ha'). unfold Rdiv. nra. }
        pose proof (atan_nonpos (b / a) H). lra.
      * assert (0 < b / a).
        { pose proof (Rinv_lt_0_compat a Ha'). unfold Rdiv. nra. }
        pose proof (atan_pos (b / a) H). lra.
    + destruct (Rlt_dec 0 b); [lra|]. destruct (Rlt_dec b 0); lra.
Qed.

Lemma cartesianToSpherical_azimuth_range (px py pz : R) (camera : PerspectiveCamera) :
  0 <= azimuth (cartesianToSpherical px py pz camera) < 360.
Proof.
  unfold cartesianToSpherical.
  destruct (Rlt_dec _ _); [simpl; lra|].
  destruct (Rgt_dec _ _); [|simpl; lra]. simpl.
  match goal with |- context [JS.atan2 ?b ?a] =>
    pose proof (atan2_range b a) as H; set (t := JS.atan2 b a) in *
  end.
  pose proof PI_RGT_0 as HPI.
  assert (Hd : -180 < radToDeg t <= 180).
  { unfold radToDeg. split.
    - apply Rmult_lt_reg_r with (PI / 180); [apply Rdiv_lt_0_compat; lra|].
      replace (t * (180 / PI) * (PI / 180)) with t by (field; lra). lra.
    - apply Rmult_le_reg_r with (PI / 180); [apply Rdiv_lt_0_compat; lra|].
      replace (t * (180 / PI) * (PI / 180)) with t by (field; lra). lra. }
  destruct (Rlt_dec (radToDeg t) 0); lra.
Qed.

Lemma cartesianToSpherical_elevation_range (px py pz : R) (camera : PerspectiveCamera) :
  -90 <= elevation (cartesianToSpherical px py pz camera) <= 90.
Proof.
  unfold cartesianToSpherical.
  destruct (Rlt_dec _ _); [simpl; lra|].
  assert (H : forall v, -90 <= radToDeg (asin v) <= 90).
  { intros v. pose proof (asin_bound v) as B. pose proof PI_RGT_0 as HPI.
    unfold radToDeg.
    assert (Hk : 0 < 180 / PI) by (apply Rdiv_lt_0_compat; lra).
    replace 90 with (PI / 2 * (180 / PI)) by (field; lra).
    replace (-90) with (- (PI / 2) * (180 / PI)) by (field; lra).
    split; apply Rmult_le_compat_r; lra. }
  destruct (Rgt_dec _ _); simpl; apply H.
Qed.

Lemma rem_360_range (d : R) :
  let r := JS.rem d 360 in
  0 <= (if Rlt_dec r 0 then r + 360 else r) < 360.
Proof.
  unfold JS.rem, JS.trunc.
  destruct (Rle_dec 0 (d / 360)) as [Hq|Hq].
  - destruct (base_Int_part (d / 360)) as [B1 B2].
    set (k := IZR (Int_part (d / 360))) in *.
    assert (360 * k <= d < 360 * k + 360) by lra.
    destruct (Rlt_dec (d - 360 * k) 0); lra.
  - destruct (base_Int_part (- (d / 360))) as [B1 B2].
    rewrite opp_IZR.
    set (k := IZR (Int_part (- (d / 360)))) in *.
    assert (360 * k <= - d < 360 * k + 360) by lra.
    destruct (Rlt_dec (d - 360 * - k) 0); lra.
Qed.

Lemma directionToAzimuth_range (name : string) (t : R) :
  mapGet directionToAzimuth name = Some t -> 0 <= t < 360.
Proof.
  unfold directionToAzimuth, mapGet.
  repeat match goal with
    | |- (if ?b then _ else _) = _ -> _ =>
        destruct b; [intros E; inversion E; lra|]
    end.
  discriminate.
Qed.

Lemma directionToAzimuthAngle_range (direction : JS.Value) (t : R) :
  directionToAzimuthAngle direction = Some t -> 0 <= t < 360.
Proof.
  destruct direction as [d|s|]; unfold directionToAzimuthAngle.
  - intros E. inversion E. apply rem_360_range.
  - destruct (normalizeDirectionName (JS.Str s)) as [n|]; [|discriminate].
    destruct (String.eqb n ""); [discriminate|]. apply directionToAzimuth_range.
  - discriminate.
Qed.

End Ranges.

Section TowardDirectionLight.
Context {host : Host}.
Import AreaLight.

Lemma getPositionSpherical_azimuth_range (camera : option PerspectiveCamera)
    (l : AreaLight.t host) :
  0 <= azimuth (getPositionSpherical camera l) < 360.
Proof.
  unfold getPositionSpherical.
  destruct (areaLight l), (parentGroup l), camera;
    try apply cartesianToSpherical_azimuth_range; simpl; lra.
Qed.

Lemma getPositionSpherical_elevation_range (camera : option PerspectiveCamera)
    (l : AreaLight.t host) :
  -90 <= elevation (getPositionSpherical camera l) <= 90.
Proof.
  unfold getPositionSpherical.
  destruct (areaLight l), (parentGroup l), camera;
    try apply cartesianToSpherical_elevation_range; simpl; lra.
Qed.

(** Reading back a point that sits at given spherical coordinates, for a
    level camera. *)
Lemma spherical_point_readback (a e d : R) (camera : PerspectiveCamera) :
  unitQuaternion (quaternion camera) -> levelCamera camera ->
  0 <= a < 360 -> -90 <= e <= 90 -> cos (degToRad e) > 1 / 10000 -> 1 / 10000 <= d ->
  let p := multiplyScalar (sphericalDirection (degToRad a) (degToRad e) camera) d in
  cartesianToSpherical (x p) (y p) (z p) camera = mkSpherical a e d.
Proof.
  intros Hunit Hlevel Ha He Hce Hd p.
  pose proof (roundTrip_level a e d camera Hunit Hlevel Ha He Hce Hd) as E.
  unfold roundTrip in E.
  rewrite (sphericalToCartesian_valid camera Hunit (JS.Number a) a e d) in E
    by (apply directionToAzimuthAngle_in_range; exact Ha).
  inversion E. reflexivity.
Qed.

Lemma moveTowardDirection_unfold (l : AreaLight.t host) (camera : PerspectiveCamera)
    (target : JS.Value) (t deg : R) :
  ready (Some camera) l = true ->
  targetAzimuthNum (host := host) target = Some t ->
  let current := getPositionSpherical (Some camera) l in
  moveTowardDirection target (Some deg) (Some camera) l =
  setPositionSpherical (JS.Number (movedAzimuth t (azimuth current) deg))
    (elevation current) (Some camera) l.
Proof.
  intros Hr Ht current. unfold moveTowardDirection.
  rewrite Hr, Ht. reflexivity.
Qed.

Lemma targetAzimuthNum_resolved (target : JS.Value) (t : R) :
  directionToAzimuthAngle target = Some t ->
  targetAzimuthNum (host := host) target = Some t.
Proof.
  intros Ht. unfold targetAzimuthNum. rewrite Ht. reflexivity.
Qed.

End TowardDirectionLight.

Section Readback.
Context {host : Host}.
Import AreaLight.

Lemma setPositionSpherical_readback (l : AreaLight.t host) (light : RectAreaLight host)
    (g : Object3D) (a e : R) (camera : PerspectiveCamera) :
  areaLight l = Some light -> parentGroup l = Some g ->
  unitQuaternion (quaternion camera) -> levelCamera camera ->
  0 <= a < 360 -> -90 <= e <= 90 -> cos (degToRad e) > 1 / 10000 ->
  length (position light) > 1 / 10000 ->
  exists l',
    setPositionSpherical (JS.Number a) e (Some camera) l = Done l' /\
    ready (Some camera) l' = true /\
    getPositionSpherical (Some camera) l' = mkSpherical a e (length (position light)).
Proof.
  intros El Eg Hunit Hlevel Ha He Hce Hd.
  pose proof (setPositionSpherical_places l light g (JS.Number a) a e camera El Eg Hunit
                (directionToAzimuthAngle_in_range a Ha)) as E.
  cbv zeta in E.
  destruct (Rgt_dec (length (position light)) (1 / 10000)) as [_|N]; [|contradiction].
  eexists. split; [exact E|]. split.
  - unfold ready; simpl. rewrite Eg. reflexivity.
  - unfold getPositionSpherical, withAreaLight, lookAt, setPosition.
    cbn [areaLight parentGroup position]. rewrite Eg.
    apply spherical_point_readback; try assumption.
    apply Rlt_le, Hd.
Qed.

End Readback.

Lemma not_within_azimuth (tol : R) (s1 s2 : Spherical) :
  tol < azimuth s2 - azimuth s1 -> ~ within tol s1 s2.
Proof.
  intros H [Ha _]. unfold Rabs in Ha. destruct (Rcase_abs _); lra.
Qed.

Lemma not_within_azimuth' (tol : R) (s1 s2 : Spherical) :
  tol < azimuth s1 - azimuth s2 -> ~ within tol s1 s2.
Proof.
  intros H [Ha _]. unfold Rabs in Ha. destruct (Rcase_abs _); lra.
Qed.

(** * The claims on the coordinate engine *)

(** C1, as amended.  For a camera that is level (no pitch, no roll), every
    azimuth in [0,360), every elevation in [0,90] whose cosine exceeds the
    threshold 1e-4 (the light is not overhead) and every distance of at least
    1e-4, converting to Cartesian and back returns the same azimuth, elevation
    and distance: exactly over the real numbers, hence within 1e-3. *)
Theorem roundTrip_level_camera (a e d : R) (camera : PerspectiveCamera) :
  unitQuaternion (quaternion camera) -> levelCamera camera ->
  0 <= a < 360 -> 0 <= e <= 90 -> cos (degToRad e) > 1 / 10000 -> 1 / 10000 <= d ->
  exists s,
    roundTrip a e d camera = Ok s /\
    s = mkSpherical a e d /\
    within (1 / 1000) s (mkSpherical a e d).
Proof.
  intros Hunit Hlevel Ha He Hce Hd.
  exists (mkSpherical a e d). split; [|split].
  - apply roundTrip_level; try assumption. lra.
  - reflexivity.
  - apply within_refl. lra.
Qed.

Lemma degToRad_60 : degToRad 60 = PI / 3.
Proof. unfold degToRad. field. Qed.

Lemma cos_60_above_threshold : cos (degToRad 60) > 1 / 10000.
Proof. rewrite degToRad_60, cos_PI3. lra. Qed.

Lemma roundTrip_level_camera_witness :
  exists s,
    roundTrip 90 60 8 appCamera = Ok s /\
    s = mkSpherical 90 60 8 /\
    within (1 / 1000) s (mkSpherical 90 60 8).
Proof.
  apply (roundTrip_level_camera 90 60 8 appCamera).
  - apply appCamera_unit.
  - apply appCamera_level.
  - lra.
  - lra.
  - apply cos_60_above_threshold.
  - lra.
Defined.

(** C1 fails as stated: straight overhead the azimuth comes back as 0; for a
    camera that looks straight down azimuth 0 comes back as 90; and below the
    distance threshold everything comes back as 0. *)
Lemma roundTrip_counterexample :
  (roundTrip 45 90 1 appCamera = Ok (mkSpherical 0 90 1) /\
   ~ within (1 / 1000) (mkSpherical 0 90 1) (mkSpherical 45 90 1)) /\
  (unitQuaternion (quaternion lookingDown) /\
   roundTrip 0 0 1 lookingDown = Ok (mkSpherical 90 0 1) /\
   ~ within (1 / 1000) (mkSpherical 90 0 1) (mkSpherical 0 0 1)) /\
  (roundTrip 45 0 (1 / 100000) appCamera = Ok (mkSpherical 0 0 0) /\
   ~ within (1 / 1000) (mkSpherical 0 0 0) (mkSpherical 45 0 (1 / 100000))).
Proof.
  split; [|split].
  - split.
    + apply roundTrip_overhead; [apply appCamera_unit | lra | lra].
    + apply not_within_azimuth. simpl. lra.
  - split; [apply lookingDown_unit|]. split.
    + apply roundTrip_lookingDown.
    + apply not_within_azimuth'. simpl. lra.
  - split.
    + apply roundTrip_tiny; [apply appCamera_unit | lra].
    + apply not_within_azimuth. simpl. lra.
Qed.

(** * The claims on the light rig *)

Section LightClaims.
Import AreaLight.

Lemma setPositionSpherical_preserves_distance_witness :
  exists l',
    setPositionSpherical (JS.Number 90) 45 (Some appCamera) keyLightExample = Done l' /\
    pivotDistance l' = pivotDistance keyLightExample /\
    distance (getPositionSpherical (Some appCamera) l') =
    distance (getPositionSpherical (Some appCamera) keyLightExample).
Proof.
  apply (setPositionSpherical_preserves_distance keyLightExample (JS.Number 90) 45 appCamera).
  - simpl. discriminate.
  - apply appCamera_unit.
  - simpl. discriminate.
  - apply keyLightExample_distance.
Defined.

Lemma lightAtPivot_distance : pivotDistance lightAtPivot = 0.
Proof. unfold pivotDistance; simpl. apply length_zero_vector; reflexivity. Qed.

(** C2 fails as stated for a light on the pivot: the distance read back is 0
    before the call and 1 after it. *)
Lemma setPositionSpherical_counterexample :
  distance (getPositionSpherical (Some appCamera) lightAtPivot) = 0 /\
  exists l',
    setPositionSpherical (JS.Number 90) 45 (Some appCamera) lightAtPivot = Done l' /\
    distance (getPositionSpherical (Some appCamera) l') = 1.
Proof.
  split.
  - rewrite (getPositionSpherical_distance lightAtPivot
               (mkObject3D CONFIG.MODEL.ORIGIN (euler 0 0 0))) by reflexivity.
    rewrite lightAtPivot_distance.
    destruct (Rlt_dec 0 (1 / 10000)); [reflexivity|lra].
  - destruct (areaLight lightAtPivot) as [li|] eqn:Eli; [|discriminate Eli].
    assert (Pli : position li = vec3 0 0 0) by (inversion Eli; reflexivity).
    destruct (setPositionSpherical_at_pivot lightAtPivot li (JS.Number 90) 45 appCamera)
      as [l' [light' [E [El' [Hg [_ Hlen]]]]]].
    + exact Eli.
    + simpl. discriminate.
    + apply appCamera_unit.
    + simpl. discriminate.
    + rewrite Pli, length_zero_vector by reflexivity. lra.
    + exists l'. split; [exact E|].
      rewrite (getPositionSpherical_distance l' _ appCamera Hg).
      unfold pivotDistance. rewrite El', Hlen.
      destruct (Rlt_dec 1 (1 / 10000)); [lra|reflexivity].
Qed.



Lemma keyLightExample_far : pivotDistance keyLightExample > 2.
Proof.
  unfold pivotDistance; simpl. apply length_gt; [lra|].
  unfold lengthSq; simpl. lra.
Qed.

Lemma dolly_twice_witness :
  exists light2,
    areaLight (dolly (-2) (dolly 1 keyLightExample)) = Some light2 /\
    position light2 =
    multiplyScalar (normalize (vec3 (5 - 0) (3 - - (5 / 10)) (5 - 0)))
      (length (vec3 (5 - 0) (3 - - (5 / 10)) (5 - 0)) + 1 + -2) /\
    length (position light2) = length (vec3 (5 - 0) (3 - - (5 / 10)) (5 - 0)) + 1 + -2 /\
    (0 < length (vec3 (5 - 0) (3 - - (5 / 10)) (5 - 0)) + 1 + -2 ->
     normalize (position light2) = normalize (vec3 (5 - 0) (3 - - (5 / 10)) (5 - 0))).
Proof.
  pose proof keyLightExample_far as Hfar. unfold pivotDistance in Hfar; simpl in Hfar.
  refine (dolly_twice keyLightExample _ 1 (-2) eq_refl _ _ _ _).
  - simpl. discriminate.
  - simpl. lra.
  - simpl. lra.
  - simpl. lra.
Defined.

(** C3 fails as stated when the first step passes through the pivot: from
    distance 1, [dolly(-2)] then [dolly(3)] ends at distance 4 on the
    opposite side, while 1 + -2 + 3 is 2. *)
Lemma dolly_twice_counterexample :
  pivotDistance lightOnXAxis = 1 /\
  0 <= 1 + -2 + 3 /\
  exists light,
    areaLight (dolly 3 (dolly (-2) lightOnXAxis)) = Some light /\
    position light = vec3 (-4) 0 0 /\
    length (position light) = 4 /\
    length (position light) <> 1 + -2 + 3.
Proof.
  split; [|split].
  - unfold pivotDistance; simpl. apply length_axis. lra.
  - lra.
  - destruct lightOnXAxis_dolly as [light [E P]].
    exists light. split; [exact E|]. split; [exact P|].
    assert (L : length (position light) = 4).
    { rewrite P. replace (-4) with (- 4) by ring. apply length_neg_axis. lra. }
    split; [exact L|]. rewrite L. lra.
Qed.

End LightClaims.

Section TowardDirectionClaim.
Import AreaLight.

Lemma shortestDiff_200_190 : shortestDiff 200 190 = 10.
Proof.
  unfold shortestDiff. repeat (destruct (Rgt_dec _ _) || destruct (Rlt_dec _ _)); lra.
Qed.



(** The key light as constructed is off the pivot, and placed at an azimuth
    and elevation 60 for the camera of the application it reads back that
    azimuth, whatever the host. *)
Lemma constructor_key_distance {host : Host} :
  pivotDistance (constructor (host := host) "key") > 1 / 10000.
Proof.
  unfold pivotDistance; simpl. apply length_gt; [lra|].
  unfold lengthSq; simpl. lra.
Qed.

Lemma key_light_placed {host : Host} (a : R) :
  0 <= a < 360 ->
  let l := stateOf (setPositionSpherical (JS.Number a) 60 (Some appCamera)
                      (constructor (host := host) "key")) in
  ready (Some appCamera) l = true /\
  getPositionSpherical (Some appCamera) l =
  mkSpherical a 60 (pivotDistance (constructor (host := host) "key")) /\
  exists light g,
    areaLight l = Some light /\
    parentGroup l = Some g /\
    length (position light) = pivotDistance (constructor (host := host) "key").
Proof.
  intros Ha l.
  destruct (areaLight (constructor (host := host) "key")) as [li|] eqn:Eli;
    [|discriminate Eli].
  assert (Hpd : pivotDistance (constructor (host := host) "key") = length (position li)).
  { unfold pivotDistance. rewrite Eli. reflexivity. }
  pose proof (constructor_key_distance (host := host)) as Hfar. rewrite Hpd in Hfar.
  pose proof (setPositionSpherical_places (constructor (host := host) "key") li
                (mkObject3D CONFIG.MODEL.ORIGIN (euler 0 0 0))
                (JS.Number a) a 60 appCamera Eli eq_refl appCamera_unit
                (directionToAzimuthAngle_in_range a Ha)) as E.
  cbv zeta in E.
  destruct (Rgt_dec (length (position li)) (1 / 10000)) as [_|N]; [|contradiction].
  unfold l. rewrite E. cbn [stateOf]. rewrite Hpd. split; [|split].
  - reflexivity.
  - unfold getPositionSpherical, withAreaLight, lookAt, setPosition.
    cbn [areaLight parentGroup position].
    change (parentGroup (constructor (host := host) "key"))
      with (Some (mkObject3D CONFIG.MODEL.ORIGIN (euler 0 0 0))).
    cbv iota.
    apply spherical_point_readback;
      [apply appCamera_unit | apply appCamera_level | exact Ha | lra
      | apply cos_60_above_threshold | lra].
  - do 2 eexists. split; [reflexivity|]. split; [reflexivity|].
    cbn [position lookAt setPosition].
    apply length_spherical_point; [apply appCamera_unit | lra].
Qed.

Lemma lightAtAzimuth190_placed :
  ready (Some appCamera) lightAtAzimuth190 = true /\
  getPositionSpherical (Some appCamera) lightAtAzimuth190 =
  mkSpherical 190 60 (pivotDistance keyLightExample) /\
  exists light g,
    areaLight lightAtAzimuth190 = Some light /\
    parentGroup lightAtAzimuth190 = Some g /\
    length (position light) = pivotDistance keyLightExample.
Proof.
  apply (key_light_placed (host := exampleHost) 190). lra.
Qed.

(** The example of C4 on a light: from azimuth 190 toward 200, by any step
    of at least 10 degrees, the azimuth read back afterwards is 200. *)
Lemma moveTowardDirection_lands_on_200 (deg : R) :
  10 <= deg ->
  azimuth (getPositionSpherical (Some appCamera) lightAtAzimuth190) = 190 /\
  exists l',
    moveTowardDirection (JS.Number 200) (Some deg) (Some appCamera) lightAtAzimuth190
    = Done l' /\
    azimuth (getPositionSpherical (Some appCamera) l') = 200.
Proof.
  intros Hdeg.
  destruct lightAtAzimuth190_placed as [Hready [Hcur [light [g [El [Eg Hlen]]]]]].
  split; [rewrite Hcur; reflexivity|].
  pose proof (moveTowardDirection_unfold lightAtAzimuth190 appCamera (JS.Number 200) 200 deg
                Hready
                (targetAzimuthNum_resolved _ _
                   (directionToAzimuthAngle_in_range 200 ltac:(lra)))) as Hcall.
  cbv zeta in Hcall. rewrite Hcur in Hcall. cbn [azimuth elevation] in Hcall.
  destruct (movedAzimuth_spec 200 190 deg) as [_ [_ [Hle _]]]; try lra.
  destruct Hle as [_ Hle]; [rewrite shortestDiff_200_190, Rabs_right; lra|].
  rewrite Hle in Hcall by lra.
  pose proof keyLightExample_distance as Hfar. rewrite <- Hlen in Hfar.
  destruct (setPositionSpherical_readback lightAtAzimuth190 light g 200 60 appCamera
              El Eg appCamera_unit appCamera_level ltac:(lra) ltac:(lra)
              cos_60_above_threshold Hfar)
    as [l' [E [_ Hread]]].
  exists l'. split; [rewrite Hcall; exact E|]. rewrite Hread. reflexivity.
Qed.






End TowardDirectionClaim.

Section FacingTarget.
Context {host : Host}.
Import AreaLight.

Lemma lookAt_facesTarget (l : AreaLight.t host) (light : RectAreaLight host) :
  facesTarget (withAreaLight l (lookAt (parentGroup l) light (targetPosition (type l)))).
Proof.
  unfold facesTarget. eexists. split; reflexivity.
Qed.

Lemma constructor_facesTarget (ty : string) : facesTarget (constructor (host := host) ty).
Proof.
  unfold facesTarget, constructor. eexists. split; reflexivity.
Qed.

Lemma setPositionSpherical_faces (az : JS.Value) (el : R)
    (camera : option PerspectiveCamera) (l : AreaLight.t host) :
  stateOf (setPositionSpherical az el camera l) = l \/
  facesTarget (stateOf (setPositionSpherical az el camera l)).
Proof.
  unfold setPositionSpherical.
  destruct (areaLight l) as [light|]; [|left; reflexivity].
  destruct (parentGroup l) as [g|] eqn:Eg; [|left; reflexivity].
  destruct camera as [cam|]; [|left; reflexivity].
  destruct (sphericalToCartesian _ _ _ _) as [p|e]; [|left; reflexivity].
  right. cbn [stateOf]. rewrite <- Eg. apply lookAt_facesTarget.
Qed.

Lemma guarded_faces (camera : option PerspectiveCamera) (l : AreaLight.t host)
    (o : Outcome (AreaLight.t host)) :
  (stateOf o = l \/ facesTarget (stateOf o)) ->
  stateOf (if ready camera l then o else Done l) = l \/
  facesTarget (stateOf (if ready camera l then o else Done l)).
Proof. destruct (ready camera l); [tauto | left; reflexivity]. Qed.

Lemma mutate_faces (m : Mutation) (camera : option PerspectiveCamera)
    (l : AreaLight.t host) :
  areaLight l <> None ->
  stateOf (mutate m camera l) = l \/ facesTarget (stateOf (mutate m camera l)).
Proof.
  intros Hl. destruct m; cbn [mutate].
  - apply setPositionSpherical_faces.
  - unfold setDistance.
    destruct (areaLight l) as [light|]; [|left; reflexivity].
    destruct (parentGroup l) as [g|] eqn:Eg; [|left; reflexivity].
    destruct camera as [cam|]; [|left; reflexivity].
    destruct (sphericalToCartesian _ _ _ _) as [p|e]; [|left; reflexivity].
    right. cbn [stateOf]. rewrite <- Eg. apply lookAt_facesTarget.
  - unfold setPositionCartesian.
    destruct (areaLight l) as [light|]; [|left; reflexivity].
    right. apply lookAt_facesTarget.
  - unfold dolly.
    destruct (areaLight l) as [light|]; [|left; reflexivity].
    destruct (parentGroup l) as [g|] eqn:Eg; [|left; reflexivity].
    right. cbn [stateOf]. rewrite <- Eg. apply lookAt_facesTarget.
  - unfold rotate.
    destruct (parentGroup l) as [g|]; [|left; reflexivity].
    destruct (areaLight l) as [light|]; [|congruence].
    right. unfold facesTarget. eexists. split; reflexivity.
  - unfold rotateClockwise. apply guarded_faces, setPositionSpherical_faces.
  - unfold rotateCounterclockwise. apply guarded_faces, setPositionSpherical_faces.
  - unfold nudgeElevationUp. apply guarded_faces, setPositionSpherical_faces.
  - unfold nudgeElevationDown. apply guarded_faces, setPositionSpherical_faces.
  - unfold moveTowardDirection. apply guarded_faces.
    destruct (targetAzimuthNum targetDirection); [|left; reflexivity].
    apply setPositionSpherical_faces.
Qed.

Lemma facesTarget_has_light (l : AreaLight.t host) : facesTarget l -> areaLight l <> None.
Proof. intros [light [E _]]. congruence. Qed.

Lemma mutateAll_faces (ms : list (Mutation * option PerspectiveCamera))
    (l : AreaLight.t host) :
  facesTarget l -> facesTarget (mutateAll ms l).
Proof.
  revert l. induction ms as [|[m camera] ms IH]; intros l Hl; [exact Hl|].
  cbn [mutateAll]. apply IH.
  destruct (mutate_faces m camera l (facesTarget_has_light l Hl)) as [E|F].
  - rewrite E. exact Hl.
  - exact F.
Qed.

(** C7.  A light as constructed faces its configured target, and so does the
    light after every sequence of position mutations ([setPositionSpherical],
    [setDistance], [setPositionCartesian], [dolly], [rotate],
    [rotateClockwise], [rotateCounterclockwise], [nudgeElevationUp],
    [nudgeElevationDown], [moveTowardDirection]), with any arguments and
    cameras: its orientation is the one [lookAt] computes from its current
    world position toward the target. *)
Theorem light_faces_target_after_every_mutation
    (ty : string) (ms : list (Mutation * option PerspectiveCamera)) :
  facesTarget (mutateAll ms (constructor (host := host) ty)).
Proof. apply mutateAll_faces, constructor_facesTarget. Qed.

End FacingTarget.

(** The property of C7 does depend on the orientation: a light whose position
    is overwritten without [lookAt] does not face its target. *)
Lemma staleKeyLight_does_not_face : ~ facesTarget staleKeyLight.
Proof.
  intros [light [E O]]. cbn in E. injection E as E. subst light.
  cbn in O. injection O as Ex _ _.
  rewrite ?cos_0, ?sin_0 in Ex. lra.
Qed.

(** * The claim on the camera rig *)

Section CameraRig.
Import CameraController.

Lemma clamp_range (lo hi v : R) : lo <= hi -> lo <= Rmax lo (Rmin hi v) <= hi.
Proof.
  intros H. unfold Rmax, Rmin.
  destruct (Rle_dec hi v); destruct (Rle_dec lo _); lra.
Qed.

Lemma clamp_above (lo hi v : R) : lo <= hi -> hi <= v -> Rmax lo (Rmin hi v) = hi.
Proof.
  intros H Hv. rewrite Rmin_left by exact Hv. apply Rmax_right. exact H.
Qed.

Lemma constructor_withinRanges (windowAspect : R) :
  cameraWithinRanges (constructor windowAspect).
Proof.
  unfold cameraWithinRanges, constructor, getCameraDistance, getCameraFOV; simpl.
  unfold CONFIG.CAMERA.MIN_DISTANCE, CONFIG.CAMERA.MAX_DISTANCE, CONFIG.CAMERA.FOV_MIN,
    CONFIG.CAMERA.FOV_MAX, CONFIG.CAMERA.INITIAL_DISTANCE.
  repeat split; lra.
Qed.

Ltac camera_ranges :=
  unfold cameraWithinRanges, getCameraDistance, getCameraFOV, _clampDistance, _clampFOV,
    CONFIG.CAMERA.MIN_DISTANCE, CONFIG.CAMERA.MAX_DISTANCE, CONFIG.CAMERA.FOV_MIN,
    CONFIG.CAMERA.FOV_MAX in *;
  cbn [camera minDistance maxDistance minFOV maxFOV withCamera setPositionZ setZoom
       setAspect THREE.position zoom z] in *.

Lemma distance_write_withinRanges (c : t) (v : R) :
  cameraWithinRanges c ->
  cameraWithinRanges (withCamera c (setPositionZ (camera c) (_clampDistance c v))).
Proof.
  intros H. camera_ranges.
  destruct H as [E1 [E2 [E3 [E4 [Hd Hf]]]]]. rewrite E1, E2.
  pose proof (clamp_range 8 64 v ltac:(lra)). repeat split; try assumption; lra.
Qed.

Lemma zoom_write_withinRanges (c : t) (v : R) :
  cameraWithinRanges c ->
  cameraWithinRanges (withCamera c (setZoom (camera c) (_clampFOV c v))).
Proof.
  intros H. camera_ranges.
  destruct H as [E1 [E2 [E3 [E4 [Hd Hf]]]]]. rewrite E3, E4.
  pose proof (clamp_range (5 / 10) 5 v ltac:(lra)). repeat split; try assumption; lra.
Qed.

Lemma perform_withinRanges (op : Operation) (c : t) :
  cameraWithinRanges c -> cameraWithinRanges (perform op c).
Proof.
  intros H. destruct op; cbn [perform].
  - apply distance_write_withinRanges, H.
  - unfold dollyCameraIn, _applyDolly. apply distance_write_withinRanges, H.
  - unfold dollyCameraOut, _applyDolly. apply distance_write_withinRanges, H.
  - apply zoom_write_withinRanges, H.
  - unfold increaseCameraFOV, _applyFOVChange. apply zoom_write_withinRanges, H.
  - unfold decreaseCameraFOV, _applyFOVChange. apply zoom_write_withinRanges, H.
  - unfold handleWheel, _applyFOVChange, _applyDolly.
    destruct isShiftPressed;
      [apply zoom_write_withinRanges, H | apply distance_write_withinRanges, H].
  - exact H.
  - unfold updatePinchZoom. apply distance_write_withinRanges, H.
  - exact H.
Qed.

Lemma performAll_withinRanges (ops : list Operation) (c : t) :
  cameraWithinRanges c -> cameraWithinRanges (performAll ops c).
Proof.
  revert c. induction ops as [|op ops IH]; intros c H; [exact H|].
  unfold performAll in *. cbn [fold_left]. apply IH, perform_withinRanges, H.
Qed.

End CameraRig.

(** * The claim on the camera rig, with arguments that may be missing *)

Section CameraNumbersRig.
Import CameraNumbers.

(** As long as the arguments are numbers, the controller whose numbers may be
    NaN does what [CameraController] does. *)
Lemma constructor_ofController (windowAspect : R) :
  constructor windowAspect = ofController (CameraController.constructor windowAspect).
Proof. reflexivity. Qed.

Lemma perform_ofController (op : CameraController.Operation) (c : CameraController.t) :
  perform (ofOperation op) (ofController c) = ofController (CameraController.perform op c).
Proof.
  destruct op; cbn [ofOperation perform CameraController.perform]; try reflexivity.
  unfold handleWheel, CameraController.handleWheel.
  destruct isShiftPressed; reflexivity.
Qed.

Lemma performAll_ofController (ops : list CameraController.Operation)
    (c : CameraController.t) :
  performAll (map ofOperation ops) (ofController c) =
  ofController (CameraController.performAll ops c).
Proof.
  revert c. induction ops as [|op ops IH]; intros c; [reflexivity|].
  unfold performAll, CameraController.performAll in *. cbn [map fold_left].
  rewrite perform_ofController. apply IH.
Qed.

Lemma constructor_numbersWithinRanges (windowAspect : R) :
  numbersWithinRanges (constructor windowAspect).
Proof.
  unfold numbersWithinRanges, constructor, getCameraDistance, getCameraFOV; simpl.
  unfold CONFIG.CAMERA.MIN_DISTANCE, CONFIG.CAMERA.MAX_DISTANCE, CONFIG.CAMERA.FOV_MIN,
    CONFIG.CAMERA.FOV_MAX, CONFIG.CAMERA.INITIAL_DISTANCE.
  repeat split; try lra. discriminate.
Qed.

Ltac number_ranges :=
  unfold numbersWithinRanges, getCameraDistance, getCameraFOV, _clampDistance, _clampFOV,
    CONFIG.CAMERA.MIN_DISTANCE, CONFIG.CAMERA.MAX_DISTANCE, CONFIG.CAMERA.FOV_MIN,
    CONFIG.CAMERA.FOV_MAX in *;
  cbn [camera minDistance maxDistance minFOV maxFOV initialCameraDistance withCamera
       setPositionZ setZoom setAspect positionZ zoom] in *.

(** A write of a clamped number to the distance, or to the zoom, keeps the
    ranges. *)
Lemma number_distance_write (c : t) (v : R) :
  numbersWithinRanges c ->
  numbersWithinRanges
    (withCamera c (setPositionZ (camera c) (_clampDistance c (JS.Finite v)))).
Proof.
  intros H. number_ranges.
  destruct H as [E1 [E2 [E3 [E4 [Hd [Hf Hi]]]]]]. rewrite E1, E2.
  cbn [JS.min JS.max numberWithin].
  pose proof (clamp_range 8 64 v ltac:(lra)). repeat split; try assumption; lra.
Qed.

Lemma number_zoom_write (c : t) (v : R) :
  numbersWithinRanges c ->
  numbersWithinRanges (withCamera c (setZoom (camera c) (_clampFOV c (JS.Finite v)))).
Proof.
  intros H. number_ranges.
  destruct H as [E1 [E2 [E3 [E4 [Hd [Hf Hi]]]]]]. rewrite E3, E4.
  cbn [JS.min JS.max numberWithin].
  pose proof (clamp_range (5 / 10) 5 v ltac:(lra)). repeat split; try assumption; lra.
Qed.

Lemma numbersWithinRanges_numbers (c : t) :
  numbersWithinRanges c ->
  exists d f i,
    positionZ (camera c) = JS.Finite d /\ zoom (camera c) = JS.Finite f /\
    initialCameraDistance c = JS.Finite i.
Proof.
  intros [_ [_ [_ [_ [Hd [Hf Hi]]]]]].
  unfold getCameraDistance, getCameraFOV in *.
  destruct (positionZ (camera c)) as [d|]; [|contradiction].
  destruct (zoom (camera c)) as [f|]; [|contradiction].
  destruct (initialCameraDistance c) as [i|]; [|congruence].
  exists d, f, i. repeat split.
Qed.

Lemma perform_numbersWithinRanges (op : Operation) (c : t) :
  numericArguments op = true -> numbersWithinRanges c -> numbersWithinRanges (perform op c).
Proof.
  intros Hop H.
  destruct (numbersWithinRanges_numbers c H) as [d [f [i [Ed [Ef Ei]]]]].
  destruct op as [dist|a|a|fv|a|a|dy shift|t1 t2|t1 t2|asp]; cbn [perform].
  - destruct dist as [v|]; [|discriminate Hop].
    apply number_distance_write, H.
  - unfold dollyCameraIn, _applyDolly. rewrite Ed. apply number_distance_write, H.
  - unfold dollyCameraOut, _applyDolly. rewrite Ed. apply number_distance_write, H.
  - destruct fv as [v|]; [|discriminate Hop].
    apply number_zoom_write, H.
  - unfold increaseCameraFOV, _applyFOVChange. rewrite Ef. apply number_zoom_write, H.
  - unfold decreaseCameraFOV, _applyFOVChange. rewrite Ef. apply number_zoom_write, H.
  - unfold handleWheel, _applyFOVChange, _applyDolly.
    destruct shift;
      [rewrite Ef; apply number_zoom_write, H | rewrite Ed; apply number_distance_write, H].
  - unfold startPinchZoom. number_ranges.
    destruct H as [E1 [E2 [E3 [E4 [Hd [Hf Hi]]]]]].
    repeat split; try assumption. rewrite Ed. discriminate.
  - unfold updatePinchZoom. rewrite Ei. apply number_distance_write, H.
  - unfold handleResize. number_ranges. exact H.
Qed.

Lemma performAll_numbersWithinRanges (ops : list Operation) (c : t) :
  forallb numericArguments ops = true ->
  numbersWithinRanges c -> numbersWithinRanges (performAll ops c).
Proof.
  revert c. induction ops as [|op ops IH]; intros c Hops H; [exact H|].
  cbn [forallb] in Hops. apply andb_true_iff in Hops. destruct Hops as [Hop Hops].
  unfold performAll in *. cbn [fold_left].
  apply IH; [exact Hops|]. apply perform_numbersWithinRanges; assumption.
Qed.

(** C6.  From the camera controller as constructed, after every sequence of
    camera operations ([dollyCamera], [dollyCameraIn], [dollyCameraOut],
    [setCameraFOV], [increaseCameraFOV], [decreaseCameraFOV], wheel, pinch
    start, pinch move, resize) in which [dollyCamera] and [setCameraFOV] are
    called with a number, the distance is a number in [8, 64] and the zoom a
    number in [0.5, 5]; and [dollyCamera(100)] then sets the distance to
    exactly 64. *)
Theorem camera_stays_within_ranges (windowAspect : R) (ops : list Operation) :
  forallb numericArguments ops = true ->
  let c := performAll ops (constructor windowAspect) in
  numberWithin 8 64 (getCameraDistance c) /\
  numberWithin (5 / 10) 5 (getCameraFOV c) /\
  getCameraDistance (dollyCamera (Some 100) c) = JS.Finite 64.
Proof.
  intros Hops c.
  pose proof (performAll_numbersWithinRanges ops _ Hops
                (constructor_numbersWithinRanges windowAspect)) as H.
  fold c in H. number_ranges.
  destruct H as [E1 [E2 [E3 [E4 [Hd [Hf Hi]]]]]].
  split; [exact Hd|]. split; [exact Hf|].
  unfold dollyCamera, _clampDistance.
  cbn [camera withCamera setPositionZ positionZ JS.toNumber JS.min JS.max].
  rewrite E1, E2. f_equal. apply clamp_above; lra.
Qed.

Lemma camera_stays_within_ranges_witness :
  numberWithin 8 64
    (getCameraDistance
       (performAll [DollyCamera (Some 100); Wheel 1 false; SetCameraFOV (Some 0)]
          (constructor (16 / 9)))) /\
  numberWithin (5 / 10) 5
    (getCameraFOV
       (performAll [DollyCamera (Some 100); Wheel 1 false; SetCameraFOV (Some 0)]
          (constructor (16 / 9)))).
Proof.
  destruct (camera_stays_within_ranges (16 / 9)
              [DollyCamera (Some 100); Wheel 1 false; SetCameraFOV (Some 0)] eq_refl)
    as [Hd [Hf _]].
  split; [exact Hd | exact Hf].
Defined.

(** C6 fails as stated for a call without the number: [dollyCamera()] and
    [setCameraFOV()] on the controller as constructed leave NaN as the
    distance and as the zoom, which lies in no range; and the wheel after that
    keeps NaN. *)
Lemma camera_range_counterexample :
  getCameraDistance (dollyCamera None (constructor (16 / 9))) = JS.NaN /\
  ~ numberWithin 8 64 (getCameraDistance (dollyCamera None (constructor (16 / 9)))) /\
  getCameraFOV (setCameraFOV None (constructor (16 / 9))) = JS.NaN /\
  ~ numberWithin (5 / 10) 5 (getCameraFOV (setCameraFOV None (constructor (16 / 9)))) /\
  getCameraDistance (handleWheel 1 false (dollyCamera None (constructor (16 / 9)))) = JS.NaN.
Proof.
  split; [reflexivity|]. split; [intros H; exact H|].
  split; [reflexivity|]. split; [intros H; exact H|]. reflexivity.
Qed.

End CameraNumbersRig.


(** * The claims on the command router and the scene manager *)

Section Router.
Import SceneManager Application.

(** C5.  A command whose type is a string that is not a key of the handler
    table is answered with one warning on the console and nothing else: the
    call returns (no exception), the scene manager with the model, the lights
    and the camera is unchanged, so are the interaction mode, the hovered
    light, the notification and the socket client (no state update is sent).
    The type doSomethingUnknown is such a string. *)
Theorem unknown_command_is_ignored {host : Host}
    (app : Application.t host) (command : Application.Command) (ty : string) :
  Application.type command = JS.Str ty ->
  mapGet (commandHandlers (host := host)) ty = None ->
  exists app',
    _handleWebSocketCommand command app = Done app' /\
    sceneManager app' = sceneManager app /\
    interactionModeManager app' = interactionModeManager app /\
    currentHoveredAreaLight app' = currentHoveredAreaLight app /\
    toolNotification app' = toolNotification app /\
    wsClient app' = wsClient app /\
    console app' =
      ConsoleWarn "Unknown command type:" (LValue (JS.Str ty)) :: console app /\
    mapGet (commandHandlers (host := host)) "doSomethingUnknown" = None.
Proof.
  intros Hty Hunknown. unfold _handleWebSocketCommand. rewrite Hty, Hunknown.
  eexists. split; [reflexivity|]. repeat split.
Qed.

Lemma unknown_command_is_ignored_witness :
  exists app',
    _handleWebSocketCommand (commandOfType "doSomethingUnknown") exampleApp = Done app' /\
    sceneManager app' = sceneManager exampleApp /\
    interactionModeManager app' = interactionModeManager exampleApp /\
    currentHoveredAreaLight app' = currentHoveredAreaLight exampleApp /\
    toolNotification app' = toolNotification exampleApp /\
    wsClient app' = wsClient exampleApp /\
    console app' =
      ConsoleWarn "Unknown command type:" (LValue (JS.Str "doSomethingUnknown"))
        :: console exampleApp /\
    mapGet (commandHandlers (host := exampleHost)) "doSomethingUnknown" = None.
Proof.
  apply (unknown_command_is_ignored exampleApp (commandOfType "doSomethingUnknown")
           "doSomethingUnknown").
  - reflexivity.
  - reflexivity.
Defined.

(** A command of the table does reach the scene and the socket: the command
    dollyCamera with distance 100 returns, one state update has been sent, and
    the camera distance is 64. *)
Lemma known_command_sends_update :
  let outcome := _handleWebSocketCommand dollyCommand exampleApp in
  throws outcome = false /\
  option_map (fun ws => List.length (sent ws)) (wsClient (stateOf outcome)) = Some 1%nat /\
  option_map CameraController.getCameraDistance
    (cameraController (sceneManager (stateOf outcome))) = Some 64.
Proof.
  split; [vm_compute; reflexivity | split; [vm_compute; reflexivity|]].
  transitivity
    (Some (CameraController._clampDistance (CameraController.constructor (16 / 9)) 100));
    [reflexivity|].
  f_equal. unfold CameraController._clampDistance, CameraController.constructor.
  cbn [CameraController.minDistance CameraController.maxDistance].
  unfold CONFIG.CAMERA.MIN_DISTANCE, CONFIG.CAMERA.MAX_DISTANCE.
  apply clamp_above; lra.
Qed.

(** C9: the evaluation at the failing input.  A scene manager that has its
    camera but not yet its camera controller (the state between the
    constructor and [setCameraController]) throws a TypeError on
    [dollyCamera] instead of doing nothing. *)
Theorem dollyCamera_without_controller_throws {host : Host} :
  let sm := SceneManager.constructor (host := host) (Some appCamera) in
  SceneManager.dollyCamera 100 sm = Thrown (TypeError "cameraController") sm /\
  SceneManager.getCameraDistance sm = Throw (TypeError "cameraController").
Proof. split; reflexivity. Qed.

(** What holds of C9: without a camera the camera methods do nothing and the
    camera queries return 0; without a light (or without a camera) the light
    methods do nothing and the light queries return their defaults. *)
Lemma scene_methods_without_references {host : Host} (sm : SceneManager.t host)
    (role : LightRole) :
  (SceneManager.camera sm = None ->
   SceneManager.dollyCamera 100 sm = Done sm /\
   SceneManager.setCameraFOV 2 sm = Done sm /\
   SceneManager.getCameraDistance sm = Ok 0 /\
   SceneManager.getCameraFOV sm = Ok 0) /\
  (getLight role sm = None \/ SceneManager.camera sm = None ->
   getLightPositionSpherical role sm = mkSpherical 0 0 0 /\
   setLightPositionSpherical role (JS.Number 90) 45 sm = Done sm /\
   setLightDistance role 5 sm = Done sm /\
   moveLightTowardDirection role (JS.Str "north") None sm = Done sm) /\
  (getLight role sm = None ->
   setLightIntensity role 1 sm = Done sm /\
   walkLightIn role sm = Done sm /\
   swingLightUp role sm = Done sm /\
   getLightIntensity role sm = Ok 0 /\
   getLightColor role sm = Ok "#ffffff"%string /\
   getLightSize role sm = Ok (1, 1)).
Proof.
  split; [|split].
  - intros Hc.
    unfold SceneManager.dollyCamera, SceneManager.setCameraFOV, onCameraController,
      SceneManager.getCameraDistance, SceneManager.getCameraFOV.
    rewrite Hc. repeat split.
  - intros H.
    unfold getLightPositionSpherical, setLightPositionSpherical, setLightDistance,
      moveLightTowardDirection, onLightWithCamera.
    destruct H as [H|H]; rewrite H.
    + repeat split.
    + destruct (getLight role sm); repeat split.
  - intros H.
    unfold setLightIntensity, walkLightIn, swingLightUp, getLightIntensity, getLightColor,
      getLightSize, onLightObject, onLight.
    rewrite H. repeat split.
Qed.

End Router.

(** * The claim on the hover machine *)

Section Hover.
Context {host : Host}.
Import SceneManager Application.

Lemma init_hoverInvariant (windowAspect : R) (rc : RotationController host)
    (sessionId : option string) :
  hoverInvariant (stateOf (init windowAspect rc sessionId)).
Proof.
  split.
  - intros role. destruct role; do 2 eexists; repeat split.
  - left. repeat split.
Qed.

Lemma hoveredOf_proxy (role : LightRole) (rest : list Intersection)
    (sm : SceneManager.t host) :
  lightsReady sm -> hoveredOf (hitsProxy role rest) sm = Some role.
Proof.
  intros Hr.
  destruct (Hr KeyLight) as [lk [mk [Ek [_ Pk]]]].
  destruct (Hr FillLight) as [lf [mf [Ef [_ Pf]]]].
  cbn [getLight] in Ek, Ef.
  unfold hoveredOf, hitsProxy, getHoveredAreaLight, isPickerOf, AreaLight.getPickerGeometry.
  rewrite Ek, Ef, Pk, Pf. destruct role; reflexivity.
Qed.

Lemma update_hover_spec (intersections : list Intersection) (app : Application.t host) :
  hoverInvariant app ->
  exists app',
    _updateAreaLightHover intersections app = Done app' /\
    hoverInvariant app' /\
    match hoveredOf intersections (sceneManager app) with
    | Some role => hoveringOver role app'
    | None => notHovering app'
    end.
Proof.
  intros [Hready Hstate]. unfold _updateAreaLightHover.
  fold (hoveredOf intersections (sceneManager app)).
  set (h := hoveredOf intersections (sceneManager app)).
  destruct (Hready KeyLight) as [lk [mk [Ek [Ok Pk]]]].
  destruct (Hready FillLight) as [lf [mf [Ef [Of Pf]]]].
  destruct app as [sm imm cur drag ws con tn].
  destruct sm as [cam sc rd md kl fl rc cc fr].
  cbn [sceneManager getLight keyLight fillLight] in *. subst kl fl.
  destruct lk as [ka kp kh ko kpk kt]. destruct lf as [fa fp fh fo fpk ft].
  cbn [AreaLight.highlightOverlay AreaLight.pickerGeometry] in *. subst ko fo kpk fpk.
  assert (Hready' : forall vk vf,
             lightsReady
               (mkSceneManager cam sc rd md
                  (Some (AreaLight.mkAreaLight ka kp kh
                           (Some (AreaLight.mkMesh vk (AreaLight.materialColor mk)))
                           (Some (AreaLight.PickerOf (roleName KeyLight))) kt))
                  (Some (AreaLight.mkAreaLight fa fp fh
                           (Some (AreaLight.mkMesh vf (AreaLight.materialColor mf)))
                           (Some (AreaLight.PickerOf (roleName FillLight))) ft))
                  rc cc fr)).
  { intros vk vf role. destruct role; do 2 eexists; repeat split. }
  destruct Hstate as [[Hm [Hc [Hk Hf]]] | [role [Hm [Hc [Hr Ho]]]]];
    unfold mode, highlighted in *;
    cbn [sceneManager interactionModeManager currentHoveredAreaLight getLight keyLight
         fillLight AreaLight.highlightOverlay otherLight] in *;
    subst cur.
  - (* nothing was hovered *)
    destruct mk as [vk ck], mf as [vf cf]. cbn [AreaLight.visible] in *. subst vk vf.
    destruct h as [[|]|]; cbn;
      (eexists; split; [reflexivity|]; split;
       [split; [apply Hready' | first [left; repeat split; assumption
                                      | right; eexists; repeat split]]
       | repeat split; assumption]).
  - (* a light was hovered *)
    destruct mk as [vk ck], mf as [vf cf].
    destruct role; cbn [AreaLight.visible roleName] in *; subst;
      destruct h as [[|]|]; cbn;
      (eexists; split; [reflexivity|]; split;
       [split; [first [apply Hready' | exact Hready]
               | first [left; repeat split; assumption
                       | right; eexists; repeat split; assumption
                       | right; eexists; repeat split]]
       | repeat split; assumption]).
Qed.

End Hover.

Section HoverFrame.
Context {host : Host}.
Import SceneManager Application.

Lemma sameLights_refl (sm : SceneManager.t host) : sameLights sm sm.
Proof. intros role. reflexivity. Qed.

Lemma sameLights_trans (sm1 sm2 sm3 : SceneManager.t host) :
  sameLights sm1 sm2 -> sameLights sm2 sm3 -> sameLights sm1 sm3.
Proof. intros H12 H23 role. rewrite H23. apply H12. Qed.

Lemma mutate_overlayView (m : Mutation) (camera : option PerspectiveCamera)
    (l : AreaLight.t host) :
  overlayView (stateOf (mutate m camera l)) = overlayView l.
Proof.
  destruct m; cbn [mutate];
    unfold AreaLight.setPositionSpherical, AreaLight.setDistance,
      AreaLight.setPositionCartesian, AreaLight.dolly, AreaLight.rotate,
      AreaLight.rotateClockwise, AreaLight.rotateCounterclockwise,
      AreaLight.nudgeElevationUp, AreaLight.nudgeElevationDown,
      AreaLight.moveTowardDirection, AreaLight.setPositionSpherical, AreaLight.ready;
    try destruct (AreaLight.targetAzimuthNum _);
    destruct (AreaLight.areaLight l), (AreaLight.parentGroup l), camera;
    try reflexivity;
    destruct (sphericalToCartesian _ _ _ _); reflexivity.
Qed.

Lemma updateHighlightColor_overlayView (l : AreaLight.t host) :
  overlayView (stateOf (AreaLight.updateHighlightColor l)) = overlayView l.
Proof.
  destruct l as [al pg hp ho pk ty].
  unfold AreaLight.updateHighlightColor, overlayView; cbn.
  destruct ho as [m|], al; reflexivity.
Qed.

Lemma setLight_lights (role : LightRole) (l l' : AreaLight.t host)
    (sm : SceneManager.t host) :
  getLight role sm = Some l -> overlayView l' = overlayView l ->
  sameLights sm (setLight role (Some l') sm).
Proof.
  intros Hl Hv role'. unfold lightView.
  destruct role, role'; cbn [getLight setLight keyLight fillLight] in *;
    rewrite ?Hl; cbn [option_map]; congruence.
Qed.

Lemma onLight_lights (role : LightRole)
    (f : AreaLight.t host -> Outcome (AreaLight.t host)) (sm : SceneManager.t host) :
  (forall l, overlayView (stateOf (f l)) = overlayView l) ->
  sameLights sm (stateOf (onLight role f sm)).
Proof.
  intros Hf. unfold onLight.
  destruct (getLight role sm) as [l|] eqn:El; [|apply sameLights_refl].
  pose proof (Hf l) as Hv.
  destruct (f l); cbn [inField stateOf] in *; apply (setLight_lights role l); assumption.
Qed.

Lemma onLightWithCamera_lights (role : LightRole)
    (f : option PerspectiveCamera -> AreaLight.t host -> Outcome (AreaLight.t host))
    (sm : SceneManager.t host) :
  (forall camera l, overlayView (stateOf (f camera l)) = overlayView l) ->
  sameLights sm (stateOf (onLightWithCamera role f sm)).
Proof.
  intros Hf. unfold onLightWithCamera.
  destruct (getLight role sm) as [l|] eqn:El; [|apply sameLights_refl].
  destruct (SceneManager.camera sm) as [cam|]; [|apply sameLights_refl].
  pose proof (Hf (Some cam) l) as Hv.
  destruct (f (Some cam) l); cbn [inField stateOf] in *;
    apply (setLight_lights role l); assumption.
Qed.

Lemma onLightObject_lights (role : LightRole)
    (f : AreaLight.RectAreaLight host -> AreaLight.RectAreaLight host)
    (sm : SceneManager.t host) :
  sameLights sm (stateOf (onLightObject role f sm)).
Proof.
  unfold onLightObject.
  destruct (getLight role sm) as [l|] eqn:El; [|apply sameLights_refl].
  destruct (AreaLight.areaLight l); [|apply sameLights_refl].
  apply (setLight_lights role l); [exact El | reflexivity].
Qed.

Lemma andThen_lights (sm : SceneManager.t host) (o : Outcome (SceneManager.t host))
    (k : SceneManager.t host -> Outcome (SceneManager.t host)) :
  sameLights sm (stateOf o) -> (forall s, sameLights s (stateOf (k s))) ->
  sameLights sm (stateOf (andThen o k)).
Proof.
  intros Ho Hk. destruct o as [s|e s]; cbn [andThen stateOf] in *; [|exact Ho].
  apply (sameLights_trans sm s); [exact Ho | apply Hk].
Qed.

Lemma render_lights (sm : SceneManager.t host) :
  sameLights sm (stateOf (SceneManager.render sm)).
Proof. unfold SceneManager.render. destruct (renderer sm); intros role; destruct role; reflexivity. Qed.

Lemma untouched_lights (sm sm' : SceneManager.t host) :
  keyLight sm' = keyLight sm -> fillLight sm' = fillLight sm -> sameLights sm sm'.
Proof.
  intros Hk Hf role. unfold lightView. destruct role; cbn [getLight]; congruence.
Qed.

Lemma onCameraController_lights (f : CameraController.t -> CameraController.t)
    (sm : SceneManager.t host) :
  sameLights sm (stateOf (onCameraController f sm)).
Proof.
  unfold onCameraController.
  destruct (SceneManager.camera sm); [|apply sameLights_refl].
  destruct (cameraController sm); [|apply sameLights_refl].
  apply untouched_lights; reflexivity.
Qed.

Lemma onRotationController_lights
    (f : RotationController host -> RotationController host) (sm : SceneManager.t host) :
  sameLights sm (stateOf (onRotationController f sm)).
Proof.
  unfold onRotationController.
  destruct (rotationController sm); [|apply sameLights_refl].
  eapply sameLights_trans; [|apply render_lights].
  apply untouched_lights; reflexivity.
Qed.

Lemma model_methods_lights (sm : SceneManager.t host) (v : JS.Value) (a b c : R) :
  sameLights sm (stateOf (changeModelColor v sm)) /\
  sameLights sm (stateOf (changeModelSize a sm)) /\
  sameLights sm (stateOf (scaleModel a b c sm)) /\
  sameLights sm (stateOf (changeBackgroundColor v sm)).
Proof.
  unfold changeModelColor, changeModelSize, scaleModel, changeBackgroundColor.
  destruct (parseColor v), (model sm), (scene sm);
    repeat split; solve [apply sameLights_refl | apply untouched_lights; reflexivity].
Qed.

Lemma setLightPosition_lights (role : LightRole) (a b c : R) (sm : SceneManager.t host) :
  sameLights sm (stateOf (setLightPosition role a b c sm)).
Proof.
  unfold setLightPosition.
  destruct (getLight role sm) as [l|] eqn:El; [|apply sameLights_refl].
  destruct (AreaLight.areaLight l); [|apply sameLights_refl].
  apply (setLight_lights role l); [exact El | reflexivity].
Qed.

Lemma setLightColor_lights (role : LightRole) (v : JS.Value) (sm : SceneManager.t host) :
  sameLights sm (stateOf (setLightColor role v sm)).
Proof.
  unfold setLightColor.
  destruct (getLight role sm) as [l|]; [|apply sameLights_refl].
  destruct (parseColor v); [|apply sameLights_refl].
  apply andThen_lights; [apply onLightObject_lights|].
  intros s. apply onLight_lights, updateHighlightColor_overlayView.
Qed.

Lemma light_mutation_lights (role : LightRole) (m : Mutation) (sm : SceneManager.t host) :
  sameLights sm (stateOf (onLightWithCamera role (mutate m) sm)) /\
  sameLights sm (stateOf (onLight role (mutate m None) sm)).
Proof.
  split.
  - apply onLightWithCamera_lights. intros camera l. apply mutate_overlayView.
  - apply onLight_lights. intros l. apply mutate_overlayView.
Qed.

Lemma callScene_sameHover
    (f : SceneManager.t host -> Outcome (SceneManager.t host)) (app : Application.t host) :
  sameLights (sceneManager app) (stateOf (f (sceneManager app))) ->
  sameHover app (stateOf (callScene f app)).
Proof.
  intros H. unfold callScene.
  destruct (f (sceneManager app)); cbn [inField stateOf] in *; repeat split; exact H.
Qed.

Lemma sameHover_refl (app : Application.t host) : sameHover app app.
Proof. repeat split. Qed.

Lemma sameHover_trans (a b c : Application.t host) :
  sameHover a b -> sameHover b c -> sameHover a c.
Proof.
  intros [L1 [M1 C1]] [L2 [M2 C2]].
  split; [eapply sameLights_trans; eassumption | split; congruence].
Qed.

Lemma logValue_sameHover (label : string) (v : Logged) (app : Application.t host) :
  sameHover app (stateOf (logValue label v app)).
Proof. repeat split. Qed.

Lemma logResult_sameHover {A : Type} (label : string) (r : Result A) (wrap : A -> Logged)
    (app : Application.t host) :
  sameHover app (stateOf (logResult label r wrap app)).
Proof. destruct r; repeat split. Qed.

Lemma showToolNotification_sameHover (v : JS.Value) (app : Application.t host) :
  sameHover app (stateOf (_showToolNotification v app)).
Proof. destruct v; repeat split. Qed.

Lemma sendStateUpdate_sameHover (app : Application.t host) :
  sameHover app (stateOf (_sendStateUpdate app)).
Proof.
  unfold _sendStateUpdate.
  destruct (wsClient app) as [ws|]; [|apply sameHover_refl].
  destruct (isConnected ws); [|apply sameHover_refl].
  destruct (getSceneState app); repeat split.
Qed.

End HoverFrame.

Section HoverClaim.
Context {host : Host}.
Import SceneManager Application.

Ltac light_frame :=
  lazymatch goal with
  | |- overlayView (stateOf (AreaLight.setPositionSpherical _ _ _ _)) = _ =>
      apply (mutate_overlayView (SetPositionSpherical _ _))
  | |- overlayView (stateOf (AreaLight.setDistance _ _ _)) = _ =>
      apply (mutate_overlayView (SetDistance _))
  | |- overlayView (stateOf (Done (AreaLight.dolly _ _))) = _ =>
      apply (mutate_overlayView (Dolly _) None)
  | |- overlayView (stateOf (AreaLight.rotate _ _ _)) = _ =>
      apply (mutate_overlayView (Rotate _ _) None)
  | |- overlayView (stateOf (AreaLight.rotateClockwise _ _ _)) = _ =>
      apply (mutate_overlayView (RotateClockwise _))
  | |- overlayView (stateOf (AreaLight.rotateCounterclockwise _ _ _)) = _ =>
      apply (mutate_overlayView (RotateCounterclockwise _))
  | |- overlayView (stateOf (AreaLight.nudgeElevationUp _ _ _)) = _ =>
      apply (mutate_overlayView (NudgeElevationUp _))
  | |- overlayView (stateOf (AreaLight.nudgeElevationDown _ _ _)) = _ =>
      apply (mutate_overlayView (NudgeElevationDown _))
  | |- overlayView (stateOf (AreaLight.moveTowardDirection _ _ _ _)) = _ =>
      apply (mutate_overlayView (MoveTowardDirection _ _))
  end.

Ltac scene_frame :=
  lazymatch goal with
  | |- sameLights _ (stateOf (onCameraController _ _)) => apply onCameraController_lights
  | |- sameLights _ (stateOf (onRotationController _ _)) =>
      apply onRotationController_lights
  | |- sameLights _ (stateOf (onLightObject _ _ _)) => apply onLightObject_lights
  | |- sameLights _ (stateOf (setLightColor _ _ _)) => apply setLightColor_lights
  | |- sameLights _ (stateOf (changeModelColor _ _)) =>
      apply (proj1 (model_methods_lights _ _ 0 0 0))
  | |- sameLights _ (stateOf (changeModelSize _ _)) =>
      apply (proj1 (proj2 (model_methods_lights _ JS.Undefined _ 0 0)))
  | |- sameLights _ (stateOf (scaleModel _ _ _ _)) =>
      apply (proj1 (proj2 (proj2 (model_methods_lights _ JS.Undefined _ _ _))))
  | |- sameLights _ (stateOf (changeBackgroundColor _ _)) =>
      apply (proj2 (proj2 (proj2 (model_methods_lights _ _ 0 0 0))))
  | |- sameLights _ (stateOf (onLightWithCamera _ _ _)) =>
      apply onLightWithCamera_lights; intros ? ?; light_frame
  | |- sameLights _ (stateOf (onLight _ _ _)) =>
      apply onLight_lights; intros ?; light_frame
  end.

Ltac handler_frame :=
  lazymatch goal with
  | |- sameHover _ (stateOf (_showToolNotification _ _)) =>
      apply showToolNotification_sameHover
  | |- sameHover _ (stateOf (logValue _ _ _)) => apply logValue_sameHover
  | |- sameHover _ (stateOf (logResult _ _ _ _)) => apply logResult_sameHover
  | |- sameHover _ (stateOf (callScene _ _)) =>
      apply callScene_sameHover;
      unfold SceneManager.dollyCamera, SceneManager.dollyCameraIn,
        SceneManager.dollyCameraOut, SceneManager.setCameraFOV,
        SceneManager.increaseCameraFOV, SceneManager.decreaseCameraFOV,
        setModelRotation, rotateModelClockwise, rotateModelCounterclockwise,
        nudgeModelPitchUp, nudgeModelPitchDown, nudgeModelRoll,
        setLightIntensity, setLightSize, setLightPositionSpherical,
        rotateLightClockwise, rotateLightCounterclockwise, nudgeLightElevationUp,
        nudgeLightElevationDown, moveLightTowardDirection, setLightDistance,
        swingLightUp, swingLightDown, swingLightLeft, swingLightRight,
        walkLightIn, walkLightOut;
      scene_frame
  end.

Lemma handlers_sameHover (name : string) (h : Handler (host := host)) :
  mapGet commandHandlers name = Some h ->
  forall c app, sameHover app (stateOf (h c app)).
Proof.
  unfold commandHandlers, mapGet.
  repeat match goal with
    | |- (if ?b then _ else _) = _ -> _ =>
        destruct b;
        [ let E := fresh in
          intros E; injection E as E; subst h; intros c app; cbv beta; handler_frame |]
    end.
  discriminate.
Qed.

Lemma handleWebSocketCommand_sameHover (command : Command) (app : Application.t host) :
  sameHover app (stateOf (_handleWebSocketCommand command app)).
Proof.
  unfold _handleWebSocketCommand.
  destruct (Application.type command) as [r|ty|]; try apply sameHover_refl.
  destruct (mapGet commandHandlers ty) as [h|] eqn:Eh; [|repeat split].
  pose proof (handlers_sameHover ty h Eh command app) as Hh.
  destruct (h command app) as [app'|e app']; cbn [andThen stateOf] in *; [|exact Hh].
  destruct (_ && _)%bool; [|exact Hh].
  eapply sameHover_trans; [exact Hh | apply sendStateUpdate_sameHover].
Qed.

Lemma onWheel_sameHover (deltaY : R) (shiftKey : bool) (app : Application.t host) :
  sameHover app (stateOf (onWheel deltaY shiftKey app)).
Proof.
  unfold onWheel.
  destruct (InteractionModeManager.isAreaLightMode _);
    [destruct (currentHoveredAreaLight app) as [hovered|]|].
  - apply callScene_sameHover.
    destruct (getLight hovered (sceneManager app)) as [l|] eqn:El;
      [|apply sameLights_refl].
    eapply sameLights_trans; [|apply render_lights].
    apply (setLight_lights hovered l); [exact El|].
    apply (mutate_overlayView (Dolly _) None).
  - destruct (InteractionModeManager.isModelRotationMode _); [|apply sameHover_refl].
    apply callScene_sameHover.
    destruct (cameraController (sceneManager app)); [|apply sameLights_refl].
    apply untouched_lights; reflexivity.
  - destruct (InteractionModeManager.isModelRotationMode _); [|apply sameHover_refl].
    apply callScene_sameHover.
    destruct (cameraController (sceneManager app)); [|apply sameLights_refl].
    apply untouched_lights; reflexivity.
Qed.

Lemma sameHover_hoverInvariant (app app' : Application.t host) :
  sameHover app app' -> hoverInvariant app -> hoverInvariant app'.
Proof.
  intros [HL [HM HC]] [Hready Hstate].
  assert (Hhl : forall role, highlighted role app' = highlighted role app).
  { intros role. pose proof (HL role) as E. unfold lightView, highlighted in *.
    destruct (getLight role (sceneManager app')) as [l'|],
             (getLight role (sceneManager app)) as [l|];
      cbn [option_map] in E; try discriminate; [|reflexivity].
    unfold overlayView in E. injection E as Ev Ep. revert Ev.
    destruct (AreaLight.highlightOverlay l'), (AreaLight.highlightOverlay l);
      cbn [option_map]; congruence. }
  split.
  - intros role. destruct (Hready role) as [l [m [El [Eo Ep]]]].
    pose proof (HL role) as E. unfold lightView in E. rewrite El in E.
    destruct (getLight role (sceneManager app')) as [l'|]; [|discriminate].
    cbn [option_map] in E. unfold overlayView in E. injection E as Ev Ep'.
    rewrite Eo in Ev.
    destruct (AreaLight.highlightOverlay l') as [m'|] eqn:Eo'; [|discriminate].
    exists l', m'. repeat split; congruence.
  - unfold notHovering, hoveringOver, mode in *. rewrite HM, HC.
    destruct Hstate as [H|[role H]]; [left | right; exists role];
      rewrite !Hhl; exact H.
Qed.

Lemma handle_hoverInvariant (e : Event) (app : Application.t host) :
  hoverInvariant app -> hoverInvariant (stateOf (handle e app)).
Proof.
  intros H. destruct e as [ints|command|dy shift]; cbn [handle].
  - destruct (update_hover_spec ints app H) as [app' [E [H' _]]]. rewrite E. exact H'.
  - apply (sameHover_hoverInvariant app);
      [apply handleWebSocketCommand_sameHover | exact H].
  - apply (sameHover_hoverInvariant app); [apply onWheel_sameHover | exact H].
Qed.

Lemma handleAll_hoverInvariant (events : list Event) (app : Application.t host) :
  hoverInvariant app -> hoverInvariant (handleAll events app).
Proof.
  revert app. induction events as [|e events IH]; intros app H; [exact H|].
  cbn [handleAll]. apply IH, handle_hoverInvariant, H.
Qed.

(** C8.  In every state that the application reaches from [init] by pointer
    moves, remote commands and wheel turns, either no light is hovered (the
    mode is MODEL_ROTATION and no light is highlighted) or exactly one light
    is hovered (the mode is AREA_LIGHT_MANIPULATION, that light is highlighted
    and the other is not).  From such a state a hover update whose ray hits
    the pick proxy of a light first returns with that light hovered and
    highlighted, the other light not highlighted and the mode
    AREA_LIGHT_MANIPULATION; a hover update whose ray hits nothing, or an
    object that is no pick proxy, returns with no light hovered or highlighted
    and the mode MODEL_ROTATION. *)
Theorem hover_update_sets_mode_and_highlight
    (windowAspect : R) (rc : RotationController host) (sessionId : option string)
    (events : list Event) (role : LightRole) (rest : list Intersection) (n : nat) :
  let app := handleAll events (stateOf (init windowAspect rc sessionId)) in
  let hit := _updateAreaLightHover (hitsProxy role rest) app in
  let miss := _updateAreaLightHover [] app in
  let other :=
    _updateAreaLightHover (mkIntersection (Some (AreaLight.OtherObject n)) :: rest) app in
  (notHovering app \/ exists hovered, hoveringOver hovered app) /\
  (throws hit = false /\ hoveringOver role (stateOf hit)) /\
  (throws miss = false /\ notHovering (stateOf miss)) /\
  (throws other = false /\ notHovering (stateOf other)).
Proof.
  intros app hit miss other.
  assert (Hinv : hoverInvariant app).
  { apply handleAll_hoverInvariant, init_hoverInvariant. }
  split; [apply Hinv|]. split; [|split].
  - destruct (update_hover_spec (hitsProxy role rest) app Hinv) as [app' [E [_ Hpost]]].
    rewrite hoveredOf_proxy in Hpost by apply Hinv.
    subst hit. rewrite E. split; [reflexivity | exact Hpost].
  - destruct (update_hover_spec [] app Hinv) as [app' [E [_ Hpost]]].
    subst miss. rewrite E. split; [reflexivity | exact Hpost].
  - destruct (update_hover_spec
                (mkIntersection (Some (AreaLight.OtherObject n)) :: rest) app Hinv)
      as [app' [E [_ Hpost]]].
    assert (Hnone : hoveredOf (mkIntersection (Some (AreaLight.OtherObject n)) :: rest)
                      (sceneManager app) = None).
    { destruct Hinv as [Hr _].
      destruct (Hr KeyLight) as [lk [mk [Ek [_ Pk]]]].
      destruct (Hr FillLight) as [lf [mf [Ef [_ Pf]]]].
      cbn [getLight] in Ek, Ef.
      unfold hoveredOf, getHoveredAreaLight, isPickerOf, AreaLight.getPickerGeometry.
      rewrite Ek, Ef, Pk, Pf. reflexivity. }
    rewrite Hnone in Hpost.
    subst other. rewrite E. split; [reflexivity | exact Hpost].
Qed.

End HoverClaim.

(** * Further properties: direction names and azimuths *)

Section NumericAzimuth.

Lemma rem_congruent (d m : R) : exists k : Z, JS.rem d m = d - m * IZR k.
Proof. unfold JS.rem. eexists. reflexivity. Qed.

Lemma normalized_azimuth (d : R) :
  let r := JS.rem d 360 in
  exists k : Z, (if Rlt_dec r 0 then r + 360 else r) = d - 360 * IZR k.
Proof.
  intros r. destruct (rem_congruent d 360) as [k E]. fold r in E.
  destruct (Rlt_dec r 0).
  - exists (k - 1)%Z. rewrite minus_IZR, E. ring.
  - exists k. exact E.
Qed.

(** X1.  A numeric direction is brought into the range from 0 (included) to
    360 (excluded) by whole turns: the result of [directionToAzimuthAngle]
    differs from the number given by a multiple of 360. *)
Theorem directionToAzimuthAngle_number_normalizes (d : R) :
  exists (a : R) (k : Z),
    directionToAzimuthAngle (JS.Number d) = Some a /\
    0 <= a < 360 /\
    a = d - 360 * IZR k.
Proof.
  destruct (normalized_azimuth d) as [k E].
  eexists. exists k. split; [reflexivity|]. split.
  - apply rem_360_range.
  - exact E.
Qed.

End NumericAzimuth.

Section DirectionNames.

Lemma rev_append_rev_append (s a b : string) :
  JS.rev_append (JS.rev_append s a) b = JS.rev_append a (String.append s b).
Proof.
  revert a. induction s as [|c s IH]; intros a; simpl.
  - reflexivity.
  - rewrite IH. reflexivity.
Qed.

Lemma append_empty_r (s : string) : String.append s EmptyString = s.
Proof. induction s as [|c s IH]; simpl; [reflexivity | rewrite IH; reflexivity]. Qed.

Lemma rev_rev (s : string) : JS.rev (JS.rev s) = s.
Proof.
  unfold JS.rev. rewrite rev_append_rev_append. simpl. apply append_empty_r.
Qed.

Lemma removeAll_rev_append (p : ascii -> bool) (s acc : string) :
  JS.removeAll p (JS.rev_append s acc) =
  JS.rev_append (JS.removeAll p s) (JS.removeAll p acc).
Proof.
  revert acc. induction s as [|c s IH]; intros acc; simpl.
  - reflexivity.
  - rewrite IH. simpl. destruct (p c); reflexivity.
Qed.

Lemma removeAll_rev (p : ascii -> bool) (s : string) :
  JS.removeAll p (JS.rev s) = JS.rev (JS.removeAll p s).
Proof. unfold JS.rev. rewrite removeAll_rev_append. reflexivity. Qed.

Lemma isSpace_isSeparator (c : ascii) : JS.isSpace c = true -> isSeparator c = true.
Proof. intros H. unfold isSeparator. rewrite H. reflexivity. Qed.

Lemma removeAll_trimStart (s : string) :
  JS.removeAll isSeparator (JS.trimStart s) = JS.removeAll isSeparator s.
Proof.
  induction s as [|c s IH]; simpl.
  - reflexivity.
  - destruct (JS.isSpace c) eqn:E.
    + rewrite (isSpace_isSeparator c E). exact IH.
    + reflexivity.
Qed.

Lemma removeAll_trim (s : string) :
  JS.removeAll isSeparator (JS.trim s) = JS.removeAll isSeparator s.
Proof.
  unfold JS.trim.
  rewrite removeAll_rev, removeAll_trimStart, removeAll_rev, rev_rev.
  apply removeAll_trimStart.
Qed.

Lemma directionToAzimuthAngle_letters (s : string) :
  directionToAzimuthAngle (JS.Str s) = mapGet directionToAzimuth (directionLetters s).
Proof.
  unfold directionToAzimuthAngle, normalizeDirectionName, directionLetters.
  destruct (String.eqb_spec s "") as [E|N].
  - subst s. reflexivity.
  - rewrite removeAll_trim.
    destruct (String.eqb_spec (JS.removeAll isSeparator (JS.toLowerCase s)) "") as [E|_].
    + rewrite E. reflexivity.
    + reflexivity.
Qed.

(** X2.  The lookup of a direction name looks at the letters only: two
    strings that agree once they are put in lower case and freed of white
    space, hyphens and periods get the same answer from
    [directionToAzimuthAngle]. *)
Theorem direction_name_lookup_ignores_case_and_separators (s s' : string) :
  directionLetters s = directionLetters s' ->
  directionToAzimuthAngle (JS.Str s) = directionToAzimuthAngle (JS.Str s').
Proof.
  intros H. rewrite !directionToAzimuthAngle_letters, H. reflexivity.
Qed.

Lemma direction_name_lookup_ignores_case_and_separators_witness :
  directionToAzimuthAngle (JS.Str " North-West. ") =
  directionToAzimuthAngle (JS.Str "northwest").
Proof.
  apply (direction_name_lookup_ignores_case_and_separators " North-West. " "northwest").
  reflexivity.
Defined.

End DirectionNames.

Section ClosestName.

Lemma closerDirection_long (n : R) (state : string * R) (d : string) (t : R) :
  (1 < String.length d)%nat ->
  closerDirection n state (d, t) =
  if Rlt_dec (wrapDifference n t) (snd state) then (d, wrapDifference n t) else state.
Proof.
  intros H. unfold closerDirection.
  destruct (Nat.leb_spec (String.length d) 1) as [L|_]; [lia|]. reflexivity.
Qed.

Lemma closerDirection_short (n : R) (state : string * R) (d : string) (t : R) :
  (String.length d <= 1)%nat -> closerDirection n state (d, t) = state.
Proof.
  intros H. unfold closerDirection.
  destruct (Nat.leb_spec (String.length d) 1) as [_|L]; [reflexivity|lia].
Qed.

(** What the loop computes: the minimum never rises, it is below the
    difference of every entry that counts, and the state is the initial one
    or an entry that beat it. *)
Lemma closest_fold (n : R) (es : list (string * R)) (state : string * R) :
  let final := fold_left (closerDirection n) es state in
  snd final <= snd state /\
  (forall d t, In (d, t) es -> (1 < String.length d)%nat ->
               snd final <= wrapDifference n t) /\
  (final = state \/
   exists d t, In (d, t) es /\ (1 < String.length d)%nat /\
               final = (d, wrapDifference n t) /\ wrapDifference n t < snd state).
Proof.
  revert state. induction es as [|[d t] es IH]; intros state; cbn [fold_left In].
  - split; [lra|]. split; [intros ? ? []|]. left; reflexivity.
  - specialize (IH (closerDirection n state (d, t))).
    destruct IH as [IH1 [IH2 IH3]].
    destruct (Nat.leb_spec (String.length d) 1) as [Short|Long].
    + rewrite (closerDirection_short n state d t Short) in *.
      split; [exact IH1|]. split.
      * intros d' t' [E|Hin] Hlen; [inversion E; subst; lia | apply (IH2 d' t'); assumption].
      * destruct IH3 as [E|[d' [t' [Hin [Hlen [E Hlt]]]]]]; [left; exact E|].
        right. exists d', t'. repeat split; try assumption. right; exact Hin.
    + rewrite (closerDirection_long n state d t Long) in *.
      destruct (Rlt_dec (wrapDifference n t) (snd state)) as [Lt|Ge]; cbn [snd] in *.
      * split; [lra|]. split.
        -- intros d' t' [E|Hin] Hlen; [inversion E; subst; exact IH1 | apply (IH2 d' t'); assumption].
        -- destruct IH3 as [E|[d' [t' [Hin [Hlen [E Hlt]]]]]].
           ++ right. exists d, t. repeat split; try assumption. left; reflexivity.
           ++ right. exists d', t'. repeat split; try assumption; [right; exact Hin | lra].
      * split; [exact IH1|]. split.
        -- intros d' t' [E|Hin] Hlen; [inversion E; subst; lra | apply (IH2 d' t'); assumption].
        -- destruct IH3 as [E|[d' [t' [Hin [Hlen [E Hlt]]]]]]; [left; exact E|].
           right. exists d', t'. repeat split; try assumption. right; exact Hin.
Qed.

Ltac wrap_cases :=
  unfold wrapDifference, Rabs in *;
  repeat match goal with
    | |- context [Rcase_abs ?v] => destruct (Rcase_abs v)
    | H : context [Rcase_abs ?v] |- _ => destruct (Rcase_abs v)
    | |- context [Rgt_dec ?v ?w] => destruct (Rgt_dec v w)
    | H : context [Rgt_dec ?v ?w] |- _ => destruct (Rgt_dec v w)
    end.

(** Every angle of the circle is within 11.25 degrees of a named one. *)
Lemma named_direction_nearby (n : R) :
  0 <= n < 360 ->
  exists d t, In (d, t) directionToAzimuth /\ (1 < String.length d)%nat /\
              wrapDifference n t <= 1125 / 100.
Proof.
  intros Hn.
  assert (Pick : forall d t, In (d, t) directionToAzimuth ->
                 (1 < String.length d)%nat -> wrapDifference n t <= 1125 / 100 ->
                 exists d t, In (d, t) directionToAzimuth /\ (1 < String.length d)%nat /\
                             wrapDifference n t <= 1125 / 100) by eauto.
  destruct (Rle_dec n (1125 / 100));
    [apply (Pick "north"%string 0); [simpl; tauto | simpl; lia | wrap_cases; lra]|].
  destruct (Rle_dec n (3375 / 100));
    [apply (Pick "nne"%string (225 / 10)); [simpl; tauto | simpl; lia | wrap_cases; lra]|].
  destruct (Rle_dec n (5625 / 100));
    [apply (Pick "northeast"%string 45); [simpl; tauto | simpl; lia | wrap_cases; lra]|].
  destruct (Rle_dec n (7875 / 100));
    [apply (Pick "ene"%string (675 / 10)); [simpl; tauto | simpl; lia | wrap_cases; lra]|].
  destruct (Rle_dec n (10125 / 100));
    [apply (Pick "east"%string 90); [simpl; tauto | simpl; lia | wrap_cases; lra]|].
  destruct (Rle_dec n (12375 / 100));
    [apply (Pick "ese"%string (1125 / 10)); [simpl; tauto | simpl; lia | wrap_cases; lra]|].
  destruct (Rle_dec n (14625 / 100));
    [apply (Pick "southeast"%string 135); [simpl; tauto | simpl; lia | wrap_cases; lra]|].
  destruct (Rle_dec n (16875 / 100));
    [apply (Pick "sse"%string (1575 / 10)); [simpl; tauto | simpl; lia | wrap_cases; lra]|].
  destruct (Rle_dec n (19125 / 100));
    [apply (Pick "south"%string 180); [simpl; tauto | simpl; lia | wrap_cases; lra]|].
  destruct (Rle_dec n (21375 / 100));
    [apply (Pick "ssw"%string (2025 / 10)); [simpl; tauto | simpl; lia | wrap_cases; lra]|].
  destruct (Rle_dec n (23625 / 100));
    [apply (Pick "southwest"%string 225); [simpl; tauto | simpl; lia | wrap_cases; lra]|].
  destruct (Rle_dec n (25875 / 100));
    [apply (Pick "wsw"%string (2475 / 10)); [simpl; tauto | simpl; lia | wrap_cases; lra]|].
  destruct (Rle_dec n (28125 / 100));
    [apply (Pick "west"%string 270); [simpl; tauto | simpl; lia | wrap_cases; lra]|].
  destruct (Rle_dec n (30375 / 100));
    [apply (Pick "wnw"%string (2925 / 10)); [simpl; tauto | simpl; lia | wrap_cases; lra]|].
  destruct (Rle_dec n (32625 / 100));
    [apply (Pick "northwest"%string 315); [simpl; tauto | simpl; lia | wrap_cases; lra]|].
  destruct (Rle_dec n (34875 / 100));
    [apply (Pick "nnw"%string (3375 / 10)); [simpl; tauto | simpl; lia | wrap_cases; lra]|].
  apply (Pick "north"%string 0); [simpl; tauto | simpl; lia | wrap_cases; lra].
Qed.

Lemma full_names_long (d : string) (t : R) :
  In (d, t) (firstn 8 directionToAzimuth) -> (2 < String.length d)%nat.
Proof.
  cbn [firstn directionToAzimuth In]. intros H.
  repeat (destruct H as [H|H]; [inversion H; cbn; lia|]). contradiction.
Qed.

(** An abbreviation of two letters stands for an angle that a full name has. *)
Lemma abbreviations_repeat (d : string) (t : R) :
  In (d, t) (skipn 8 directionToAzimuth) -> (1 < String.length d)%nat ->
  (2 < String.length d)%nat \/
  exists d', In (d', t) (firstn 8 directionToAzimuth) /\ (1 < String.length d')%nat.
Proof.
  cbn [skipn firstn directionToAzimuth In]. intros H Hlen.
  repeat (destruct H as [H|H];
          [inversion H; subst d t; cbn in Hlen |- *;
           first [ lia | left; lia | right; eexists; split; [tauto | cbn; lia] ]|]).
  contradiction.
Qed.

(** The name the loop ends on: a name of three letters or more of the Map,
    whose angle is within 11.25 degrees of the angle given. *)
Lemma closest_name_spec (n : R) :
  0 <= n < 360 ->
  let final := fold_left (closerDirection n) directionToAzimuth ("north"%string, 360) in
  exists t, In (fst final, t) directionToAzimuth /\
            (2 < String.length (fst final))%nat /\
            wrapDifference n t <= 1125 / 100.
Proof.
  intros Hn final.
  destruct (named_direction_nearby n Hn) as [d0 [t0 [Hin0 [Hlen0 Hnear0]]]].
  pose proof (closest_fold n directionToAzimuth ("north"%string, 360)) as [_ [Hmin _]].
  fold final in Hmin.
  assert (Hfinal : snd final <= 1125 / 100).
  { pose proof (Hmin d0 t0 Hin0 Hlen0). lra. }
  clear Hmin d0 t0 Hin0 Hlen0 Hnear0.
  subst final.
  rewrite <- (firstn_skipn 8 directionToAzimuth) in Hfinal |- *.
  rewrite fold_left_app in Hfinal |- *.
  set (full := firstn 8 directionToAzimuth) in *.
  set (rest := skipn 8 directionToAzimuth) in *.
  set (middle := fold_left (closerDirection n) full ("north"%string, 360)) in *.
  pose proof (closest_fold n full ("north"%string, 360)) as [_ [Hfull Hmid]].
  pose proof (closest_fold n rest middle) as [Hle [_ Hend]].
  fold middle in Hfull, Hmid. cbn [snd] in Hmid.
  set (final := fold_left (closerDirection n) rest middle) in *.
  assert (Win : forall d t, In (d, t) (full ++ rest) -> (2 < String.length d)%nat ->
                final = (d, wrapDifference n t) ->
                exists t, In (fst final, t) (full ++ rest) /\
                          (2 < String.length (fst final))%nat /\
                          wrapDifference n t <= 1125 / 100).
  { intros d t Hin Hlen E. exists t. rewrite E in Hfinal |- *. cbn [fst snd] in *. auto. }
  destruct Hend as [E|[d [t [Hin [Hlen [E Hlt]]]]]].
  - destruct Hmid as [E'|[d [t [Hin [Hlen [E' _]]]]]].
    + rewrite E, E' in Hfinal. cbn [snd] in Hfinal. lra.
    + rewrite E' in E. apply (Win d t); [apply in_or_app; left; exact Hin | | exact E].
      apply (full_names_long d t Hin).
  - apply (Win d t); [apply in_or_app; right; exact Hin | | exact E].
    destruct (abbreviations_repeat d t Hin Hlen) as [Long|[d' [Hin' Hlen']]];
      [exact Long|].
    pose proof (Hfull d' t Hin' Hlen'). lra.
Qed.

Lemma table_name_resolves (d : string) (t : R) :
  In (d, t) directionToAzimuth -> directionToAzimuthAngle (JS.Str d) = Some t.
Proof.
  cbn [directionToAzimuth In]. intros H.
  repeat (destruct H as [H|H]; [inversion H; reflexivity|]). contradiction.
Qed.

Lemma table_name_available (d : string) (t : R) :
  In (d, t) directionToAzimuth -> (1 < String.length d)%nat ->
  In d getAvailableDirectionNames.
Proof.
  intros Hin Hlen. unfold getAvailableDirectionNames.
  apply filter_In. split.
  - apply (in_map fst) in Hin. exact Hin.
  - apply Nat.ltb_lt. exact Hlen.
Qed.

Lemma wrapDifference_near (tol n t : R) :
  0 <= n < 360 -> 0 <= t < 360 ->
  wrapDifference n t <= tol -> nearAngle tol n t.
Proof.
  intros Hn Ht H. unfold nearAngle.
  unfold wrapDifference in H.
  destruct (Rgt_dec (Rabs (n - t)) 180) as [G|_].
  - unfold Rabs in G, H. destruct (Rcase_abs (n - t)).
    + exists (-1)%Z. unfold Rabs. destruct (Rcase_abs _); lra.
    + exists 1%Z. unfold Rabs. destruct (Rcase_abs _); lra.
  - exists 0%Z. replace (n - t - 360 * 0) with (n - t) by ring. exact H.
Qed.

Lemma nearAngle_turns (tol a n t : R) (k : Z) :
  n = a - 360 * IZR k -> nearAngle tol n t -> nearAngle tol a t.
Proof.
  intros E [j H]. exists (j + k)%Z. rewrite plus_IZR.
  replace (a - t - 360 * (IZR j + IZR k)) with (n - t - 360 * IZR j) by (rewrite E; ring).
  exact H.
Qed.

(** X3.  For every angle, [azimuthToDirectionName] returns a direction name
    that [directionToAzimuthAngle] maps to an angle within 11.25 degrees of
    the angle given (up to whole turns).  The name is one of the available
    direction names, and never an abbreviation of one or two letters. *)
Theorem azimuthToDirectionName_is_nearest (a : R) :
  exists t,
    directionToAzimuthAngle (JS.Str (azimuthToDirectionName a)) = Some t /\
    nearAngle (1125 / 100) a t /\
    In (azimuthToDirectionName a) getAvailableDirectionNames /\
    (2 < String.length (azimuthToDirectionName a))%nat.
Proof.
  unfold azimuthToDirectionName.
  pose proof (rem_360_range a) as Hn. destruct (normalized_azimuth a) as [k Ek].
  cbv zeta in Hn, Ek |- *.
  set (n := if Rlt_dec (JS.rem a 360) 0 then JS.rem a 360 + 360 else JS.rem a 360) in *.
  destruct (closest_name_spec n Hn) as [t [Hin [Hlen Hnear]]].
  exists t. split; [apply table_name_resolves; exact Hin|].
  split.
  { apply (nearAngle_turns _ a n t k Ek), wrapDifference_near; [exact Hn | | exact Hnear].
    apply (directionToAzimuthAngle_range (JS.Str (fst (fold_left (closerDirection n)
             directionToAzimuth ("north"%string, 360))))).
    apply table_name_resolves. exact Hin. }
  split; [apply (table_name_available _ t Hin); lia | exact Hlen].
Qed.

(** The named angles are the sixteen multiples of 22.5 degrees. *)
Lemma table_angle_multiple (d : string) (t : R) :
  In (d, t) directionToAzimuth ->
  exists i : Z, (0 <= i < 16)%Z /\ t = 225 / 10 * IZR i.
Proof.
  cbn [directionToAzimuth In]. intros H.
  repeat (destruct H as [H|H];
          [injection H as _ Et;
           first [ exists 0%Z; split; [lia | lra] | exists 1%Z; split; [lia | lra]
                 | exists 2%Z; split; [lia | lra] | exists 3%Z; split; [lia | lra]
                 | exists 4%Z; split; [lia | lra] | exists 5%Z; split; [lia | lra]
                 | exists 6%Z; split; [lia | lra] | exists 7%Z; split; [lia | lra]
                 | exists 8%Z; split; [lia | lra] | exists 9%Z; split; [lia | lra]
                 | exists 10%Z; split; [lia | lra] | exists 11%Z; split; [lia | lra]
                 | exists 12%Z; split; [lia | lra] | exists 13%Z; split; [lia | lra]
                 | exists 14%Z; split; [lia | lra] | exists 15%Z; split; [lia | lra] ]|]).
  contradiction.
Qed.

Lemma wrapDifference_multiples (i j : Z) :
  (0 <= i < 16)%Z -> (0 <= j < 16)%Z ->
  wrapDifference (225 / 10 * IZR i) (225 / 10 * IZR j) <= 1125 / 100 -> i = j.
Proof.
  intros Hi Hj H.
  assert (Bi : 0 <= IZR i <= 15).
  { split; [apply (IZR_le 0); lia | apply (IZR_le i 15); lia]. }
  assert (Bj : 0 <= IZR j <= 15).
  { split; [apply (IZR_le 0); lia | apply (IZR_le j 15); lia]. }
  assert (Hd : -1 < IZR (i - j) < 1).
  { rewrite minus_IZR. wrap_cases; lra. }
  destruct Hd as [H1 H2].
  apply (lt_IZR (-1)) in H1. apply (lt_IZR _ 1) in H2. lia.
Qed.

(** X4.  Every available direction name resolves to an angle from 0
    (included) to 360 (excluded), and naming that angle again with
    [azimuthToDirectionName] gives a name that resolves to the same angle. *)
Theorem available_direction_names_round_trip (name : string) :
  In name getAvailableDirectionNames ->
  exists t,
    directionToAzimuthAngle (JS.Str name) = Some t /\
    0 <= t < 360 /\
    directionToAzimuthAngle (JS.Str (azimuthToDirectionName t)) = Some t.
Proof.
  unfold getAvailableDirectionNames. intros H.
  apply filter_In in H. destruct H as [H _].
  apply in_map_iff in H. destruct H as [[d t] [E Hin]]. cbn [fst] in E. subst d.
  pose proof (table_name_resolves name t Hin) as Hres.
  pose proof (directionToAzimuthAngle_range _ t Hres) as Ht.
  exists t. split; [exact Hres|]. split; [exact Ht|].
  unfold azimuthToDirectionName. rewrite rem_small by exact Ht.
  destruct (Rlt_dec t 0) as [N|_]; [lra|].
  destruct (closest_name_spec t Ht) as [t' [Hin' [_ Hnear]]].
  cbv zeta in Hin'.
  destruct (table_angle_multiple _ _ Hin) as [i [Hi Ei]].
  destruct (table_angle_multiple _ _ Hin') as [j [Hj Ej]].
  rewrite Ei, Ej in Hnear.
  pose proof (wrapDifference_multiples i j Hi Hj Hnear) as Eij.
  assert (Et : t' = t) by (rewrite Ei, Ej, Eij; reflexivity).
  rewrite Et in Hin'. apply table_name_resolves. exact Hin'.
Qed.

Lemma available_direction_names_round_trip_witness :
  exists t,
    directionToAzimuthAngle (JS.Str "northwest") = Some t /\
    0 <= t < 360 /\
    directionToAzimuthAngle (JS.Str (azimuthToDirectionName t)) = Some t.
Proof.
  apply (available_direction_names_round_trip "northwest").
  cbn. tauto.
Defined.

End ClosestName.

(** * Further properties: the camera frame and the two conversions *)

Section CameraFrame.
Variable camera : PerspectiveCamera.
Hypothesis Hunit : unitQuaternion (quaternion camera).

Lemma up_raw_unit :
  lengthSq (applyQuaternion (vec3 0 1 0) (quaternion camera)) = 1.
Proof.
  unfold unitQuaternion in Hunit. destruct (quaternion camera) as [a b c w]; simpl in *.
  unfold lengthSq, applyQuaternion; simpl.
  nsatz.
Qed.

Lemma up_unit : lengthSq (getCameraUp camera) = 1.
Proof. unfold getCameraUp. rewrite normalize_unit; apply up_raw_unit. Qed.

Lemma forward_up_orthogonal :
  dot (getCameraForward camera) (getCameraUp camera) = 0.
Proof.
  unfold getCameraForward, getCameraUp.
  rewrite !normalize_unit
    by first [apply (forward_raw_unit camera Hunit) | apply up_raw_unit].
  unfold unitQuaternion in Hunit. destruct (quaternion camera) as [a b c w]; simpl in *.
  unfold dot, applyQuaternion; simpl. nsatz.
Qed.

Lemma right_up_orthogonal :
  dot (getCameraRight camera) (getCameraUp camera) = 0.
Proof.
  unfold getCameraRight, getCameraUp.
  rewrite !normalize_unit
    by first [apply (right_raw_unit camera Hunit) | apply up_raw_unit].
  unfold unitQuaternion in Hunit. destruct (quaternion camera) as [a b c w]; simpl in *.
  unfold dot, applyQuaternion; simpl. nsatz.
Qed.

End CameraFrame.

(** X5.  For a camera whose rotation is a unit quaternion, the forward, right
    and up vectors that [getCameraForward], [getCameraRight] and
    [getCameraUp] return have length 1 and are perpendicular to each
    other. *)
Theorem camera_basis_is_orthonormal (camera : PerspectiveCamera) :
  unitQuaternion (quaternion camera) ->
  length (getCameraForward camera) = 1 /\
  length (getCameraRight camera) = 1 /\
  length (getCameraUp camera) = 1 /\
  dot (getCameraForward camera) (getCameraRight camera) = 0 /\
  dot (getCameraForward camera) (getCameraUp camera) = 0 /\
  dot (getCameraRight camera) (getCameraUp camera) = 0.
Proof.
  intros Hunit.
  split; [apply length_unit, forward_unit; exact Hunit|].
  split; [apply length_unit, right_unit; exact Hunit|].
  split; [apply length_unit, up_unit; exact Hunit|].
  split; [apply forward_right_orthogonal; exact Hunit|].
  split; [apply forward_up_orthogonal | apply right_up_orthogonal]; exact Hunit.
Qed.

Lemma camera_basis_is_orthonormal_witness :
  length (getCameraForward lookingDown) = 1 /\
  length (getCameraRight lookingDown) = 1 /\
  length (getCameraUp lookingDown) = 1 /\
  dot (getCameraForward lookingDown) (getCameraRight lookingDown) = 0 /\
  dot (getCameraForward lookingDown) (getCameraUp lookingDown) = 0 /\
  dot (getCameraRight lookingDown) (getCameraUp lookingDown) = 0.
Proof.
  apply (camera_basis_is_orthonormal lookingDown).
  apply lookingDown_unit.
Defined.

Section Conversions.

Lemma sphericalDirection_height (camera : PerspectiveCamera) (azimuthRad elevationRad : R) :
  unitQuaternion (quaternion camera) ->
  y (sphericalDirection azimuthRad elevationRad camera) = sin elevationRad.
Proof.
  intros Hunit.
  destruct (horizontalPlaneDir_unitHorizontal camera Hunit azimuthRad) as [Hy _].
  unfold sphericalDirection, addScaledVector, zero3, worldUp; simpl.
  rewrite Hy. ring.
Qed.

(** X6.  For a camera whose rotation is a unit quaternion and every valid
    azimuth, [sphericalToCartesian] returns a point whose distance from the
    origin is the absolute value of the distance given and whose height is
    the distance times the sine of the elevation: distance and elevation do
    not depend on the camera or on the azimuth. *)
Theorem sphericalToCartesian_distance_and_height
    (az : JS.Value) (e d : R) (camera : PerspectiveCamera) :
  unitQuaternion (quaternion camera) ->
  directionToAzimuthAngle az <> None ->
  exists p,
    sphericalToCartesian az e d camera = Ok p /\
    length p = Rabs d /\
    y p = d * sin (degToRad e).
Proof.
  intros Hunit Hv. destruct (valid_azimuth az Hv) as [v Ev].
  pose proof (sphericalToCartesian_valid camera Hunit az v e d Ev) as E.
  eexists. split; [exact E|]. split.
  - apply (sphericalToCartesian_length camera Hunit az e d). exact E.
  - unfold multiplyScalar; cbn [y].
    rewrite sphericalDirection_height by exact Hunit. ring.
Qed.

Lemma sphericalToCartesian_distance_and_height_witness :
  exists p,
    sphericalToCartesian (JS.Str "South East") 30 (-2) lookingDown = Ok p /\
    length p = Rabs (-2) /\
    y p = -2 * sin (degToRad 30).
Proof.
  apply (sphericalToCartesian_distance_and_height (JS.Str "South East") 30 (-2) lookingDown).
  - apply lookingDown_unit.
  - cbn. discriminate.
Defined.

(** X7.  Whatever the point and the camera, [cartesianToSpherical] returns
    an azimuth from 0 (included) to 360 (excluded) and an elevation from -90
    to 90; the distance is the length of the vector, except below the
    threshold 1e-4, where all three coordinates are 0. *)
Theorem cartesianToSpherical_ranges (px py pz : R) (camera : PerspectiveCamera) :
  let s := cartesianToSpherical px py pz camera in
  0 <= azimuth s < 360 /\
  -90 <= elevation s <= 90 /\
  ((length (vec3 px py pz) < 1 / 10000 /\ s = mkSpherical 0 0 0) \/
   (1 / 10000 <= length (vec3 px py pz) /\ distance s = length (vec3 px py pz))).
Proof.
  intros s.
  split; [apply cartesianToSpherical_azimuth_range|].
  split; [apply cartesianToSpherical_elevation_range|].
  subst s. unfold cartesianToSpherical.
  destruct (Rlt_dec (length (vec3 px py pz)) (1 / 10000)) as [L|G].
  - left. split; [exact L | reflexivity].
  - right. split; [lra|]. destruct (Rgt_dec _ _); reflexivity.
Qed.

(** X8.  For a level camera (no pitch, no roll) the point that
    [sphericalToCartesian] returns is the distance times the unit vector
    with the components cos(e)cos(a) along the forward vector of the camera,
    cos(e)sin(a) along its right vector and sin(e) along the world up axis:
    azimuth 0 is straight ahead of the camera, 90 is to its right, and
    elevation 90 is overhead. *)
Theorem sphericalToCartesian_level_camera_formula
    (az : JS.Value) (v e d : R) (camera : PerspectiveCamera) :
  unitQuaternion (quaternion camera) ->
  levelCamera camera ->
  directionToAzimuthAngle az = Some v ->
  let a := degToRad v in
  let el := degToRad e in
  sphericalToCartesian az e d camera =
  Ok (multiplyScalar
        (add (multiplyScalar
                (add (multiplyScalar (getCameraForward camera) (cos a))
                     (multiplyScalar (getCameraRight camera) (sin a)))
                (cos el))
             (multiplyScalar worldUp (sin el)))
        d).
Proof.
  intros Hunit Hlevel Ev a el.
  rewrite (sphericalToCartesian_valid camera Hunit az v e d Ev).
  unfold sphericalDirection. rewrite level_horizontalPlaneDir by assumption.
  fold a el. f_equal. f_equal.
  unfold addScaledVector, add, multiplyScalar, zero3; simpl.
  f_equal; ring.
Qed.

Lemma sphericalToCartesian_level_camera_formula_witness :
  sphericalToCartesian (JS.Str "east") 0 3 appCamera =
  Ok (multiplyScalar
        (add (multiplyScalar
                (add (multiplyScalar (getCameraForward appCamera) (cos (degToRad 90)))
                     (multiplyScalar (getCameraRight appCamera) (sin (degToRad 90))))
                (cos (degToRad 0)))
             (multiplyScalar worldUp (sin (degToRad 0))))
        3).
Proof.
  apply (sphericalToCartesian_level_camera_formula (JS.Str "east") 90 0 3 appCamera).
  - apply appCamera_unit.
  - apply appCamera_level.
  - reflexivity.
Defined.

End Conversions.

Section ReverseRoundTrip.

Lemma degToRad_radToDeg (r : R) : degToRad (radToDeg r) = r.
Proof. unfold radToDeg, degToRad. pose proof PI_RGT_0. field. lra. Qed.

Lemma degToRad_full_turn (d : R) : degToRad (d + 360) = degToRad d + 2 * PI.
Proof. unfold degToRad. field. Qed.

Lemma unit_circle_bounds (c s : R) : c * c + s * s = 1 -> -1 <= c <= 1.
Proof. intros H. split; nra. Qed.

Lemma sqrt_one_minus_sq (c s : R) : c * c + s * s = 1 -> sqrt (1 - c²) = Rabs s.
Proof.
  intros H. replace (1 - c²) with (s²) by (unfold Rsqr; lra). apply sqrt_Rsqr_abs.
Qed.

(** A point of the unit circle has an angle in the range of [Math.atan2]. *)
Lemma unit_circle_angle (c s : R) :
  c * c + s * s = 1 -> exists t, - PI < t <= PI /\ cos t = c /\ sin t = s.
Proof.
  intros H. pose proof (unit_circle_bounds c s H) as Hc.
  pose proof (acos_bound c) as [B1 B2]. pose proof PI_RGT_0 as HPI.
  destruct (Rle_dec 0 s) as [Hs|Hs].
  - exists (acos c). split; [lra|]. split; [apply cos_acos; exact Hc|].
    rewrite sin_acos by exact Hc. rewrite (sqrt_one_minus_sq c s H).
    apply Rabs_right. lra.
  - exists (- acos c). split.
    + split; [|lra].
      destruct (Req_dec (acos c) PI) as [E|N]; [|lra].
      exfalso. pose proof (cos_acos c Hc) as C. rewrite E, cos_PI in C. nra.
    + split; [rewrite cos_neg; apply cos_acos; exact Hc|].
      rewrite sin_neg, sin_acos by exact Hc. rewrite (sqrt_one_minus_sq c s H).
      rewrite Rabs_left by lra. ring.
Qed.

Lemma atan2_cos_sin (s c : R) :
  c * c + s * s = 1 -> cos (JS.atan2 s c) = c /\ sin (JS.atan2 s c) = s.
Proof.
  intros H. destruct (unit_circle_angle c s H) as [t [Ht [Ec Es]]].
  rewrite <- Ec, <- Es. rewrite (atan2_sin_cos t Ht). split; reflexivity.
Qed.

Section Level.
Variable camera : PerspectiveCamera.
Hypothesis Hunit : unitQuaternion (quaternion camera).
Hypothesis Hlevel : levelCamera camera.

(** For a level camera the forward and right vectors span the horizontal
    plane. *)
Lemma level_decomposition (h : Vector3) :
  unitHorizontal h ->
  let fc := dot h (getCameraForward camera) in
  let rc := dot h (getCameraRight camera) in
  fc * fc + rc * rc = 1 /\
  addScaledVector (addScaledVector zero3 (getCameraForward camera) fc)
                  (getCameraRight camera) rc = h.
Proof.
  intros [Hy Hl].
  pose proof (forward_unit camera Hunit) as HF.
  pose proof (right_unit camera Hunit) as HR.
  pose proof (forward_right_orthogonal camera Hunit) as HO.
  destruct Hlevel as [Hfy Hry].
  destruct (getCameraForward camera) as [fx fy fz].
  destruct (getCameraRight camera) as [rx ry rz].
  destruct h as [hx hy hz].
  simpl in *. subst fy ry hy. unfold lengthSq, dot in *; simpl in *.
  assert (Rows : fx * fx + rx * rx = 1 /\ fz * fz + rz * rz = 1 /\ fx * fz + rx * rz = 0).
  { repeat split; nsatz. }
  destruct Rows as [R1 [R2 R3]].
  split.
  - replace ((hx * fx + 0 * 0 + hz * fz) * (hx * fx + 0 * 0 + hz * fz) +
             (hx * rx + 0 * 0 + hz * rz) * (hx * rx + 0 * 0 + hz * rz))
      with (hx * hx * (fx * fx + rx * rx) + hz * hz * (fz * fz + rz * rz)
            + 2 * hx * hz * (fx * fz + rx * rz)) by ring.
    rewrite R1, R2, R3. lra.
  - unfold addScaledVector, zero3; simpl. f_equal.
    + replace (0 + fx * (hx * fx + 0 * 0 + hz * fz) + rx * (hx * rx + 0 * 0 + hz * rz))
        with (hx * (fx * fx + rx * rx) + hz * (fx * fz + rx * rz)) by ring.
      rewrite R1, R3. ring.
    + ring.
    + replace (0 + fz * (hx * fx + 0 * 0 + hz * fz) + rz * (hx * rx + 0 * 0 + hz * rz))
        with (hz * (fz * fz + rz * rz) + hx * (fx * fz + rx * rz)) by ring.
      rewrite R2, R3. ring.
Qed.

(** The horizontal direction of the azimuth that was read off a unit
    horizontal vector is that vector. *)
Lemma level_horizontalPlaneDir_readAzimuth (h : Vector3) :
  unitHorizontal h ->
  horizontalPlaneDir (degToRad (readAzimuth h camera)) camera = h.
Proof.
  intros Hh. destruct (level_decomposition h Hh) as [Hcs Hdec].
  cbv zeta in Hcs, Hdec.
  rewrite level_horizontalPlaneDir by assumption.
  destruct (atan2_cos_sin _ _ Hcs) as [Ec Es].
  unfold readAzimuth.
  destruct (Rlt_dec _ 0).
  - rewrite degToRad_full_turn, degToRad_radToDeg.
    rewrite cos_plus, sin_plus, cos_2PI, sin_2PI, Ec, Es.
    rewrite !Rmult_1_r, !Rmult_0_r, Rminus_0_r, Rplus_0_r. exact Hdec.
  - rewrite degToRad_radToDeg, Ec, Es. exact Hdec.
Qed.

End Level.

(** A point away from the origin in polar form: its length, the horizontal
    and vertical parts of its direction, and its unit horizontal direction. *)
Lemma polar_form (p : Vector3) :
  1 / 10000 <= length p ->
  length (projectHorizontal (normalize p)) > 1 / 10000 ->
  let d := length p in
  let ce := length (projectHorizontal (normalize p)) in
  let se := y (normalize p) in
  let h := normalize (projectHorizontal (normalize p)) in
  unitHorizontal h /\ ce * ce + se * se = 1 /\
  x h * ce * d = x p /\ se * d = y p /\ z h * ce * d = z p.
Proof.
  intros Hd Hce d ce se h.
  assert (Hd0 : length p <> 0) by lra.
  assert (Hce0 : length (projectHorizontal (normalize p)) <> 0) by lra.
  pose proof (lengthSq_normalize p Hd0) as Hdir.
  assert (Hh : unitHorizontal h).
  { subst h. apply normalize_unitHorizontal; [|exact Hce0].
    rewrite projectHorizontal_eq. reflexivity. }
  assert (Hce2 : ce * ce = x (normalize p) * x (normalize p) + z (normalize p) * z (normalize p)).
  { subst ce. rewrite <- lengthSq_of_length, projectHorizontal_eq.
    unfold lengthSq; simpl. ring. }
  split; [exact Hh|]. split.
  { rewrite Hce2. subst se. unfold lengthSq in Hdir. lra. }
  assert (Eh : forall v, length v <> 0 -> orOne (length v) = length v).
  { intros v Hv. unfold orOne. destruct (Req_EM_T (length v) 0); [contradiction|reflexivity]. }
  assert (En : normalize p = multiplyScalar p (1 / d)).
  { unfold normalize. rewrite (Eh _ Hd0). reflexivity. }
  assert (Enh : h = multiplyScalar (projectHorizontal (normalize p)) (1 / ce)).
  { subst h. unfold normalize at 1. rewrite (Eh _ Hce0). reflexivity. }
  rewrite Enh. subst se. rewrite projectHorizontal_eq, En.
  fold d in Hd0. fold ce in Hce0.
  unfold multiplyScalar; simpl.
  repeat split; field; repeat split; assumption.
Qed.

(** X9.  For a level camera, converting a point to spherical coordinates with
    [cartesianToSpherical] and back with [sphericalToCartesian] returns the
    point, when the point is at least 1e-4 away from the origin and its
    direction is not vertical (the horizontal part of the unit direction
    exceeds 1e-4). *)
Theorem cartesian_spherical_cartesian_round_trip
    (p : Vector3) (camera : PerspectiveCamera) :
  unitQuaternion (quaternion camera) ->
  levelCamera camera ->
  1 / 10000 <= length p ->
  length (projectHorizontal (normalize p)) > 1 / 10000 ->
  let s := cartesianToSpherical (x p) (y p) (z p) camera in
  sphericalToCartesian (JS.Number (azimuth s)) (elevation s) (distance s) camera = Ok p.
Proof.
  intros Hunit Hlevel Hd Hce.
  destruct (polar_form p Hd Hce) as [Hh [Hcs [Ex [Ey Ez]]]].
  cbv zeta in Hh, Hcs, Ex, Ey, Ez.
  set (d := length p) in *.
  set (ce := length (projectHorizontal (normalize p))) in *.
  set (se := y (normalize p)) in *.
  set (h := normalize (projectHorizontal (normalize p))) in *.
  assert (Hce0 : 0 <= ce) by (subst ce; apply length_nonneg).
  assert (Es : cartesianToSpherical (x p) (y p) (z p) camera =
               mkSpherical (readAzimuth h camera) (radToDeg (asin se)) d).
  { rewrite <- Ex, <- Ey, <- Ez.
    rewrite (cartesianToSpherical_polar h ce se d camera Hh Hcs Hce0 Hd).
    destruct (Rgt_dec ce (1 / 10000)) as [_|N]; [reflexivity|contradiction]. }
  pose proof (cartesianToSpherical_azimuth_range (x p) (y p) (z p) camera) as Ha.
  intros s. subst s. rewrite Es in Ha |- *. cbn [azimuth elevation distance] in Ha |- *.
  rewrite (sphericalToCartesian_valid camera Hunit (JS.Number (readAzimuth h camera))
             (readAzimuth h camera))
    by (apply directionToAzimuthAngle_in_range; exact Ha).
  f_equal. unfold sphericalDirection.
  rewrite (level_horizontalPlaneDir_readAzimuth camera Hunit Hlevel h Hh).
  rewrite degToRad_radToDeg.
  assert (Hse : -1 <= se <= 1) by (split; nra).
  rewrite cos_asin, sin_asin by exact Hse.
  assert (Hsqrt : sqrt (1 - se²) = ce).
  { replace (1 - se²) with (ce²) by (unfold Rsqr; lra). apply sqrt_Rsqr. exact Hce0. }
  rewrite Hsqrt.
  destruct Hh as [Hy _].
  rewrite <- (vec3_eta p), <- Ex, <- Ey, <- Ez.
  unfold multiplyScalar, addScaledVector, zero3, worldUp; cbn [x y z].
  rewrite Hy. f_equal; ring.
Qed.

Lemma cartesian_spherical_cartesian_round_trip_witness :
  let s := cartesianToSpherical 3 0 0 appCamera in
  sphericalToCartesian (JS.Number (azimuth s)) (elevation s) (distance s) appCamera =
  Ok (vec3 3 0 0).
Proof.
  assert (L : length (vec3 3 0 0) = 3) by (apply length_axis; lra).
  assert (N : normalize (vec3 3 0 0) = vec3 1 0 0).
  { unfold normalize. rewrite L. unfold orOne.
    destruct (Req_EM_T 3 0); [lra|]. unfold multiplyScalar; simpl. f_equal; field. }
  apply (cartesian_spherical_cartesian_round_trip (vec3 3 0 0) appCamera).
  - apply appCamera_unit.
  - apply appCamera_level.
  - rewrite L. lra.
  - rewrite N, projectHorizontal_eq; simpl.
    rewrite (length_axis 1) by lra. lra.
Defined.

End ReverseRoundTrip.

(** * Further properties: the light rig *)

Section LightMoves.
Context {host : Host}.
Import AreaLight.

Lemma number_azimuth (a : R) :
  exists (a' : R) (k : Z),
    directionToAzimuthAngle (JS.Number a) = Some a' /\ 0 <= a' < 360 /\
    a' = a - 360 * IZR k.
Proof.
  destruct (normalized_azimuth a) as [k E].
  eexists. exists k. split; [reflexivity|]. split; [apply rem_360_range | exact E].
Qed.

Lemma placed_distance (light : RectAreaLight host) :
  1 / 10000 <=
  (if Rgt_dec (length (position light)) (1 / 10000) then length (position light) else 1).
Proof. destruct (Rgt_dec _ _); lra. Qed.

(** The elevation that is read back from a point placed at given spherical
    coordinates, for any camera. *)
Lemma spherical_point_elevation (a e d : R) (camera : PerspectiveCamera) :
  unitQuaternion (quaternion camera) ->
  0 <= a < 360 -> -90 <= e <= 90 -> 1 / 10000 <= d ->
  let p := multiplyScalar (sphericalDirection (degToRad a) (degToRad e) camera) d in
  elevation (cartesianToSpherical (x p) (y p) (z p) camera) = e /\
  distance (cartesianToSpherical (x p) (y p) (z p) camera) = d.
Proof.
  intros Hunit Ha He Hd p.
  pose proof (roundTrip_polar a e d camera Hunit Ha He Hd) as E.
  unfold roundTrip in E.
  rewrite (sphericalToCartesian_valid camera Hunit (JS.Number a) a e d) in E
    by (apply directionToAzimuthAngle_in_range; exact Ha).
  injection E as E'.
  match type of E' with
  | _ = ?rhs => change (cartesianToSpherical (x p) (y p) (z p) camera = rhs) in E'
  end.
  rewrite E'. split; reflexivity.
Qed.

(** X10.  [setDistance] puts a light that has its objects at the absolute
    value of the distance given from the pivot, for every camera whose
    rotation is a unit quaternion; the distance is not validated, so a
    negative one places the light on the far side of the pivot. *)
Theorem setDistance_sets_distance
    (l : AreaLight.t host) (light : RectAreaLight host) (d : R)
    (camera : PerspectiveCamera) :
  areaLight l = Some light ->
  parentGroup l <> None ->
  unitQuaternion (quaternion camera) ->
  exists l',
    setDistance d (Some camera) l = Done l' /\
    pivotDistance l' = Rabs d.
Proof.
  intros El Hg Hunit. destruct (parent_present l Hg) as [g Eg].
  unfold setDistance. rewrite El, Eg.
  set (current := getPositionSpherical (Some camera) l).
  destruct (number_azimuth (azimuth current)) as [a' [k [Ea _]]].
  rewrite (sphericalToCartesian_valid camera Hunit _ a' (elevation current) d Ea).
  eexists. split; [reflexivity|].
  unfold pivotDistance; simpl.
  rewrite length_multiplyScalar, length_unit by (apply sphericalDirection_unit; exact Hunit).
  ring.
Qed.

(** X11.  For a level camera, [setDistance] with a distance of at least 1e-4
    keeps the azimuth and the elevation of the light and sets its distance:
    [getPositionSpherical] reads the former azimuth and elevation and the
    new distance, when the light was not placed vertically above or below
    the pivot. *)
Theorem setDistance_keeps_azimuth_and_elevation
    (l : AreaLight.t host) (light : RectAreaLight host) (d : R)
    (camera : PerspectiveCamera) :
  areaLight l = Some light ->
  parentGroup l <> None ->
  unitQuaternion (quaternion camera) ->
  levelCamera camera ->
  cos (degToRad (elevation (getPositionSpherical (Some camera) l))) > 1 / 10000 ->
  1 / 10000 <= d ->
  exists l',
    setDistance d (Some camera) l = Done l' /\
    getPositionSpherical (Some camera) l' =
    mkSpherical (azimuth (getPositionSpherical (Some camera) l))
                (elevation (getPositionSpherical (Some camera) l)) d.
Proof.
  intros El Hg Hunit Hlevel Hce Hd. destruct (parent_present l Hg) as [g Eg].
  pose proof (getPositionSpherical_azimuth_range (Some camera) l) as Ha.
  pose proof (getPositionSpherical_elevation_range (Some camera) l) as He.
  unfold setDistance. rewrite El, Eg.
  set (current := getPositionSpherical (Some camera) l) in *.
  rewrite (sphericalToCartesian_valid camera Hunit _ (azimuth current)
             (elevation current) d (directionToAzimuthAngle_in_range _ Ha)).
  eexists. split; [reflexivity|].
  unfold getPositionSpherical, withAreaLight, lookAt, setPosition.
  cbn [areaLight parentGroup position]. rewrite Eg.
  apply spherical_point_readback; assumption.
Qed.


(** Where [setPositionSpherical] with a numeric azimuth leaves a light, as
    read back for a level camera. *)
Lemma setPositionSpherical_number_readback
    (l : AreaLight.t host) (light : RectAreaLight host) (a e : R)
    (camera : PerspectiveCamera) :
  areaLight l = Some light -> parentGroup l <> None ->
  unitQuaternion (quaternion camera) -> levelCamera camera ->
  -90 <= e <= 90 -> cos (degToRad e) > 1 / 10000 ->
  length (position light) > 1 / 10000 ->
  exists l' light' a' (k : Z),
    setPositionSpherical (JS.Number a) e (Some camera) l = Done l' /\
    areaLight l' = Some light' /\ parentGroup l' = parentGroup l /\
    length (position light') = length (position light) /\
    getPositionSpherical (Some camera) l' = mkSpherical a' e (length (position light)) /\
    0 <= a' < 360 /\ a' = a - 360 * IZR k.
Proof.
  intros El Hg Hunit Hlevel He Hce Hd. destruct (parent_present l Hg) as [g Eg].
  destruct (number_azimuth a) as [a' [k [Ea [Ha Ek]]]].
  pose proof (setPositionSpherical_places l light g (JS.Number a) a' e camera El Eg Hunit Ea)
    as E.
  cbv zeta in E.
  destruct (Rgt_dec (length (position light)) (1 / 10000)) as [_|N]; [|contradiction].
  do 2 eexists. exists a', k. split; [exact E|]. split; [reflexivity|].
  split; [reflexivity|]. split.
  - cbn [position lookAt setPosition].
    apply length_spherical_point; [exact Hunit | lra].
  - split; [|split; assumption].
    unfold getPositionSpherical, withAreaLight, lookAt, setPosition.
    cbn [areaLight parentGroup position]. rewrite Eg.
    apply spherical_point_readback; try assumption. lra.
Qed.

Lemma getPositionSpherical_of_light (l : AreaLight.t host) (light : RectAreaLight host)
    (camera : PerspectiveCamera) :
  areaLight l = Some light -> parentGroup l <> None ->
  length (position light) > 1 / 10000 ->
  ready (Some camera) l = true /\
  distance (getPositionSpherical (Some camera) l) = length (position light).
Proof.
  intros El Hg Hd. destruct (parent_present l Hg) as [g Eg].
  split; [unfold ready; rewrite El, Eg; reflexivity|].
  rewrite (getPositionSpherical_distance l g camera Eg).
  unfold pivotDistance. rewrite El.
  destruct (Rlt_dec _ _); [lra|reflexivity].
Qed.

(** X12.  For a level camera and a light away from the pivot and not
    vertically above or below it, [rotateCounterclockwise] adds the degrees
    to the azimuth of the light and [rotateClockwise] subtracts them, in both
    cases up to whole turns, with the result from 0 (included) to 360
    (excluded); the elevation and the distance stay as they were. *)
Theorem rotate_light_changes_azimuth_only
    (l : AreaLight.t host) (light : RectAreaLight host) (degrees : R)
    (camera : PerspectiveCamera) :
  areaLight l = Some light ->
  parentGroup l <> None ->
  unitQuaternion (quaternion camera) ->
  levelCamera camera ->
  length (position light) > 1 / 10000 ->
  cos (degToRad (elevation (getPositionSpherical (Some camera) l))) > 1 / 10000 ->
  let current := getPositionSpherical (Some camera) l in
  (exists l' a' (k : Z),
     rotateCounterclockwise (Some degrees) (Some camera) l = Done l' /\
     getPositionSpherical (Some camera) l' =
     mkSpherical a' (elevation current) (distance current) /\
     0 <= a' < 360 /\ a' = azimuth current + degrees - 360 * IZR k) /\
  (exists l' a' (k : Z),
     rotateClockwise (Some degrees) (Some camera) l = Done l' /\
     getPositionSpherical (Some camera) l' =
     mkSpherical a' (elevation current) (distance current) /\
     0 <= a' < 360 /\ a' = azimuth current - degrees - 360 * IZR k).
Proof.
  intros El Hg Hunit Hlevel Hd Hce current.
  destruct (getPositionSpherical_of_light l light camera El Hg Hd) as [Hready Hdist].
  pose proof (getPositionSpherical_elevation_range (Some camera) l) as He.
  fold current in Hce, He, Hdist.
  split.
  - unfold rotateCounterclockwise. rewrite Hready. cbn [orDefault]. fold current.
    destruct (rem_congruent (azimuth current + degrees) 360) as [j Ej].
    destruct (setPositionSpherical_number_readback l light
                (JS.rem (azimuth current + degrees) 360) (elevation current) camera
                El Hg Hunit Hlevel He Hce Hd)
      as [l' [light' [a' [k [E [_ [_ [_ [Hread [Ha Ek]]]]]]]]]].
    exists l', a', (j + k)%Z. split; [exact E|]. split; [rewrite Hdist; exact Hread|].
    split; [exact Ha|]. rewrite Ek, Ej, plus_IZR. ring.
  - unfold rotateClockwise. rewrite Hready. cbn [orDefault]. fold current.
    destruct (rem_congruent (azimuth current - degrees + 360) 360) as [j Ej].
    destruct (setPositionSpherical_number_readback l light
                (JS.rem (azimuth current - degrees + 360) 360) (elevation current) camera
                El Hg Hunit Hlevel He Hce Hd)
      as [l' [light' [a' [k [E [_ [_ [_ [Hread [Ha Ek]]]]]]]]]].
    exists l', a', (j + k - 1)%Z. split; [exact E|]. split; [rewrite Hdist; exact Hread|].
    split; [exact Ha|]. rewrite Ek, Ej, minus_IZR, plus_IZR. ring.
Qed.

Lemma same_angle (a b : R) (k : Z) :
  0 <= a < 360 -> 0 <= b < 360 -> a = b - 360 * IZR k -> a = b.
Proof.
  intros Ha Hb E.
  assert (Hk : -1 < IZR k < 1) by (split; lra).
  destruct Hk as [H1 H2]. apply (lt_IZR (-1)) in H1. apply (lt_IZR _ 1) in H2.
  assert (k = 0%Z) by lia. subst k. lra.
Qed.

(** X13.  Under the same conditions, turning a light clockwise and then
    counterclockwise by the same number of degrees brings it back to the
    spherical coordinates it had. *)
Theorem rotate_light_there_and_back
    (l : AreaLight.t host) (light : RectAreaLight host) (degrees : R)
    (camera : PerspectiveCamera) :
  areaLight l = Some light ->
  parentGroup l <> None ->
  unitQuaternion (quaternion camera) ->
  levelCamera camera ->
  length (position light) > 1 / 10000 ->
  cos (degToRad (elevation (getPositionSpherical (Some camera) l))) > 1 / 10000 ->
  exists l1 l2,
    rotateClockwise (Some degrees) (Some camera) l = Done l1 /\
    rotateCounterclockwise (Some degrees) (Some camera) l1 = Done l2 /\
    getPositionSpherical (Some camera) l2 = getPositionSpherical (Some camera) l.
Proof.
  intros El Hg Hunit Hlevel Hd Hce.
  set (current := getPositionSpherical (Some camera) l) in *.
  destruct (getPositionSpherical_of_light l light camera El Hg Hd) as [Hready Hdist].
  pose proof (getPositionSpherical_elevation_range (Some camera) l) as He.
  pose proof (getPositionSpherical_azimuth_range (Some camera) l) as Haz.
  fold current in He, Hdist, Haz.
  unfold rotateClockwise. rewrite Hready. cbn [orDefault]. fold current.
  destruct (rem_congruent (azimuth current - degrees + 360) 360) as [j1 Ej1].
  destruct (setPositionSpherical_number_readback l light
              (JS.rem (azimuth current - degrees + 360) 360) (elevation current) camera
              El Hg Hunit Hlevel He Hce Hd)
    as [l1 [light1 [a1 [k1 [E1 [El1 [Eg1 [Hlen1 [Hread1 [Ha1 Ek1]]]]]]]]]].
  assert (Hg1 : parentGroup l1 <> None) by (rewrite Eg1; exact Hg).
  assert (Hd1 : length (position light1) > 1 / 10000) by (rewrite Hlen1; exact Hd).
  destruct (getPositionSpherical_of_light l1 light1 camera El1 Hg1 Hd1) as [Hready1 _].
  exists l1.
  unfold rotateCounterclockwise. rewrite Hready1. cbn [orDefault].
  rewrite Hread1. cbn [azimuth elevation].
  destruct (rem_congruent (a1 + degrees) 360) as [j2 Ej2].
  destruct (setPositionSpherical_number_readback l1 light1
              (JS.rem (a1 + degrees) 360) (elevation current) camera
              El1 Hg1 Hunit Hlevel He Hce Hd1)
    as [l2 [light2 [a2 [k2 [E2 [_ [_ [_ [Hread2 [Ha2 Ek2]]]]]]]]]].
  exists l2. split; [exact E1|]. split; [exact E2|].
  rewrite Hread2, Hlen1, <- Hdist.
  assert (Ea : a2 = azimuth current).
  { apply (same_angle a2 (azimuth current) (k2 + j2 + k1 + j1 - 1)%Z Ha2 Haz).
    rewrite Ek2, Ej2, Ek1, Ej1, minus_IZR, !plus_IZR. ring. }
  rewrite Ea. destruct current; reflexivity.
Qed.

(** X14.  For a camera whose rotation is a unit quaternion and a light that
    has its objects, [nudgeElevationUp] by a step that is not negative leaves
    the light at the former elevation plus the step, capped at 90, and
    [nudgeElevationDown] at the former elevation minus the step, raised to 0
    if it falls below: a light below the horizon is lifted onto it. *)
Theorem nudge_elevation_is_clamped
    (l : AreaLight.t host) (light : RectAreaLight host) (degrees : R)
    (camera : PerspectiveCamera) :
  areaLight l = Some light ->
  parentGroup l <> None ->
  unitQuaternion (quaternion camera) ->
  0 <= degrees ->
  let current := getPositionSpherical (Some camera) l in
  (exists l',
     nudgeElevationUp (Some degrees) (Some camera) l = Done l' /\
     elevation (getPositionSpherical (Some camera) l') =
     Rmin 90 (elevation current + degrees)) /\
  (exists l',
     nudgeElevationDown (Some degrees) (Some camera) l = Done l' /\
     elevation (getPositionSpherical (Some camera) l') =
     Rmax 0 (elevation current - degrees)).
Proof.
  intros El Hg Hunit Hdeg current. destruct (parent_present l Hg) as [g Eg].
  assert (Hready : ready (Some camera) l = true)
    by (unfold ready; rewrite El, Eg; reflexivity).
  pose proof (getPositionSpherical_elevation_range (Some camera) l) as He.
  pose proof (getPositionSpherical_azimuth_range (Some camera) l) as Ha.
  fold current in He, Ha.
  assert (Step : forall e, -90 <= e <= 90 ->
            exists l',
              setPositionSpherical (JS.Number (azimuth current)) e (Some camera) l
              = Done l' /\
              elevation (getPositionSpherical (Some camera) l') = e).
  { intros e Hrange.
    pose proof (setPositionSpherical_places l light g (JS.Number (azimuth current))
                  (azimuth current) e camera El Eg Hunit
                  (directionToAzimuthAngle_in_range _ Ha)) as E.
    cbv zeta in E. eexists. split; [exact E|].
    unfold getPositionSpherical, withAreaLight, lookAt, setPosition.
    cbn [areaLight parentGroup position]. rewrite Eg.
    apply spherical_point_elevation; try assumption. apply placed_distance. }
  split.
  - unfold nudgeElevationUp. rewrite Hready. cbn [orDefault]. fold current.
    apply Step. unfold Rmin. destruct (Rle_dec _ _); lra.
  - unfold nudgeElevationDown. rewrite Hready. cbn [orDefault]. fold current.
    apply Step. unfold Rmax. destruct (Rle_dec _ _); lra.
Qed.


Lemma lengthSq_applyEuler (v : Vector3) (e : Euler) :
  lengthSq (applyEuler v e) = lengthSq v.
Proof.
  destruct v as [vx vy vz]. destruct e as [a b c].
  unfold applyEuler, lengthSq; cbn [x y z ex ey ez].
  pose proof (sin2_cos2 a) as Ha. pose proof (sin2_cos2 b) as Hb.
  pose proof (sin2_cos2 c) as Hc. unfold Rsqr in Ha, Hb, Hc.
  set (ca := cos a) in *. set (sa := sin a) in *.
  set (cb := cos b) in *. set (sb := sin b) in *.
  set (cc := cos c) in *. set (sc := sin c) in *.
  nsatz.
Qed.

Lemma length_applyEuler (v : Vector3) (e : Euler) : length (applyEuler v e) = length v.
Proof. unfold length. rewrite lengthSq_applyEuler. reflexivity. Qed.

Lemma sub_add_cancel (a b : Vector3) : sub (add a b) a = b.
Proof. destruct a, b; unfold sub, add; simpl. f_equal; ring. Qed.

(** X15.  [rotate] turns the pivot of a light that has its objects: it adds
    the vertical delta to the X angle and the horizontal delta to the Y angle
    of the parent group, and leaves the position of the light relative to
    the pivot as it was.  The distance between the light and the pivot in
    world space is therefore the same before and after, whatever the
    deltas. *)
Theorem rotate_keeps_distance_to_pivot
    (l : AreaLight.t host) (light : RectAreaLight host) (g : Object3D) (deltaX deltaY : R) :
  areaLight l = Some light ->
  parentGroup l = Some g ->
  exists l' light',
    rotate deltaX deltaY l = Done l' /\
    areaLight l' = Some light' /\
    position light' = position light /\
    getRotation l' =
    euler (ex (rotation g) + deltaY) (ey (rotation g) + deltaX) (ez (rotation g)) /\
    worldPivotDistance l' = worldPivotDistance l /\
    worldPivotDistance l' = pivotDistance l.
Proof.
  intros El Eg. unfold rotate. rewrite Eg, El.
  do 2 eexists. split; [reflexivity|]. split; [reflexivity|].
  split; [reflexivity|]. split; [reflexivity|].
  unfold worldPivotDistance, pivotDistance. rewrite El, Eg.
  cbn [areaLight parentGroup lookAt position worldPosition groupPosition rotation].
  rewrite !sub_add_cancel, !length_applyEuler. split; reflexivity.
Qed.

(** X16.  [dolly] moves a light that is farther than 1e-4 from the pivot
    along its radius: the new distance from the pivot is the absolute value
    of the old distance plus the delta, so a negative delta larger than the
    distance carries the light through the pivot to the other side.  A light
    within 1e-4 of the pivot is moved along the Z axis of the pivot. *)
Theorem dolly_moves_along_the_radius
    (l : AreaLight.t host) (light : RectAreaLight host) (delta : R) :
  areaLight l = Some light ->
  parentGroup l <> None ->
  exists light',
    areaLight (dolly delta l) = Some light' /\
    (length (position light) > 1 / 10000 ->
     position light' =
     multiplyScalar (normalize (position light)) (length (position light) + delta) /\
     pivotDistance (dolly delta l) = Rabs (length (position light) + delta)) /\
    (length (position light) <= 1 / 10000 ->
     position light' = add (position light) (vec3 0 0 delta)).
Proof.
  intros El Hg. destruct (parent_present l Hg) as [g Eg].
  destruct (Rgt_dec (length (position light)) (1 / 10000)) as [Hd|Hd].
  - assert (Hu : lengthSq (normalize (position light)) = 1)
      by (apply lengthSq_normalize; lra).
    assert (Hp : position light =
                 multiplyScalar (normalize (position light)) (length (position light)))
      by (symmetry; apply scale_normalize; lra).
    destruct (dolly_radial l light _ _ delta El Hg Hu Hd Hp) as [light' [E [_ P]]].
    exists light'. split; [exact E|]. split; [|intros; lra].
    intros _. split; [exact P|].
    unfold pivotDistance. rewrite E, P, length_multiplyScalar, (length_unit _ Hu). ring.
  - unfold dolly. rewrite El, Eg.
    destruct (Rgt_dec (length (position light)) (1 / 10000)) as [C|_]; [contradiction|].
    eexists. split; [reflexivity|]. split; [intros; lra|].
    intros _. cbn [position lookAt setPosition].
    unfold multiplyScalar, add; simpl. f_equal; ring.
Qed.

End LightMoves.

Section LightMovesExamples.
Import AreaLight.

Lemma setDistance_sets_distance_witness :
  exists l',
    setDistance (-3) (Some lookingDown) keyLightExample = Done l' /\
    pivotDistance l' = Rabs (-3).
Proof.
  refine (setDistance_sets_distance keyLightExample _ (-3) lookingDown eq_refl _ _).
  - simpl. discriminate.
  - apply lookingDown_unit.
Defined.

Lemma setDistance_keeps_azimuth_and_elevation_witness :
  exists l',
    setDistance 5 (Some appCamera) lightAtAzimuth190 = Done l' /\
    getPositionSpherical (Some appCamera) l' = mkSpherical 190 60 5.
Proof.
  destruct lightAtAzimuth190_placed as [_ [Hcur [light [g [El [Eg Hlen]]]]]].
  assert (Hg : parentGroup lightAtAzimuth190 <> None) by (rewrite Eg; discriminate).
  assert (Hce : cos (degToRad (elevation (getPositionSpherical (Some appCamera)
                                            lightAtAzimuth190))) > 1 / 10000)
    by (rewrite Hcur; apply cos_60_above_threshold).
  destruct (setDistance_keeps_azimuth_and_elevation lightAtAzimuth190 light 5 appCamera
              El Hg appCamera_unit appCamera_level Hce ltac:(lra)) as [l' [E R]].
  exists l'. rewrite Hcur in R. split; [exact E | exact R].
Defined.

Lemma rotate_light_changes_azimuth_only_witness :
  let current := getPositionSpherical (Some appCamera) lightAtAzimuth190 in
  (exists l' a' (k : Z),
     rotateCounterclockwise (Some 200) (Some appCamera) lightAtAzimuth190 = Done l' /\
     getPositionSpherical (Some appCamera) l' =
     mkSpherical a' (elevation current) (distance current) /\
     0 <= a' < 360 /\ a' = azimuth current + 200 - 360 * IZR k) /\
  (exists l' a' (k : Z),
     rotateClockwise (Some 200) (Some appCamera) lightAtAzimuth190 = Done l' /\
     getPositionSpherical (Some appCamera) l' =
     mkSpherical a' (elevation current) (distance current) /\
     0 <= a' < 360 /\ a' = azimuth current - 200 - 360 * IZR k).
Proof.
  destruct lightAtAzimuth190_placed as [_ [Hcur [light [g [El [Eg Hlen]]]]]].
  assert (Hg : parentGroup lightAtAzimuth190 <> None) by (rewrite Eg; discriminate).
  assert (Hd : length (position light) > 1 / 10000)
    by (rewrite Hlen; apply keyLightExample_distance).
  assert (Hce : cos (degToRad (elevation (getPositionSpherical (Some appCamera)
                                            lightAtAzimuth190))) > 1 / 10000)
    by (rewrite Hcur; apply cos_60_above_threshold).
  exact (rotate_light_changes_azimuth_only lightAtAzimuth190 light 200 appCamera
           El Hg appCamera_unit appCamera_level Hd Hce).
Defined.

Lemma rotate_light_there_and_back_witness :
  exists l1 l2,
    rotateClockwise (Some 200) (Some appCamera) lightAtAzimuth190 = Done l1 /\
    rotateCounterclockwise (Some 200) (Some appCamera) l1 = Done l2 /\
    getPositionSpherical (Some appCamera) l2 =
    getPositionSpherical (Some appCamera) lightAtAzimuth190.
Proof.
  destruct lightAtAzimuth190_placed as [_ [Hcur [light [g [El [Eg Hlen]]]]]].
  assert (Hg : parentGroup lightAtAzimuth190 <> None) by (rewrite Eg; discriminate).
  assert (Hd : length (position light) > 1 / 10000)
    by (rewrite Hlen; apply keyLightExample_distance).
  assert (Hce : cos (degToRad (elevation (getPositionSpherical (Some appCamera)
                                            lightAtAzimuth190))) > 1 / 10000)
    by (rewrite Hcur; apply cos_60_above_threshold).
  exact (rotate_light_there_and_back lightAtAzimuth190 light 200 appCamera
           El Hg appCamera_unit appCamera_level Hd Hce).
Defined.

Lemma nudge_elevation_is_clamped_witness :
  let current := getPositionSpherical (Some lookingDown) keyLightExample in
  (exists l',
     nudgeElevationUp (Some 80) (Some lookingDown) keyLightExample = Done l' /\
     elevation (getPositionSpherical (Some lookingDown) l') =
     Rmin 90 (elevation current + 80)) /\
  (exists l',
     nudgeElevationDown (Some 80) (Some lookingDown) keyLightExample = Done l' /\
     elevation (getPositionSpherical (Some lookingDown) l') =
     Rmax 0 (elevation current - 80)).
Proof.
  refine (nudge_elevation_is_clamped keyLightExample _ 80 lookingDown eq_refl _ _ _).
  - simpl. discriminate.
  - apply lookingDown_unit.
  - lra.
Defined.

Lemma rotate_keeps_distance_to_pivot_witness :
  exists l' light',
    rotate (1 / 2) (- (1 / 4)) keyLightExample = Done l' /\
    areaLight l' = Some light' /\
    position light' = vec3 (5 - 0) (3 - - (5 / 10)) (5 - 0) /\
    getRotation l' = euler (0 + - (1 / 4)) (0 + 1 / 2) 0 /\
    worldPivotDistance l' = worldPivotDistance keyLightExample /\
    worldPivotDistance l' = pivotDistance keyLightExample.
Proof.
  refine (rotate_keeps_distance_to_pivot keyLightExample _ _ (1 / 2) (- (1 / 4))
            eq_refl eq_refl).
Defined.

Lemma dolly_moves_along_the_radius_witness :
  exists light',
    areaLight (dolly (-3) lightOnXAxis) = Some light' /\
    (length (vec3 1 0 0) > 1 / 10000 ->
     position light' =
     multiplyScalar (normalize (vec3 1 0 0)) (length (vec3 1 0 0) + -3) /\
     pivotDistance (dolly (-3) lightOnXAxis) = Rabs (length (vec3 1 0 0) + -3)) /\
    (length (vec3 1 0 0) <= 1 / 10000 ->
     position light' = add (vec3 1 0 0) (vec3 0 0 (-3))).
Proof.
  refine (dolly_moves_along_the_radius lightOnXAxis _ (-3) eq_refl _).
  simpl. discriminate.
Defined.

End LightMovesExamples.

(** * Further properties: the camera rig *)

Section CameraMoves.
Import CameraController.

Lemma constructor_asConfigured (windowAspect : R) : asConfigured (constructor windowAspect).
Proof.
  split; [apply constructor_withinRanges|].
  repeat split.
Qed.

Lemma distance_write_asConfigured (c : t) (v : R) :
  asConfigured c ->
  asConfigured (withCamera c (setPositionZ (camera c) (_clampDistance c v))).
Proof.
  intros [H [Hd [Hf [Hx [Hy Hq]]]]].
  split; [apply distance_write_withinRanges, H|].
  repeat split; assumption.
Qed.

Lemma zoom_write_asConfigured (c : t) (v : R) :
  asConfigured c ->
  asConfigured (withCamera c (setZoom (camera c) (_clampFOV c v))).
Proof.
  intros [H [Hd [Hf [Hx [Hy Hq]]]]].
  split; [apply zoom_write_withinRanges, H|].
  repeat split; assumption.
Qed.

Lemma perform_asConfigured (op : Operation) (c : t) :
  asConfigured c -> asConfigured (perform op c).
Proof.
  intros H. destruct op; cbn [perform].
  - apply distance_write_asConfigured, H.
  - unfold dollyCameraIn, _applyDolly. apply distance_write_asConfigured, H.
  - unfold dollyCameraOut, _applyDolly. apply distance_write_asConfigured, H.
  - apply zoom_write_asConfigured, H.
  - unfold increaseCameraFOV, _applyFOVChange. apply zoom_write_asConfigured, H.
  - unfold decreaseCameraFOV, _applyFOVChange. apply zoom_write_asConfigured, H.
  - unfold handleWheel, _applyFOVChange, _applyDolly.
    destruct isShiftPressed;
      [apply zoom_write_asConfigured, H | apply distance_write_asConfigured, H].
  - exact H.
  - unfold updatePinchZoom. apply distance_write_asConfigured, H.
  - exact H.
Qed.

Lemma performAll_asConfigured (ops : list Operation) (c : t) :
  asConfigured c -> asConfigured (performAll ops c).
Proof.
  revert c. induction ops as [|op ops IH]; intros c H; [exact H|].
  unfold performAll in *. cbn [fold_left]. apply IH, perform_asConfigured, H.
Qed.

Lemma onAxis_level (camera : PerspectiveCamera) :
  onAxis camera -> unitQuaternion (quaternion camera) /\ levelCamera camera.
Proof.
  intros [_ [_ Hq]]. destruct camera as [p q zm asp]; cbn [quaternion] in *. subst q.
  split; [apply identity_unit | apply identity_level].
Qed.

(** X17.  No operation of the camera controller turns the camera or moves it
    off the Z axis: after every sequence of operations from the controller as
    constructed, the camera has the identity rotation and sits at
    (0, 0, distance).  It is therefore a level camera, and its forward
    vector, the azimuth 0 of the lights, is the world -Z direction. *)
Theorem camera_stays_on_the_axis (windowAspect : R) (ops : list Operation) :
  let camera := getCamera (performAll ops (constructor windowAspect)) in
  onAxis camera /\
  unitQuaternion (quaternion camera) /\
  levelCamera camera /\
  getCameraForward camera = vec3 0 0 (-1) /\
  getCameraRight camera = vec3 1 0 0.
Proof.
  intros camera.
  pose proof (performAll_asConfigured ops _ (constructor_asConfigured windowAspect))
    as [_ [_ [_ Haxis]]].
  fold (getCamera (performAll ops (constructor windowAspect))) in Haxis.
  fold camera in Haxis.
  destruct (onAxis_level camera Haxis) as [Hunit Hlevel].
  split; [exact Haxis|]. split; [exact Hunit|]. split; [exact Hlevel|].
  destruct Haxis as [_ [_ Hq]].
  unfold getCameraForward, getCameraRight. rewrite Hq.
  assert (F : applyQuaternion (vec3 0 0 (-1)) identityQuaternion = vec3 0 0 (-1)).
  { unfold applyQuaternion, identityQuaternion; simpl. f_equal; ring. }
  assert (Rt : applyQuaternion (vec3 1 0 0) identityQuaternion = vec3 1 0 0).
  { unfold applyQuaternion, identityQuaternion; simpl. f_equal; ring. }
  rewrite F, Rt. split; apply normalize_unit; unfold lengthSq; simpl; ring.
Qed.


Ltac configured c H :=
  destruct H as [[E1 [E2 [E3 [E4 [Hd Hf]]]]] [Es [Ef _]]];
  unfold getCameraDistance, getCameraFOV, CONFIG.CAMERA.MIN_DISTANCE,
    CONFIG.CAMERA.MAX_DISTANCE, CONFIG.CAMERA.FOV_MIN, CONFIG.CAMERA.FOV_MAX,
    CONFIG.CAMERA.DOLLY_SPEED, CONFIG.CAMERA.FOV_SPEED in *.

(** X18.  In every state of the camera controller, a wheel event without
    Shift leaves the zoom alone and moves the camera by one dolly step of
    0.1: away from the origin, up to 64, when deltaY is positive, and toward
    it, down to 8, otherwise (also for deltaY = 0).  With Shift it leaves the
    distance alone and changes the zoom by one step of 0.02: down to 0.5 at
    least when deltaY is positive, up to 5 at most otherwise. *)
Theorem wheel_moves_one_step (windowAspect : R) (ops : list Operation) (deltaY : R) :
  let c := performAll ops (constructor windowAspect) in
  (getCameraFOV (handleWheel deltaY false c) = getCameraFOV c /\
   getCameraDistance (handleWheel deltaY false c) =
   if Rgt_dec deltaY 0 then Rmin 64 (getCameraDistance c + 1 / 10)
   else Rmax 8 (getCameraDistance c - 1 / 10)) /\
  (getCameraDistance (handleWheel deltaY true c) = getCameraDistance c /\
   getCameraFOV (handleWheel deltaY true c) =
   if Rgt_dec deltaY 0 then Rmax (5 / 10) (getCameraFOV c - 2 / 100)
   else Rmin 5 (getCameraFOV c + 2 / 100)).
Proof.
  intros c.
  pose proof (performAll_asConfigured ops _ (constructor_asConfigured windowAspect)) as H.
  fold c in H. configured c H.
  unfold handleWheel, _applyDolly, _applyFOVChange, _clampDistance, _clampFOV.
  cbn [camera withCamera setPositionZ setZoom THREE.position zoom z].
  rewrite E1, E2, E3, E4, Es, Ef.
  split; (split; [reflexivity|]); destruct (Rgt_dec deltaY 0);
    unfold Rmax, Rmin; repeat destruct (Rle_dec _ _); lra.
Qed.


End CameraMoves.

(** * Further properties: the scene manager *)

Section SceneLights.
Context {host : Host}.
Import SceneManager.

Lemma getLight_setLight (role : LightRole) (l : option (AreaLight.t host))
    (sm : SceneManager.t host) :
  getLight role (setLight role l sm) = l.
Proof. destruct role; reflexivity. Qed.

Lemma getLight_setLight_other (role : LightRole) (l : option (AreaLight.t host))
    (sm : SceneManager.t host) :
  getLight (otherLight role) (setLight role l sm) = getLight (otherLight role) sm.
Proof. destruct role; reflexivity. Qed.

(** X20.  The intensity and the size that are set on a light are the ones
    read back, each setter leaves the other property alone, and neither
    touches the other light of the scene. *)
Theorem light_intensity_and_size_round_trip
    (role : LightRole) (sm : SceneManager.t host) (l : AreaLight.t host)
    (light : AreaLight.RectAreaLight host) (intensity width height : R) :
  getLight role sm = Some l ->
  AreaLight.areaLight l = Some light ->
  (exists sm',
     setLightIntensity role intensity sm = Done sm' /\
     getLightIntensity role sm' = Ok intensity /\
     getLightSize role sm' = getLightSize role sm /\
     getLight (otherLight role) sm' = getLight (otherLight role) sm) /\
  (exists sm',
     setLightSize role width height sm = Done sm' /\
     getLightSize role sm' = Ok (width, height) /\
     getLightIntensity role sm' = getLightIntensity role sm /\
     getLight (otherLight role) sm' = getLight (otherLight role) sm).
Proof.
  intros Hl El. split.
  - unfold setLightIntensity, onLightObject. rewrite Hl, El.
    eexists. split; [reflexivity|].
    unfold getLightIntensity, getLightSize.
    rewrite !getLight_setLight, getLight_setLight_other, Hl, El. repeat split.
  - unfold setLightSize, onLightObject. rewrite Hl, El.
    eexists. split; [reflexivity|].
    unfold getLightIntensity, getLightSize.
    rewrite !getLight_setLight, getLight_setLight_other, Hl, El. repeat split.
Qed.

(** X21.  [setKeyLightColor] and [setFillLightColor] give the light the
    colour that [parseInt] reads from the string without its first hash
    sign, and copy that colour to the highlight overlay, whose visibility
    they leave alone; the light does not move, and [getKeyLightColor] or
    [getFillLightColor] then returns the code of that colour. *)
Theorem setLightColor_colours_light_and_overlay
    (role : LightRole) (sm : SceneManager.t host) (l : AreaLight.t host)
    (light : AreaLight.RectAreaLight host) (m : AreaLight.Mesh host) (s : string) :
  getLight role sm = Some l ->
  AreaLight.areaLight l = Some light ->
  AreaLight.highlightOverlay l = Some m ->
  exists sm' l' light' m',
    setLightColor role (JS.Str s) sm = Done sm' /\
    getLight role sm' = Some l' /\
    AreaLight.areaLight l' = Some light' /\
    AreaLight.highlightOverlay l' = Some m' /\
    AreaLight.color light' = Color_ofHex host (parseInt host (removeFirstHash s) 16) /\
    AreaLight.materialColor m' = AreaLight.color light' /\
    AreaLight.visible m' = AreaLight.visible m /\
    AreaLight.position light' = AreaLight.position light /\
    getLightColor role sm' = Ok (hexCode (AreaLight.color light')) /\
    getLight (otherLight role) sm' = getLight (otherLight role) sm.
Proof.
  intros Hl El Em.
  unfold setLightColor, parseColor, onLightObject. rewrite Hl, El. cbn [andThen].
  unfold onLight. rewrite getLight_setLight.
  unfold AreaLight.updateHighlightColor, AreaLight.withAreaLight.
  cbn [AreaLight.highlightOverlay AreaLight.areaLight]. rewrite Em. cbn [inField].
  do 4 eexists. split; [reflexivity|].
  rewrite getLight_setLight. split; [reflexivity|].
  cbn [AreaLight.areaLight AreaLight.highlightOverlay AreaLight.color
       AreaLight.materialColor AreaLight.visible AreaLight.position].
  repeat (split; [reflexivity|]).
  split.
  - unfold getLightColor. rewrite getLight_setLight. reflexivity.
  - destruct role; reflexivity.
Qed.

Lemma applyEuler_zero (v : Vector3) : applyEuler v (euler 0 0 0) = v.
Proof.
  destruct v as [a b c]. unfold applyEuler; cbn [x y z ex ey ez].
  rewrite cos_0, sin_0. f_equal; ring.
Qed.

(** X22.  [setKeyLightPosition] and [setFillLightPosition] take a position
    in world space: they store it relative to the model origin (0, -0.5, 0),
    and while the pivot of the light has not been rotated the light is in
    world space where it was asked to be. *)
Theorem setLightPosition_places_in_world
    (role : LightRole) (sm : SceneManager.t host) (l : AreaLight.t host)
    (light : AreaLight.RectAreaLight host) (g : AreaLight.Object3D) (px py pz : R) :
  getLight role sm = Some l ->
  AreaLight.areaLight l = Some light ->
  AreaLight.parentGroup l = Some g ->
  AreaLight.groupPosition g = CONFIG.MODEL.ORIGIN ->
  exists sm' l' light',
    setLightPosition role px py pz sm = Done sm' /\
    getLight role sm' = Some l' /\
    AreaLight.areaLight l' = Some light' /\
    AreaLight.parentGroup l' = Some g /\
    AreaLight.position light' = vec3 px (py + 5 / 10) pz /\
    (AreaLight.rotation g = euler 0 0 0 ->
     AreaLight.worldPosition (Some g) light' = vec3 px py pz) /\
    getLight (otherLight role) sm' = getLight (otherLight role) sm.
Proof.
  intros Hl El Eg Ho.
  unfold setLightPosition. rewrite Hl, El.
  do 3 eexists. split; [reflexivity|].
  rewrite getLight_setLight, getLight_setLight_other.
  split; [reflexivity|]. split; [reflexivity|]. split; [exact Eg|].
  cbn [AreaLight.areaLight AreaLight.withAreaLight AreaLight.lookAt AreaLight.setPosition
       AreaLight.position].
  unfold CONFIG.MODEL.ORIGIN; cbn [x y z].
  split; [f_equal; ring|]. split; [|reflexivity].
  intros Hr. unfold AreaLight.worldPosition.
  cbn [AreaLight.position AreaLight.lookAt AreaLight.setPosition].
  rewrite Hr, Ho, applyEuler_zero.
  unfold add, CONFIG.MODEL.ORIGIN; cbn [x y z]. f_equal; ring.
Qed.

Lemma objectRef_eqb_eq (a b : AreaLight.ObjectRef) : objectRef_eqb a b = true <-> a = b.
Proof.
  destruct a as [o1|n1], b as [o2|n2]; cbn; split; intros H; try discriminate.
  - apply String.eqb_eq in H. subst; reflexivity.
  - inversion H. apply String.eqb_refl.
  - apply Nat.eqb_eq in H. subst; reflexivity.
  - inversion H. apply Nat.eqb_refl.
Qed.

Lemma isPickerOf_spec (l : option (AreaLight.t host)) (o : AreaLight.ObjectRef) :
  isPickerOf l o = true <->
  exists l', l = Some l' /\ AreaLight.getPickerGeometry l' = Some o.
Proof.
  unfold isPickerOf. destruct l as [l'|].
  - destruct (AreaLight.getPickerGeometry l') as [p|] eqn:Ep.
    + rewrite objectRef_eqb_eq. split.
      * intros H. subst p. exists l'. split; [reflexivity | exact Ep].
      * intros [l0 [E1 E2]]. inversion E1; subst l0. rewrite Ep in E2.
        inversion E2. reflexivity.
    + split; [discriminate|].
      intros [l0 [E1 E2]]. inversion E1; subst l0. rewrite Ep in E2. discriminate.
  - split; [discriminate | intros [l0 [E _]]; discriminate].
Qed.

(** X23.  The objects that [getAreaLightHelpers] hands to the ray picker are
    exactly the objects that [getHoveredAreaLight] recognises: an
    intersection names a light if and only if the object hit is one of the
    pickable objects, and the light named is one whose pick proxy is that
    object. *)
Theorem pickable_objects_are_the_hoverable_ones
    (sm : SceneManager.t host) (o : AreaLight.ObjectRef) :
  (In o (getAreaLightHelpers sm) <->
   exists role, getHoveredAreaLight (Some (mkIntersection (Some o))) sm = Some role) /\
  (forall role,
     getHoveredAreaLight (Some (mkIntersection (Some o))) sm = Some role ->
     exists l, getLight role sm = Some l /\ AreaLight.getPickerGeometry l = Some o).
Proof.
  assert (Hin : In o (getAreaLightHelpers sm) <->
                isPickerOf (keyLight sm) o = true \/ isPickerOf (fillLight sm) o = true).
  { unfold getAreaLightHelpers. rewrite in_app_iff, !isPickerOf_spec.
    assert (One : forall l : option (AreaLight.t host),
              In o match l with
                   | Some l' => match AreaLight.getPickerGeometry l' with
                                | Some p => [p]
                                | None => []
                                end
                   | None => []
                   end <->
              exists l', l = Some l' /\ AreaLight.getPickerGeometry l' = Some o).
    { intros [l'|]; [|split; [intros [] | intros [l0 [E _]]; discriminate]].
      destruct (AreaLight.getPickerGeometry l') as [p|] eqn:Ep.
      - split.
        + intros [E|[]]. subst p. exists l'. split; [reflexivity | exact Ep].
        + intros [l0 [E1 E2]]. inversion E1; subst l0. rewrite Ep in E2.
          inversion E2. left; reflexivity.
      - split; [intros [] |].
        intros [l0 [E1 E2]]. inversion E1; subst l0. rewrite Ep in E2. discriminate. }
    rewrite !One. reflexivity. }
  split.
  - rewrite Hin. unfold getHoveredAreaLight.
    destruct (isPickerOf (keyLight sm) o) eqn:Hk.
    + split; [intros _; exists KeyLight; reflexivity | intros _; left; reflexivity].
    + destruct (isPickerOf (fillLight sm) o) eqn:Hf.
      * split; [intros _; exists FillLight; reflexivity | intros _; right; reflexivity].
      * split; [intros [C|C]; discriminate | intros [role C]; discriminate].
  - intros role. unfold getHoveredAreaLight.
    destruct (isPickerOf (keyLight sm) o) eqn:Hk.
    + intros E. inversion E; subst role. apply isPickerOf_spec in Hk.
      destruct Hk as [l [E1 E2]]. exists l. split; assumption.
    + destruct (isPickerOf (fillLight sm) o) eqn:Hf; [|discriminate].
      intros E. inversion E; subst role. apply isPickerOf_spec in Hf.
      destruct Hf as [l [E1 E2]]. exists l. split; assumption.
Qed.

End SceneLights.

(** * Further properties: the application after [init] *)

Section LightInOrder.
Context {host : Host}.
Import AreaLight.

Ltac light_still_in_order H :=
  first
    [ exact H
    | do 3 eexists;
      split; [reflexivity|]; split; [reflexivity|]; split; [eassumption|];
      split; [reflexivity|]; split; [first [eassumption | reflexivity]|];
      split; [reflexivity|]; split; [reflexivity|];
      eexists; split; reflexivity ].

Lemma mutate_inOrder (role : SceneManager.LightRole) (m : Mutation)
    (camera : option PerspectiveCamera) (l : AreaLight.t host) :
  lightInOrder role l -> lightInOrder role (stateOf (mutate m camera l)).
Proof.
  intros H. pose proof H as [light [g [mm [El [Eg [Ho [Em [Ec [Ep [Et Hf]]]]]]]]]].
  destruct l as [al pg hp ho pk ty]. cbn in El, Eg, Em, Ep, Et. subst al pg ho pk ty.
  destruct m; cbn [mutate];
    unfold setPositionSpherical, setDistance, setPositionCartesian, dolly, rotate,
      rotateClockwise, rotateCounterclockwise, nudgeElevationUp, nudgeElevationDown,
      moveTowardDirection, setPositionSpherical, ready;
    cbn [areaLight parentGroup];
    try destruct (targetAzimuthNum _);
    destruct camera; try exact H;
    try destruct (sphericalToCartesian _ _ _ _);
    cbn [stateOf]; light_still_in_order H.
Qed.

Lemma setHighlighted_inOrder (role : SceneManager.LightRole) (b : bool)
    (l : AreaLight.t host) :
  lightInOrder role l -> lightInOrder role (setHighlighted b l).
Proof.
  intros H. pose proof H as [light [g [mm [El [Eg [Ho [Em [Ec [Ep [Et Hf]]]]]]]]]].
  destruct l as [al pg hp ho pk ty]. cbn in El, Eg, Em, Ep, Et. subst al pg ho pk ty.
  unfold setHighlighted; cbn [highlightOverlay].
  do 3 eexists.
  split; [reflexivity|]. split; [reflexivity|]. split; [exact Ho|].
  split; [reflexivity|]. split; [exact Ec|].
  split; [reflexivity|]. split; [reflexivity|].
  destruct Hf as [light0 [E0 O0]]. cbn in E0. inversion E0; subst light0.
  eexists. split; [reflexivity | exact O0].
Qed.

Lemma created_light_inOrder (role : SceneManager.LightRole) :
  exists l,
    createHighlightOverlay
      (setHelper (constructor (host := host) (SceneManager.roleName role))) = Done l /\
    lightInOrder role l.
Proof.
  eexists. split; [reflexivity|].
  do 3 eexists.
  split; [reflexivity|]. split; [reflexivity|]. split; [reflexivity|].
  split; [reflexivity|]. split; [reflexivity|].
  split; [reflexivity|]. split; [reflexivity|].
  eexists. split; reflexivity.
Qed.

End LightInOrder.

Section SceneInOrder.
Context {host : Host}.
Import SceneManager.

Lemma setLight_inOrder (role : LightRole) (l' : AreaLight.t host) (sm : SceneManager.t host) :
  sceneInOrder sm -> lightInOrder role l' -> sceneInOrder (setLight role (Some l') sm).
Proof.
  intros [Hs [Hr [Hm [Hrc [Hc Hl]]]]] Hl'.
  destruct role; cbn [setLight];
    (split; [exact Hs|]; split; [exact Hr|]; split; [exact Hm|]; split; [exact Hrc|];
     split; [exact Hc|]);
    intros role'; destruct role'; cbn [getLight keyLight fillLight];
    first [ eexists; split; [reflexivity | exact Hl']
          | apply (Hl KeyLight) | apply (Hl FillLight) ].
Qed.

Lemma light_of_role (role : LightRole) (sm : SceneManager.t host) :
  sceneInOrder sm -> exists l, getLight role sm = Some l /\ lightInOrder role l.
Proof. intros [_ [_ [_ [_ [_ Hl]]]]]. apply Hl. Qed.

Lemma onLight_inOrder (role : LightRole)
    (f : AreaLight.t host -> Outcome (AreaLight.t host)) (sm : SceneManager.t host) :
  (forall l, lightInOrder role l -> lightInOrder role (stateOf (f l))) ->
  sceneInOrder sm -> sceneInOrder (stateOf (onLight role f sm)).
Proof.
  intros Hf H. destruct (light_of_role role sm H) as [l [El Hl]].
  unfold onLight. rewrite El. specialize (Hf l Hl).
  destruct (f l); cbn [inField stateOf] in *; apply setLight_inOrder; assumption.
Qed.

Lemma onLightWithCamera_inOrder (role : LightRole)
    (f : option PerspectiveCamera -> AreaLight.t host -> Outcome (AreaLight.t host))
    (sm : SceneManager.t host) :
  (forall camera l, lightInOrder role l -> lightInOrder role (stateOf (f camera l))) ->
  sceneInOrder sm -> sceneInOrder (stateOf (onLightWithCamera role f sm)).
Proof.
  intros Hf H. destruct (light_of_role role sm H) as [l [El Hl]].
  unfold onLightWithCamera. rewrite El.
  destruct (SceneManager.camera sm) as [cam|]; [|exact H].
  specialize (Hf (Some cam) l Hl).
  destruct (f (Some cam) l); cbn [inField stateOf] in *; apply setLight_inOrder; assumption.
Qed.

Lemma onLightObject_inOrder (role : LightRole)
    (f : AreaLight.RectAreaLight host -> AreaLight.RectAreaLight host)
    (sm : SceneManager.t host) :
  (forall light, AreaLight.position (f light) = AreaLight.position light /\
                 AreaLight.orientation (f light) = AreaLight.orientation light /\
                 AreaLight.color (f light) = AreaLight.color light) ->
  sceneInOrder sm -> sceneInOrder (stateOf (onLightObject role f sm)).
Proof.
  intros Hf H. destruct (light_of_role role sm H) as [l [El Hl]].
  unfold onLightObject. rewrite El.
  destruct Hl as [light [g [mm [Ea [Eg [Ho [Em [Ec [Ep [Et Hface]]]]]]]]]].
  rewrite Ea. cbn [stateOf]. apply setLight_inOrder; [exact H|].
  destruct (Hf light) as [Fp [Fo Fc]].
  destruct l as [al pg hp ho pk ty]. cbn in Ea, Eg, Em, Ep, Et. subst al pg ho pk ty.
  exists (f light), g, mm.
  split; [reflexivity|]. split; [reflexivity|]. split; [exact Ho|].
  split; [reflexivity|]. split; [rewrite Fc; exact Ec|].
  split; [reflexivity|]. split; [reflexivity|].
  destruct Hface as [light0 [E0 O0]]. cbn in E0. inversion E0; subst light0.
  eexists. split; [reflexivity|].
  cbn [AreaLight.areaLight AreaLight.parentGroup AreaLight.type AreaLight.withAreaLight] in *.
  rewrite Fo, O0. unfold AreaLight.worldPosition. rewrite Fp. reflexivity.
Qed.

Lemma setLightColor_inOrder (role : LightRole) (v : JS.Value) (sm : SceneManager.t host) :
  sceneInOrder sm -> sceneInOrder (stateOf (setLightColor role v sm)).
Proof.
  intros H. destruct (light_of_role role sm H) as [l [El Hl]].
  unfold setLightColor. rewrite El.
  destruct (parseColor v) as [hex|e]; [|exact H].
  destruct Hl as [light [g [mm [Ea [Eg [Ho [Em [Ec [Ep [Et Hface]]]]]]]]]].
  unfold onLightObject. rewrite El, Ea. cbn [andThen].
  unfold onLight. rewrite getLight_setLight.
  destruct l as [al pg hp ho pk ty]. cbn in Ea, Eg, Em, Ep, Et. subst al pg ho pk ty.
  unfold AreaLight.updateHighlightColor, AreaLight.withAreaLight.
  cbn [AreaLight.highlightOverlay AreaLight.areaLight inField stateOf].
  assert (Hmid : sceneInOrder
                   (setLight role
                      (Some (AreaLight.mkAreaLight (Some light) (Some g) hp (Some mm)
                               (Some (AreaLight.PickerOf (roleName role))) (roleName role)))
                      sm)).
  { apply setLight_inOrder; [exact H|].
    exists light, g, mm. repeat split; try assumption; try reflexivity. }
  match goal with
  | |- sceneInOrder (setLight role (Some ?l') (setLight role ?l0 sm)) =>
      assert (E : setLight role (Some l') (setLight role l0 sm) = setLight role (Some l') sm)
        by (destruct role; reflexivity);
      rewrite E
  end.
  apply setLight_inOrder; [exact H|].
  do 3 eexists.
  split; [reflexivity|]. split; [reflexivity|]. split; [exact Ho|].
  split; [reflexivity|]. split; [reflexivity|].
  split; [reflexivity|]. split; [reflexivity|].
  destruct Hface as [light0 [E0 O0]]. cbn in E0. inversion E0; subst light0.
  eexists. split; [reflexivity|]. exact O0.
Qed.

Lemma onCameraController_inOrder (op : CameraController.Operation)
    (sm : SceneManager.t host) :
  sceneInOrder sm ->
  sceneInOrder (stateOf (onCameraController (CameraController.perform op) sm)).
Proof.
  intros [Hs [Hr [Hm [Hrc [[c [Ec [Ecam Hc]]] Hl]]]]].
  unfold onCameraController. rewrite Ecam, Ec. cbn [stateOf].
  unfold setCameraControllerField. rewrite Ecam.
  split; [exact Hs|]. split; [exact Hr|]. split; [exact Hm|]. split; [exact Hrc|].
  split; [|exact Hl].
  eexists. split; [reflexivity|]. split; [reflexivity|].
  apply perform_asConfigured, Hc.
Qed.

Lemma render_inOrder (sm : SceneManager.t host) :
  sceneInOrder sm -> sceneInOrder (stateOf (render sm)).
Proof.
  intros H. unfold render. destruct (renderer sm) eqn:Er; [|exact H].
  destruct H as [Hs [Hr [Hm [Hrc [Hc Hl]]]]].
  split; [exact Hs|]. split; [cbn; discriminate|]. split; [exact Hm|].
  split; [exact Hrc|]. split; [exact Hc | exact Hl].
Qed.

Lemma onRotationController_inOrder
    (f : RotationController host -> RotationController host) (sm : SceneManager.t host) :
  sceneInOrder sm -> sceneInOrder (stateOf (onRotationController f sm)).
Proof.
  intros H. unfold onRotationController.
  destruct (rotationController sm) as [rc|] eqn:Erc; [|exact H].
  apply render_inOrder.
  destruct H as [Hs [Hr [Hm [Hrc [Hc Hl]]]]].
  split; [exact Hs|]. split; [exact Hr|]. split; [exact Hm|].
  split; [cbn; discriminate|]. split; [exact Hc | exact Hl].
Qed.

Lemma model_methods_inOrder (sm : SceneManager.t host) (v : JS.Value) (a b c : R) :
  sceneInOrder sm ->
  sceneInOrder (stateOf (changeModelColor v sm)) /\
  sceneInOrder (stateOf (changeModelSize a sm)) /\
  sceneInOrder (stateOf (scaleModel a b c sm)) /\
  sceneInOrder (stateOf (changeBackgroundColor v sm)).
Proof.
  intros H. pose proof H as [Hs [Hr [Hm [Hrc [Hc Hl]]]]].
  unfold changeModelColor, changeModelSize, scaleModel, changeBackgroundColor.
  destruct (model sm) as [m|] eqn:Em; [|congruence].
  destruct (scene sm) as [sc|] eqn:Esc; [|congruence].
  assert (New : forall sm', scene sm' <> None -> renderer sm' = renderer sm ->
                  model sm' <> None -> rotationController sm' = rotationController sm ->
                  camera sm' = camera sm -> cameraController sm' = cameraController sm ->
                  keyLight sm' = keyLight sm -> fillLight sm' = fillLight sm ->
                  sceneInOrder sm').
  { intros sm' N1 E2 N3 E4 E5 E6 E7 E8.
    split; [exact N1|]. split; [rewrite E2; exact Hr|]. split; [exact N3|].
    split; [rewrite E4; exact Hrc|]. split.
    - destruct Hc as [c0 [Ec [Ecam Hcfg]]]. exists c0.
      rewrite E5, E6. split; [exact Ec|]. split; [exact Ecam | exact Hcfg].
    - intros role. destruct (Hl role) as [l [El Hin]]. exists l. split; [|exact Hin].
      destruct role; cbn [getLight] in *; congruence. }
  destruct (parseColor v); cbn [stateOf];
    repeat split; try exact H; apply New; cbn; congruence.
Qed.

End SceneInOrder.

Section AppInOrder.
Context {host : Host}.
Import SceneManager Application.

(** What a handler leaves alone. *)
Lemma callScene_keeps
    (f : SceneManager.t host -> Outcome (SceneManager.t host)) (app : Application.t host) :
  sceneManager (stateOf (callScene f app)) = stateOf (f (sceneManager app)) /\
  interactionModeManager (stateOf (callScene f app)) = interactionModeManager app /\
  currentHoveredAreaLight (stateOf (callScene f app)) = currentHoveredAreaLight app /\
  isAreaLightDragging (stateOf (callScene f app)) = isAreaLightDragging app /\
  wsClient (stateOf (callScene f app)) = wsClient app.
Proof. unfold callScene. destruct (f (sceneManager app)); repeat split. Qed.

Lemma logValue_keeps (label : string) (v : Logged) (app : Application.t host) :
  sceneManager (stateOf (logValue label v app)) = sceneManager app /\
  interactionModeManager (stateOf (logValue label v app)) = interactionModeManager app /\
  currentHoveredAreaLight (stateOf (logValue label v app)) = currentHoveredAreaLight app /\
  isAreaLightDragging (stateOf (logValue label v app)) = isAreaLightDragging app /\
  wsClient (stateOf (logValue label v app)) = wsClient app.
Proof. repeat split. Qed.

Lemma logResult_keeps {A : Type} (label : string) (r : Result A) (wrap : A -> Logged)
    (app : Application.t host) :
  sceneManager (stateOf (logResult label r wrap app)) = sceneManager app /\
  interactionModeManager (stateOf (logResult label r wrap app)) = interactionModeManager app /\
  currentHoveredAreaLight (stateOf (logResult label r wrap app))
  = currentHoveredAreaLight app /\
  isAreaLightDragging (stateOf (logResult label r wrap app)) = isAreaLightDragging app /\
  wsClient (stateOf (logResult label r wrap app)) = wsClient app.
Proof. destruct r; repeat split. Qed.

Lemma showToolNotification_keeps (v : JS.Value) (app : Application.t host) :
  sceneManager (stateOf (_showToolNotification v app)) = sceneManager app /\
  interactionModeManager (stateOf (_showToolNotification v app))
  = interactionModeManager app /\
  currentHoveredAreaLight (stateOf (_showToolNotification v app))
  = currentHoveredAreaLight app /\
  isAreaLightDragging (stateOf (_showToolNotification v app)) = isAreaLightDragging app /\
  wsClient (stateOf (_showToolNotification v app)) = wsClient app.
Proof. destruct v; repeat split. Qed.

Ltac scene_order H :=
  lazymatch goal with
  | |- sceneInOrder (stateOf (SceneManager.dollyCamera _ _)) =>
      apply (onCameraController_inOrder (CameraController.DollyCamera _)), H
  | |- sceneInOrder (stateOf (SceneManager.dollyCameraIn _ _)) =>
      apply (onCameraController_inOrder (CameraController.DollyCameraIn _)), H
  | |- sceneInOrder (stateOf (SceneManager.dollyCameraOut _ _)) =>
      apply (onCameraController_inOrder (CameraController.DollyCameraOut _)), H
  | |- sceneInOrder (stateOf (SceneManager.setCameraFOV _ _)) =>
      apply (onCameraController_inOrder (CameraController.SetCameraFOV _)), H
  | |- sceneInOrder (stateOf (SceneManager.increaseCameraFOV _ _)) =>
      apply (onCameraController_inOrder (CameraController.IncreaseCameraFOV _)), H
  | |- sceneInOrder (stateOf (SceneManager.decreaseCameraFOV _ _)) =>
      apply (onCameraController_inOrder (CameraController.DecreaseCameraFOV _)), H
  | |- sceneInOrder (stateOf (setModelRotation _ _ _ _)) =>
      apply onRotationController_inOrder, H
  | |- sceneInOrder (stateOf (rotateModelClockwise _ _)) =>
      apply onRotationController_inOrder, H
  | |- sceneInOrder (stateOf (rotateModelCounterclockwise _ _)) =>
      apply onRotationController_inOrder, H
  | |- sceneInOrder (stateOf (nudgeModelPitchUp _ _)) =>
      apply onRotationController_inOrder, H
  | |- sceneInOrder (stateOf (nudgeModelPitchDown _ _)) =>
      apply onRotationController_inOrder, H
  | |- sceneInOrder (stateOf (nudgeModelRoll _ _)) =>
      apply onRotationController_inOrder, H
  | |- sceneInOrder (stateOf (changeModelColor _ _)) =>
      apply (proj1 (model_methods_inOrder _ _ 0 0 0 H))
  | |- sceneInOrder (stateOf (changeModelSize _ _)) =>
      apply (proj1 (proj2 (model_methods_inOrder _ JS.Undefined _ 0 0 H)))
  | |- sceneInOrder (stateOf (scaleModel _ _ _ _)) =>
      apply (proj1 (proj2 (proj2 (model_methods_inOrder _ JS.Undefined _ _ _ H))))
  | |- sceneInOrder (stateOf (changeBackgroundColor _ _)) =>
      apply (proj2 (proj2 (proj2 (model_methods_inOrder _ _ 0 0 0 H))))
  | |- sceneInOrder (stateOf (setLightIntensity _ _ _)) =>
      apply onLightObject_inOrder; [intros ?; repeat split | exact H]
  | |- sceneInOrder (stateOf (setLightSize _ _ _ _)) =>
      apply onLightObject_inOrder; [intros ?; repeat split | exact H]
  | |- sceneInOrder (stateOf (setLightColor _ _ _)) =>
      apply setLightColor_inOrder, H
  | |- sceneInOrder (stateOf (setLightPositionSpherical _ _ _ _)) =>
      apply onLightWithCamera_inOrder;
      [intros ? ?; apply (mutate_inOrder _ (SetPositionSpherical _ _)) | exact H]
  | |- sceneInOrder (stateOf (setLightDistance _ _ _)) =>
      apply onLightWithCamera_inOrder;
      [intros ? ?; apply (mutate_inOrder _ (SetDistance _)) | exact H]
  | |- sceneInOrder (stateOf (rotateLightClockwise _ _ _)) =>
      apply onLightWithCamera_inOrder;
      [intros ? ?; apply (mutate_inOrder _ (RotateClockwise _)) | exact H]
  | |- sceneInOrder (stateOf (rotateLightCounterclockwise _ _ _)) =>
      apply onLightWithCamera_inOrder;
      [intros ? ?; apply (mutate_inOrder _ (RotateCounterclockwise _)) | exact H]
  | |- sceneInOrder (stateOf (nudgeLightElevationUp _ _ _)) =>
      apply onLightWithCamera_inOrder;
      [intros ? ?; apply (mutate_inOrder _ (NudgeElevationUp _)) | exact H]
  | |- sceneInOrder (stateOf (nudgeLightElevationDown _ _ _)) =>
      apply onLightWithCamera_inOrder;
      [intros ? ?; apply (mutate_inOrder _ (NudgeElevationDown _)) | exact H]
  | |- sceneInOrder (stateOf (moveLightTowardDirection _ _ _ _)) =>
      apply onLightWithCamera_inOrder;
      [intros ? ?; apply (mutate_inOrder _ (MoveTowardDirection _ _)) | exact H]
  | |- sceneInOrder (stateOf (swingLightUp _ _)) =>
      apply onLight_inOrder; [intros ?; apply (mutate_inOrder _ (Rotate _ _) None) | exact H]
  | |- sceneInOrder (stateOf (swingLightDown _ _)) =>
      apply onLight_inOrder; [intros ?; apply (mutate_inOrder _ (Rotate _ _) None) | exact H]
  | |- sceneInOrder (stateOf (swingLightLeft _ _)) =>
      apply onLight_inOrder; [intros ?; apply (mutate_inOrder _ (Rotate _ _) None) | exact H]
  | |- sceneInOrder (stateOf (swingLightRight _ _)) =>
      apply onLight_inOrder; [intros ?; apply (mutate_inOrder _ (Rotate _ _) None) | exact H]
  | |- sceneInOrder (stateOf (walkLightIn _ _)) =>
      apply onLight_inOrder; [intros ?; apply (mutate_inOrder _ (Dolly _) None) | exact H]
  | |- sceneInOrder (stateOf (walkLightOut _ _)) =>
      apply onLight_inOrder; [intros ?; apply (mutate_inOrder _ (Dolly _) None) | exact H]
  end.

Ltac handler_order :=
  lazymatch goal with
  | |- (_ -> sceneInOrder (sceneManager (stateOf (callScene ?f ?app)))) /\ _ =>
      destruct (callScene_keeps f app) as [Escene Eshell];
      split; [intros H; rewrite Escene; scene_order H | exact Eshell]
  | |- (_ -> sceneInOrder (sceneManager (stateOf (logValue ?l ?v ?app)))) /\ _ =>
      split; [intros H; exact H | repeat split]
  | |- (_ -> sceneInOrder (sceneManager (stateOf (logResult ?l ?r ?w ?app)))) /\ _ =>
      destruct (logResult_keeps l r w app) as [Escene Eshell];
      split; [intros H; rewrite Escene; exact H | exact Eshell]
  | |- (_ -> sceneInOrder (sceneManager (stateOf (_showToolNotification ?v ?app)))) /\ _ =>
      destruct (showToolNotification_keeps v app) as [Escene Eshell];
      split; [intros H; rewrite Escene; exact H | exact Eshell]
  end.

Lemma handlers_keep_order (name : string) (h : Handler (host := host)) :
  mapGet commandHandlers name = Some h ->
  forall c app,
    (sceneInOrder (sceneManager app) -> sceneInOrder (sceneManager (stateOf (h c app)))) /\
    interactionModeManager (stateOf (h c app)) = interactionModeManager app /\
    currentHoveredAreaLight (stateOf (h c app)) = currentHoveredAreaLight app /\
    isAreaLightDragging (stateOf (h c app)) = isAreaLightDragging app /\
    wsClient (stateOf (h c app)) = wsClient app.
Proof.
  unfold commandHandlers, mapGet.
  repeat match goal with
    | |- (if ?b then _ else _) = _ -> _ =>
        destruct b;
        [ let E := fresh in
          intros E; injection E as E; subst h; intros c app; cbv beta; handler_order |]
    end.
  discriminate.
Qed.

End AppInOrder.

Section AppEvents.
Context {host : Host}.
Import SceneManager Application.

Lemma sendStateUpdate_keeps (app : Application.t host) :
  sceneManager (stateOf (_sendStateUpdate app)) = sceneManager app /\
  interactionModeManager (stateOf (_sendStateUpdate app)) = interactionModeManager app /\
  currentHoveredAreaLight (stateOf (_sendStateUpdate app)) = currentHoveredAreaLight app /\
  isAreaLightDragging (stateOf (_sendStateUpdate app)) = isAreaLightDragging app.
Proof.
  unfold _sendStateUpdate.
  destruct (wsClient app) as [ws|]; [|repeat split].
  destruct (isConnected ws); [|repeat split].
  destruct (getSceneState app); repeat split.
Qed.

Lemma handleWebSocketCommand_inOrder (command : Command) (app : Application.t host) :
  sceneInOrder (sceneManager app) ->
  sceneInOrder (sceneManager (stateOf (_handleWebSocketCommand command app))).
Proof.
  intros H. unfold _handleWebSocketCommand.
  destruct (Application.type command) as [r|ty|]; try exact H.
  destruct (mapGet commandHandlers ty) as [h|] eqn:Eh; [|exact H].
  destruct (handlers_keep_order ty h Eh command app) as [Hh _]. specialize (Hh H).
  destruct (h command app) as [app'|e app']; cbn [andThen stateOf] in *; [|exact Hh].
  destruct (_ && _)%bool; [|exact Hh].
  destruct (sendStateUpdate_keeps app') as [E _]. rewrite E. exact Hh.
Qed.

Lemma setHighlighted_scene_inOrder (role : LightRole) (b : bool) (sm : SceneManager.t host) :
  sceneInOrder sm -> sceneInOrder (stateOf (Application.setHighlighted role b sm)).
Proof.
  intros H. destruct (light_of_role role sm H) as [l [El Hl]].
  unfold Application.setHighlighted. rewrite El. cbn [stateOf].
  apply setLight_inOrder; [exact H | apply setHighlighted_inOrder, Hl].
Qed.

Lemma setMode_scene (mode : string) (app : Application.t host) (hovered : option LightRole) :
  sceneManager (setMode mode app hovered) = sceneManager app.
Proof.
  unfold setMode. destruct (InteractionModeManager.setMode _ _) as [m warned].
  destruct warned; reflexivity.
Qed.

Lemma callScene_inOrder
    (f : SceneManager.t host -> Outcome (SceneManager.t host)) (app : Application.t host) :
  sceneInOrder (stateOf (f (sceneManager app))) ->
  sceneInOrder (sceneManager (stateOf (callScene f app))).
Proof. intros H. destruct (callScene_keeps f app) as [E _]. rewrite E. exact H. Qed.

Lemma updateAreaLightHover_inOrder (intersections : list Intersection)
    (app : Application.t host) :
  sceneInOrder (sceneManager app) ->
  sceneInOrder (sceneManager (stateOf (_updateAreaLightHover intersections app))).
Proof.
  intros H. unfold _updateAreaLightHover.
  destruct (role_eqb _ _); [exact H|].
  assert (H1 : forall app0 : Application.t host,
            sceneInOrder (sceneManager app0) ->
            forall hovered : option LightRole,
            sceneInOrder
              (sceneManager
                 (stateOf
                    match hovered with
                    | Some h =>
                        andThen (callScene (Application.setHighlighted h true) app0)
                          (fun app1 =>
                             Done (setMode InteractionModeManager.AREA_LIGHT_MANIPULATION
                                     app1 hovered))
                    | None =>
                        Done (setMode InteractionModeManager.MODEL_ROTATION app0 hovered)
                    end))).
  { intros app0 H0 hovered. destruct hovered as [h|].
    - pose proof (callScene_inOrder (Application.setHighlighted h true) app0
                    (setHighlighted_scene_inOrder h true _ H0)) as Hc.
      destruct (callScene _ app0) as [app1|e app1]; cbn [andThen stateOf] in *;
        [rewrite setMode_scene|]; exact Hc.
    - cbn [stateOf]. rewrite setMode_scene. exact H0. }
  destruct (currentHoveredAreaLight app) as [previous|].
  - pose proof (callScene_inOrder (Application.setHighlighted previous false) app
                  (setHighlighted_scene_inOrder previous false _ H)) as Hc.
    destruct (callScene _ app) as [app1|e app1]; cbn [andThen stateOf] in *;
      [apply H1|]; exact Hc.
  - cbn [andThen]. apply H1, H.
Qed.

Lemma onWheel_inOrder (deltaY : R) (shiftKey : bool) (app : Application.t host) :
  sceneInOrder (sceneManager app) ->
  sceneInOrder (sceneManager (stateOf (onWheel deltaY shiftKey app))).
Proof.
  intros H. unfold onWheel.
  assert (Hcam : sceneInOrder
                   (sceneManager
                      (stateOf
                         (callScene
                            (fun sm =>
                               match cameraController sm with
                               | Some c =>
                                   Done (setCameraControllerField
                                           (CameraController.handleWheel deltaY shiftKey c)
                                           sm)
                               | None => Thrown (TypeError "cameraController") sm
                               end) app)))).
  { apply callScene_inOrder.
    pose proof (onCameraController_inOrder (CameraController.Wheel deltaY shiftKey)
                  (sceneManager app) H) as Hc.
    unfold onCameraController in Hc.
    destruct H as [_ [_ [_ [_ [[c [Ec [Ecam _]]] _]]]]].
    rewrite Ecam, Ec in Hc. rewrite Ec. exact Hc. }
  destruct (InteractionModeManager.isAreaLightMode _);
    [destruct (currentHoveredAreaLight app) as [hovered|]|].
  - apply callScene_inOrder.
    destruct (light_of_role hovered _ H) as [l [El Hl]]. rewrite El.
    apply render_inOrder, setLight_inOrder; [exact H|].
    apply (mutate_inOrder hovered (Dolly _) None l Hl).
  - destruct (InteractionModeManager.isModelRotationMode _); [exact Hcam | exact H].
  - destruct (InteractionModeManager.isModelRotationMode _); [exact Hcam | exact H].
Qed.

Lemma init_inOrder (windowAspect : R) (rc : RotationController host)
    (sessionId : option string) :
  sceneInOrder (sceneManager (stateOf (init windowAspect rc sessionId))).
Proof.
  split; [cbn; discriminate|]. split; [cbn; discriminate|].
  split; [cbn; discriminate|]. split; [cbn; discriminate|]. split.
  - exists (CameraController.constructor windowAspect).
    split; [reflexivity|]. split; [reflexivity|]. apply constructor_asConfigured.
  - intros role. destruct role; (eexists; split; [reflexivity|]);
      (do 3 eexists;
       split; [reflexivity|]; split; [reflexivity|]; split; [reflexivity|];
       split; [reflexivity|]; split; [reflexivity|];
       split; [reflexivity|]; split; [reflexivity|];
       eexists; split; reflexivity).
Qed.

Lemma handle_inOrder (e : Event) (app : Application.t host) :
  sceneInOrder (sceneManager app) -> sceneInOrder (sceneManager (stateOf (handle e app))).
Proof.
  intros H. destruct e as [ints|command|dy shift]; cbn [handle].
  - apply updateAreaLightHover_inOrder, H.
  - apply handleWebSocketCommand_inOrder, H.
  - apply onWheel_inOrder, H.
Qed.

Lemma appAfter_inOrder (events : list Event) (windowAspect : R)
    (rc : RotationController host) (sessionId : option string) :
  sceneInOrder (sceneManager (appAfter events windowAspect rc sessionId)).
Proof.
  unfold appAfter. generalize (init_inOrder windowAspect rc sessionId).
  generalize (stateOf (init windowAspect rc sessionId)).
  induction events as [|e events IH]; intros app H; [exact H|].
  cbn [handleAll]. apply IH, handle_inOrder, H.
Qed.

(** X24.  After [init], whatever pointer moves, wheel turns and remote
    commands follow (also commands that throw), as long as every numeric
    field that the handler of a command reads holds a number, the scene stays
    in working order: the scene, the renderer, the model, both controllers
    and both lights are there; the camera that the scene manager uses is the
    camera of the controller, within its ranges and on the Z axis; and each
    light keeps its pivot at the model origin, its pick proxy, an overlay of
    the colour of the light, and faces its target. *)
Theorem scene_stays_in_order (events : list Event) (windowAspect : R)
    (rc : RotationController host) (sessionId : option string) :
  sceneInOrder (sceneManager (appAfter events windowAspect rc sessionId)).
Proof. apply appAfter_inOrder. Qed.

Lemma getSceneState_inOrder (app : Application.t host) :
  sceneInOrder (sceneManager app) -> exists state, getSceneState app = Ok state.
Proof.
  intros [_ [_ [_ [_ [[c [Ec [Ecam _]]] Hl]]]]].
  destruct (Hl KeyLight) as [lk [Ek [ka [_ [_ [Eka _]]]]]].
  destruct (Hl FillLight) as [lf [Ef [fa [_ [_ [Efa _]]]]]].
  unfold getSceneState, lightState, getLightIntensity, getLightColor, getLightSize,
    getCameraDistance, getCameraFOV.
  rewrite Ek, Ef, Eka, Efa, Ecam, Ec. cbn [bind]. eexists. reflexivity.
Qed.

(** X25.  After [init] and any sequence of pointer moves, wheel turns and
    remote commands in which every numeric field that the handler of a
    command reads holds a number, [getSceneState] returns a state: none of
    the getters it calls meets a missing reference, and the camera distance
    it reports lies between 8 and 64 and the zoom between 0.5 and 5. *)
Theorem getSceneState_always_returns (events : list Event) (windowAspect : R)
    (rc : RotationController host) (sessionId : option string) :
  exists state,
    getSceneState (appAfter events windowAspect rc sessionId) = Ok state /\
    8 <= st_cameraDistance state <= 64 /\
    5 / 10 <= st_cameraFov state <= 5.
Proof.
  pose proof (appAfter_inOrder events windowAspect rc sessionId) as H.
  destruct (getSceneState_inOrder _ H) as [state E].
  exists state. split; [exact E|].
  destruct H as [_ [_ [_ [_ [[c [Ec [Ecam [[_ [_ [_ [_ [Hd Hf]]]]] _]]]] Hl]]]]].
  destruct (Hl KeyLight) as [lk [Ek [ka [_ [_ [Eka _]]]]]].
  destruct (Hl FillLight) as [lf [Ef [fa [_ [_ [Efa _]]]]]].
  unfold getSceneState, lightState, getLightIntensity, getLightColor, getLightSize,
    getCameraDistance, getCameraFOV in E.
  rewrite Ek, Ef, Eka, Efa, Ecam, Ec in E. cbn [bind] in E.
  injection E as E. subst state. cbn [st_cameraDistance st_cameraFov].
  unfold CONFIG.CAMERA.MIN_DISTANCE, CONFIG.CAMERA.MAX_DISTANCE, CONFIG.CAMERA.FOV_MIN,
    CONFIG.CAMERA.FOV_MAX in *.
  split; assumption.
Qed.

End AppEvents.

(** * Further properties: the command router *)

Section Commands.
Context {host : Host}.
Import SceneManager Application.

Ltac readonly_handler :=
  lazymatch goal with
  | |- sceneManager (stateOf (logValue ?l ?v ?app)) = _ => reflexivity
  | |- sceneManager (stateOf (logResult ?l ?r ?w ?app)) = _ =>
      apply (proj1 (logResult_keeps l r w app))
  | |- sceneManager (stateOf (_showToolNotification ?v ?app)) = _ =>
      apply (proj1 (showToolNotification_keeps v app))
  end.

Lemma readonly_handlers (name : string) (h : Handler (host := host)) :
  JS.startsWith "get" name = true \/ name = "toolCall"%string ->
  mapGet commandHandlers name = Some h ->
  forall c app, sceneManager (stateOf (h c app)) = sceneManager app.
Proof.
  intros Hname. unfold commandHandlers, mapGet.
  repeat match goal with
    | |- (if String.eqb ?k name then _ else _) = _ -> _ =>
        let E := fresh "E" in
        let N := fresh "N" in
        destruct (String.eqb_spec k name) as [E|N];
        [ subst name;
          first [ solve [exfalso; destruct Hname as [G|G];
                         [cbn in G; discriminate G | discriminate G]]
                | let E' := fresh in
                  intros E'; injection E' as E'; subst h; intros c app; cbv beta;
                  readonly_handler ] |]
    end.
  discriminate.
Qed.

(** X26.  A command whose type starts with get, and the toolCall
    notification, are read-only: whether the type is known or not and
    whether the handler returns or throws, the scene manager, the socket
    client with the updates it has sent, the interaction mode, the hovered
    light and the drag flag are as before; no state update is sent. *)
Theorem getter_and_toolCall_commands_are_read_only
    (command : Command) (ty : string) (app : Application.t host) :
  Application.type command = JS.Str ty ->
  JS.startsWith "get" ty = true \/ ty = "toolCall"%string ->
  let app' := stateOf (_handleWebSocketCommand command app) in
  sceneManager app' = sceneManager app /\
  wsClient app' = wsClient app /\
  interactionModeManager app' = interactionModeManager app /\
  currentHoveredAreaLight app' = currentHoveredAreaLight app /\
  isAreaLightDragging app' = isAreaLightDragging app.
Proof.
  intros Ety Hname app'. subst app'. unfold _handleWebSocketCommand. rewrite Ety.
  destruct (mapGet commandHandlers ty) as [h|] eqn:Eh; [|repeat split].
  pose proof (readonly_handlers ty h Hname Eh command app) as Hscene.
  destruct (handlers_keep_order ty h Eh command app) as [_ [Hm [Hc [Hd Hw]]]].
  assert (Hflag : (negb (JS.startsWith "get" ty) && negb (String.eqb ty "toolCall"))%bool
                  = false).
  { destruct Hname as [G|G]; [rewrite G; reflexivity|].
    subst ty. reflexivity. }
  rewrite Hflag.
  destruct (h command app) as [app1|e app1]; cbn [andThen stateOf] in *;
    repeat split; assumption.
Qed.

Lemma setLight_same (role : LightRole) (l : AreaLight.t host) (sm : SceneManager.t host) :
  getLight role sm = Some l -> setLight role (Some l) sm = sm.
Proof.
  intros H. destruct sm as [cam sc rd md kl fl rc cc fr].
  destruct role; cbn in *; subst; reflexivity.
Qed.

Lemma withSceneManager_same (app : Application.t host) :
  withSceneManager app (sceneManager app) = app.
Proof. destruct app; reflexivity. Qed.

Lemma spherical_handlers :
  mapGet (commandHandlers (host := host)) "setKeyLightPositionSpherical" =
  Some (fun c => callScene (setLightPositionSpherical KeyLight (azimuth c) (elevation c))) /\
  mapGet (commandHandlers (host := host)) "setFillLightPositionSpherical" =
  Some (fun c => callScene (setLightPositionSpherical FillLight (azimuth c) (elevation c))).
Proof. split; reflexivity. Qed.

(** X27.  In a scene in working order, a setKeyLightPositionSpherical or
    setFillLightPositionSpherical command whose azimuth is missing, or is a
    string of ASCII characters that names no direction, makes the router throw
    the invalid-azimuth error of [sphericalToCartesian]: the exception passes
    through the scene manager and the router, the application is left exactly
    as it was, and no state update is sent. *)
Theorem invalid_azimuth_command_throws
    (command : Command) (role : LightRole) (app : Application.t host) :
  sceneInOrder (sceneManager app) ->
  Application.type command =
  JS.Str (match role with
          | KeyLight => "setKeyLightPositionSpherical"
          | FillLight => "setFillLightPositionSpherical"
          end) ->
  asciiValue (azimuth command) ->
  directionToAzimuthAngle (azimuth command) = None ->
  _handleWebSocketCommand command app = Thrown InvalidAzimuth app.
Proof.
  intros H Ety _ Haz.
  destruct (light_of_role role _ H) as [l [El [light [g [mm [Ea [Eg _]]]]]]].
  pose proof H as [_ [_ [_ [_ [[c0 [_ [Ecam _]]] _]]]]].
  destruct spherical_handlers as [Hk Hf].
  assert (Hcall : callScene (setLightPositionSpherical role (azimuth command)
                               (elevation command)) app
                  = Thrown InvalidAzimuth app).
  { unfold callScene, setLightPositionSpherical, onLightWithCamera.
    rewrite El, Ecam.
    unfold AreaLight.setPositionSpherical. rewrite Ea, Eg.
    unfold sphericalToCartesian. rewrite Haz. cbn [inField].
    rewrite (setLight_same role l _ El), withSceneManager_same. reflexivity. }
  unfold _handleWebSocketCommand. rewrite Ety.
  destruct role; [rewrite Hk | rewrite Hf]; rewrite Hcall; reflexivity.
Qed.

(** X28.  When a known command that changes the scene (its type neither
    starts with get nor is toolCall) has been handled without an exception
    in a scene that is in working order, the router reads the scene state
    after the change and, if the socket client is connected, sends exactly
    that state as one update; if the client is not connected nothing is
    sent and the application is as the handler left it. *)
Theorem modifying_command_pushes_the_new_state
    (command : Command) (ty : string) (h : Handler (host := host))
    (app app' : Application.t host) (ws : WebSocketClient) :
  Application.type command = JS.Str ty ->
  mapGet commandHandlers ty = Some h ->
  JS.startsWith "get" ty = false ->
  ty <> "toolCall"%string ->
  h command app = Done app' ->
  sceneInOrder (sceneManager app) ->
  wsClient app = Some ws ->
  exists state,
    getSceneState app' = Ok state /\
    _handleWebSocketCommand command app =
    Done (if isConnected ws
          then withWsClient app' (Some (sendStateUpdate state ws))
          else app').
Proof.
  intros Ety Eh Hget Htool Hdone Hord Hws.
  destruct (handlers_keep_order ty h Eh command app) as [Hscene [_ [_ [_ Hw]]]].
  rewrite Hdone in Hscene, Hw. cbn [stateOf] in Hscene, Hw.
  destruct (getSceneState_inOrder app' (Hscene Hord)) as [state Est].
  exists state. split; [exact Est|].
  unfold _handleWebSocketCommand. rewrite Ety, Eh, Hdone, Hget. cbn [andThen].
  destruct (String.eqb_spec ty "toolCall") as [E|_]; [contradiction|].
  cbn [negb andb]. unfold _sendStateUpdate. rewrite Hw, Hws.
  destruct (isConnected ws); [rewrite Est|]; reflexivity.
Qed.

(** X29.  The wheel acts on one thing at a time.  While a light is hovered,
    a wheel turn moves that light by 0.1 along its radius (toward the pivot
    when deltaY is positive, away from it otherwise), renders, and leaves the
    camera and the other light alone; while no light is hovered it is passed
    to the camera controller and leaves both lights alone. *)
Theorem wheel_moves_the_hovered_light_or_the_camera
    (deltaY : R) (shiftKey : bool) (app : Application.t host) :
  sceneInOrder (sceneManager app) ->
  (forall role, hoveringOver role app ->
     exists app' l,
       onWheel deltaY shiftKey app = Done app' /\
       getLight role (sceneManager app) = Some l /\
       getLight role (sceneManager app') =
       Some (AreaLight.dolly (if Rgt_dec deltaY 0 then - (1 / 10) else 1 / 10) l) /\
       getLight (otherLight role) (sceneManager app') =
       getLight (otherLight role) (sceneManager app) /\
       cameraController (sceneManager app') = cameraController (sceneManager app) /\
       SceneManager.camera (sceneManager app') = SceneManager.camera (sceneManager app) /\
       frames (sceneManager app') = S (frames (sceneManager app))) /\
  (notHovering app ->
     exists app' c,
       onWheel deltaY shiftKey app = Done app' /\
       cameraController (sceneManager app) = Some c /\
       cameraController (sceneManager app') =
       Some (CameraController.handleWheel deltaY shiftKey c) /\
       keyLight (sceneManager app') = keyLight (sceneManager app) /\
       fillLight (sceneManager app') = fillLight (sceneManager app) /\
       frames (sceneManager app') = frames (sceneManager app)).
Proof.
  intros H. split.
  - intros role [Hm [Hc _]].
    destruct (light_of_role role _ H) as [l [El _]].
    pose proof H as [_ [Hr _]].
    assert (Ha : InteractionModeManager.isAreaLightMode (interactionModeManager app) = true).
    { unfold InteractionModeManager.isAreaLightMode.
      unfold mode, InteractionModeManager.getCurrentMode in Hm. rewrite Hm.
      apply String.eqb_refl. }
    unfold onWheel. rewrite Ha, Hc.
    unfold callScene. rewrite El. unfold render.
    destruct (renderer (setLight role _ (sceneManager app))) as [u|] eqn:Er.
    + cbn [inField]. do 2 eexists. split; [reflexivity|]. split; [reflexivity|].
      unfold CONFIG.INTERACTION.AREA_LIGHT_DOLLY_SENSITIVITY.
      destruct role; cbn; repeat split.
    + exfalso. apply Hr. destruct role; exact Er.
  - intros [Hm [Hc _]].
    pose proof H as [_ [_ [_ [_ [[c [Ec _]] _]]]]].
    unfold mode, InteractionModeManager.getCurrentMode in Hm.
    assert (Ha : InteractionModeManager.isAreaLightMode (interactionModeManager app) = false).
    { unfold InteractionModeManager.isAreaLightMode. rewrite Hm. reflexivity. }
    assert (Hr : InteractionModeManager.isModelRotationMode (interactionModeManager app)
                 = true).
    { unfold InteractionModeManager.isModelRotationMode. rewrite Hm.
      apply String.eqb_refl. }
    unfold onWheel. rewrite Ha, Hr.
    unfold callScene. rewrite Ec. cbn [inField].
    do 2 eexists. split; [reflexivity|]. split; [reflexivity|]. repeat split.
Qed.

End Commands.

Section RayPicking.
Import RayPicker.

(** X30.  [updateMousePosition] turns a position on the canvas, in pixels
    from the top left corner, into normalized device coordinates: both lie
    between -1 and 1, x grows to the right and y upward (the top edge is 1),
    the canvas position can be recovered from them, and the hovered object is
    not touched. *)
Theorem updateMousePosition_normalizes (sx sy width height : R) (p : RayPicker.t) :
  0 < width -> 0 < height ->
  0 <= sx <= width -> 0 <= sy <= height ->
  let p' := updateMousePosition sx sy width height p in
  -1 <= vx (mouse p') <= 1 /\
  -1 <= vy (mouse p') <= 1 /\
  sx = (vx (mouse p') + 1) / 2 * width /\
  sy = (1 - vy (mouse p')) / 2 * height /\
  getHoveredObject p' = getHoveredObject p.
Proof.
  intros Hw Hh Hx Hy p'. subst p'. unfold updateMousePosition; cbn [mouse vx vy].
  assert (Unit : forall v w, 0 < w -> 0 <= v <= w -> 0 <= v / w <= 1).
  { intros v w Hpos Hv. pose proof (Rinv_0_lt_compat w Hpos) as Hi. unfold Rdiv.
    split; [nra|].
    assert (Hle : v * / w <= w * / w) by nra.
    rewrite Rinv_r in Hle by lra. exact Hle. }
  pose proof (Unit sx width Hw Hx) as Bx.
  pose proof (Unit sy height Hh Hy) as By.
  split; [lra|]. split; [lra|].
  split; [field; lra|]. split; [field; lra | reflexivity].
Qed.

Lemma updateMousePosition_normalizes_witness :
  let p' := updateMousePosition 200 150 800 600 constructor in
  -1 <= vx (mouse p') <= 1 /\
  -1 <= vy (mouse p') <= 1 /\
  200 = (vx (mouse p') + 1) / 2 * 800 /\
  150 = (1 - vy (mouse p')) / 2 * 600 /\
  getHoveredObject p' = getHoveredObject constructor.
Proof.
  apply (updateMousePosition_normalizes 200 150 800 600 constructor); lra.
Defined.

End RayPicking.

Section CommandExamples.
Import SceneManager Application.

Lemma getter_and_toolCall_commands_are_read_only_witness :
  let app' := stateOf (_handleWebSocketCommand (commandOfType "getCameraDistance")
                         exampleApp) in
  sceneManager app' = sceneManager exampleApp /\
  wsClient app' = wsClient exampleApp /\
  interactionModeManager app' = interactionModeManager exampleApp /\
  currentHoveredAreaLight app' = currentHoveredAreaLight exampleApp /\
  isAreaLightDragging app' = isAreaLightDragging exampleApp.
Proof.
  apply (getter_and_toolCall_commands_are_read_only
           (commandOfType "getCameraDistance") "getCameraDistance" exampleApp).
  - reflexivity.
  - left. reflexivity.
Defined.


Lemma exampleApp_inOrder : sceneInOrder (sceneManager exampleApp).
Proof. exact (init_inOrder (host := exampleHost) (16 / 9) (vec3 0 0 0) (Some "session"%string)). Qed.

Lemma light_intensity_and_size_round_trip_witness :
  (exists sm',
     setLightIntensity KeyLight 3 exampleScene = Done sm' /\
     getLightIntensity KeyLight sm' = Ok 3 /\
     getLightSize KeyLight sm' = getLightSize KeyLight exampleScene /\
     getLight (otherLight KeyLight) sm' = getLight (otherLight KeyLight) exampleScene) /\
  (exists sm',
     setLightSize KeyLight 4 5 exampleScene = Done sm' /\
     getLightSize KeyLight sm' = Ok (4, 5) /\
     getLightIntensity KeyLight sm' = getLightIntensity KeyLight exampleScene /\
     getLight (otherLight KeyLight) sm' = getLight (otherLight KeyLight) exampleScene).
Proof.
  refine (light_intensity_and_size_round_trip KeyLight exampleScene _ _ 3 4 5
            eq_refl eq_refl).
Defined.

Lemma setLightColor_colours_light_and_overlay_witness :
  exists sm' l' light' m',
    setLightColor FillLight (JS.Str "#ff8800") exampleScene = Done sm' /\
    getLight FillLight sm' = Some l' /\
    AreaLight.areaLight l' = Some light' /\
    AreaLight.highlightOverlay l' = Some m' /\
    AreaLight.color light' =
    Color_ofHex exampleHost (parseInt exampleHost (removeFirstHash "#ff8800") 16) /\
    AreaLight.materialColor m' = AreaLight.color light' /\
    AreaLight.visible m' = false /\
    AreaLight.position light' = vec3 (-5 - 0) (2 - - (5 / 10)) (5 - 0) /\
    getLightColor FillLight sm' = Ok (hexCode (AreaLight.color light')) /\
    getLight (otherLight FillLight) sm' = getLight (otherLight FillLight) exampleScene.
Proof.
  refine (setLightColor_colours_light_and_overlay FillLight exampleScene _ _ _ "#ff8800"
            eq_refl eq_refl eq_refl).
Defined.

Lemma setLightPosition_places_in_world_witness :
  exists sm' l' light',
    setLightPosition KeyLight 1 2 3 exampleScene = Done sm' /\
    getLight KeyLight sm' = Some l' /\
    AreaLight.areaLight l' = Some light' /\
    AreaLight.parentGroup l' =
    Some (AreaLight.mkObject3D CONFIG.MODEL.ORIGIN (euler 0 0 0)) /\
    AreaLight.position light' = vec3 1 (2 + 5 / 10) 3 /\
    (euler 0 0 0 = euler 0 0 0 ->
     AreaLight.worldPosition
       (Some (AreaLight.mkObject3D CONFIG.MODEL.ORIGIN (euler 0 0 0))) light' = vec3 1 2 3) /\
    getLight (otherLight KeyLight) sm' = getLight (otherLight KeyLight) exampleScene.
Proof.
  refine (setLightPosition_places_in_world KeyLight exampleScene _ _ _ 1 2 3
            eq_refl eq_refl eq_refl eq_refl).
Defined.

Lemma invalid_azimuth_command_throws_witness :
  _handleWebSocketCommand invalidAzimuthCommand exampleApp = Thrown InvalidAzimuth exampleApp.
Proof.
  apply (invalid_azimuth_command_throws invalidAzimuthCommand KeyLight exampleApp).
  - apply exampleApp_inOrder.
  - reflexivity.
  - reflexivity.
  - reflexivity.
Defined.

Lemma modifying_command_pushes_the_new_state_witness :
  exists state,
    getSceneState exampleAppDollied = Ok state /\
    _handleWebSocketCommand dollyCommand exampleApp =
    Done (if isConnected (mkWebSocketClient true [])
          then withWsClient exampleAppDollied
                 (Some (sendStateUpdate state (mkWebSocketClient true [])))
          else exampleAppDollied).
Proof.
  apply (modifying_command_pushes_the_new_state dollyCommand "dollyCamera"
           (fun c => callScene (SceneManager.dollyCamera (distance c)))
           exampleApp exampleAppDollied (mkWebSocketClient true [])).
  - reflexivity.
  - reflexivity.
  - reflexivity.
  - discriminate.
  - reflexivity.
  - apply exampleApp_inOrder.
  - reflexivity.
Defined.

Lemma wheel_moves_the_hovered_light_or_the_camera_witness :
  (forall role, hoveringOver role exampleApp ->
     exists app' l,
       onWheel 1 false exampleApp = Done app' /\
       getLight role (sceneManager exampleApp) = Some l /\
       getLight role (sceneManager app') =
       Some (AreaLight.dolly (if Rgt_dec 1 0 then - (1 / 10) else 1 / 10) l) /\
       getLight (otherLight role) (sceneManager app') =
       getLight (otherLight role) (sceneManager exampleApp) /\
       cameraController (sceneManager app') = cameraController (sceneManager exampleApp) /\
       SceneManager.camera (sceneManager app') =
       SceneManager.camera (sceneManager exampleApp) /\
       frames (sceneManager app') = S (frames (sceneManager exampleApp))) /\
  (notHovering exampleApp ->
     exists app' c,
       onWheel 1 false exampleApp = Done app' /\
       cameraController (sceneManager exampleApp) = Some c /\
       cameraController (sceneManager app') =
       Some (CameraController.handleWheel 1 false c) /\
       keyLight (sceneManager app') = keyLight (sceneManager exampleApp) /\
       fillLight (sceneManager app') = fillLight (sceneManager exampleApp) /\
       frames (sceneManager app') = frames (sceneManager exampleApp)).
Proof.
  apply (wheel_moves_the_hovered_light_or_the_camera 1 false exampleApp).
  apply exampleApp_inOrder.
Defined.

End CommandExamples.
